(** * Hybrid 3D extinction maps: a Rocq model of the sight-line code

    This development embeds the numerical core of the extinction-map
    scripts ([stilism_local.py], [compareExtinctions.py],
    [readExtinction.py]) and states the properties of the design
    document about them.

    Conventions of the embedding.
    - A numpy [float64] is an exact rational ([Q]); rounding, infinities
      and NaN are outside the model, and so is division by zero (which
      numpy answers with inf/nan and [Q] with 0).  Equalities that only
      select or copy values are Leibniz equalities; equalities that
      compute are stated with [==].
    - A one-dimensional array is a [list Q], a two-dimensional one a list
      of rows.
    - A Python exception is a [Raise] in the [res] monad; a bare [return]
      is the value [None] of an option.
    - The libraries the scripts call (scipy's grid interpolator, healpy,
      astropy, mwdust) are either modelled from their documented
      behaviour, or taken as parameters of the classes [External] and
      [Astropy]. *)

From stdpp Require Import gmap strings list fin_maps pretty.
From Stdlib Require Import QArith Qround Qabs Lqa Lia ZArith Ascii.

Open Scope Q_scope.

(** ** Exceptions and the error monad *)

Inductive exn : Type :=
  | IndexError
  | ValueError
  | TypeError
  | KeyError
  | AttributeError
  | ZeroDivisionError
  | OSError.

Inductive res (A : Type) : Type :=
  | Ok (a : A)
  | Raise (e : exn).
Arguments Ok {A} a.
Arguments Raise {A} e.

Definition bind {A B : Type} (m : res A) (k : A -> res B) : res B :=
  match m with
  | Ok a => k a
  | Raise e => Raise e
  end.

Notation "'let*' x ':=' m 'in' k" := (bind m (fun x => k))
  (at level 10, x pattern, m at level 100, k at level 200).

Lemma bind_Ok_inv {A B : Type} (m : res A) (k : A -> res B) (b : B) :
  bind m k = Ok b -> exists a, m = Ok a /\ k a = Ok b.
Proof. destruct m as [a|e]; simpl; [eauto | discriminate]. Qed.

(** ** Comparisons on rationals as booleans *)

Definition Qltb (x y : Q) : bool := negb (Qle_bool y x).
Definition Qleb (x y : Q) : bool := Qle_bool x y.

Lemma Qltb_lt (x y : Q) : Qltb x y = true <-> x < y.
Proof.
  unfold Qltb. rewrite negb_true_iff.
  split; intros H.
  - apply Qnot_le_lt. intros Hle. apply Qle_bool_iff in Hle. congruence.
  - destruct (Qle_bool y x) eqn:E; [|reflexivity].
    apply Qle_bool_iff in E. exfalso. apply (Qlt_not_le _ _ H E).
Qed.

Lemma Qltb_ge (x y : Q) : Qltb x y = false <-> y <= x.
Proof.
  unfold Qltb. rewrite negb_false_iff. apply Qle_bool_iff.
Qed.

Lemma Qleb_le (x y : Q) : Qleb x y = true <-> x <= y.
Proof. apply Qle_bool_iff. Qed.

(** ** The numpy operations the scripts use *)

Module np.

(** [arr[i]] for a non-negative index. *)
Definition getitem {A : Type} (l : list A) (i : nat) : res A :=
  match l !! i with
  | Some a => Ok a
  | None => Raise IndexError
  end.

(** [np.arange(start, stop, step)] on floats: [ceil((stop-start)/step)]
    elements [start + i*step]; a zero step is refused. *)
Definition arange_len (start stop step : Q) : nat :=
  Z.to_nat (Qceiling ((stop - start) / step)).

Definition arange (start stop step : Q) : res (list Q) :=
  if Qeq_bool step 0 then Raise ValueError
  else Ok (map (fun i : nat => start + inject_Z (Z.of_nat i) * step)
               (seq 0 (arange_len start stop step))).

(** [np.linspace(start, stop, num, endpoint=False)]: [num] samples
    [i*step + start] with [step = (stop-start)/num]; a negative [num] is
    refused. *)
Definition linspace_open (start stop : Q) (num : Z) : res (list Q) :=
  if (num <? 0)%Z then Raise ValueError
  else
    let step := (stop - start) / inject_Z num in
    Ok (map (fun i : nat => inject_Z (Z.of_nat i) * step + start)
            (seq 0 (Z.to_nat num))).

(** [np.linspace(start, stop, num, endpoint=True)]: the last sample is
    [stop] itself when there are at least two. *)
Definition linspace_closed (start stop : Q) (num : Z) : res (list Q) :=
  if (num <? 0)%Z then Raise ValueError
  else
    let n := Z.to_nat num in
    let step := (stop - start) / inject_Z (num - 1) in
    Ok (map (fun i : nat =>
               if (1 <? n)%nat && (S i =? n)%nat then stop
               else if (n =? 1)%nat then inject_Z (Z.of_nat i) * (stop - start) + start
               else inject_Z (Z.of_nat i) * step + start)
            (seq 0 n)).

(** [np.max] and [np.min] of a one-dimensional array; empty arrays are
    refused. *)
Definition Qmaxb (x y : Q) : Q := if Qltb x y then y else x.
Definition Qminb (x y : Q) : Q := if Qltb y x then y else x.

Definition max (l : list Q) : res Q :=
  match l with
  | [] => Raise ValueError
  | x :: l' => Ok (fold_left Qmaxb l' x)
  end.

Definition min (l : list Q) : res Q :=
  match l with
  | [] => Raise ValueError
  | x :: l' => Ok (fold_left Qminb l' x)
  end.

(** [np.argmin]: the first index of the least element. *)
Fixpoint argmin_from (best : Q) (ibest i : nat) (l : list Q) : nat :=
  match l with
  | [] => ibest
  | x :: l' =>
      if Qltb x best then argmin_from x i (S i) l'
      else argmin_from best ibest (S i) l'
  end.

Definition argmin (l : list Q) : res nat :=
  match l with
  | [] => Raise ValueError
  | x :: l' => Ok (argmin_from x 0%nat 1%nat l')
  end.

(** [np.cumsum]. *)
Fixpoint cumsum_from (acc : Q) (l : list Q) : list Q :=
  match l with
  | [] => []
  | x :: l' => (acc + x) :: cumsum_from (acc + x) l'
  end.

Definition cumsum (l : list Q) : list Q := cumsum_from 0 l.

(** [np.roll(a, 1)]: the last element moves to the front. *)
Definition roll1 (l : list Q) : list Q :=
  match l with
  | [] => []
  | _ => drop (length l - 1) l ++ take (length l - 1) l
  end.

(** [a - b], [a * b] for arrays of one shape (or a one-element array
    against any): anything else does not broadcast. *)
Definition zip_bcast (f : Q -> Q -> Q) (a b : list Q) : res (list Q) :=
  if (length a =? length b)%nat then Ok (zip_with f a b)
  else match a, b with
       | [x], _ => Ok (map (f x) b)
       | _, [y] => Ok (map (fun x => f x y) a)
       | _, _ => Raise ValueError
       end.

(** [arr[mask]] for a boolean mask of the array's length. *)
Fixpoint select {A : Type} (mask : list bool) (l : list A) : list A :=
  match mask, l with
  | m :: mask', x :: l' =>
      if m then x :: select mask' l' else select mask' l'
  | _, _ => []
  end.

(** [np.sum] of a boolean array: how many are set. *)
Definition count (mask : list bool) : nat := length (filter (fun b => b = true) mask).

(** [dst[mask] = src[mask]] for arrays of one length. *)
Fixpoint where3 (mask : list bool) (src dst : list Q) : list Q :=
  match mask, src, dst with
  | m :: mask', s :: src', d :: dst' =>
      (if m then s else d) :: where3 mask' src' dst'
  | _, _, _ => []
  end.

Definition putmask (dst : list Q) (mask : list bool) (src : list Q) : res (list Q) :=
  if (length mask =? length dst)%nat && (length mask =? length src)%nat
  then Ok (where3 mask src dst)
  else Raise IndexError.

(** Sorting, for the median. *)
Fixpoint insert_sorted (x : Q) (l : list Q) : list Q :=
  match l with
  | [] => [x]
  | y :: l' => if Qleb x y then x :: l else y :: insert_sorted x l'
  end.

Definition sort (l : list Q) : list Q := foldr insert_sorted [] l.

(** [np.median] of a one-dimensional array: the middle of the sorted
    values, or the mean of the two middle ones. *)
Definition median1 (l : list Q) : Q :=
  let s := sort l in
  let n := length s in
  if Nat.even n
  then (nth (n / 2 - 1) s 0 + nth (n / 2) s 0) / 2
  else nth (n / 2) s 0.

(** [np.vstack((stack, row))]: the new row must have the width of the
    stack. *)
Definition vstack (stack : list (list Q)) (row : list Q) : res (list (list Q)) :=
  match stack with
  | [] => Ok [row]
  | r :: _ =>
      if (length r =? length row)%nat then Ok (stack ++ [row])
      else Raise ValueError
  end.

(** Arrays combined element by element must have one length (an array
    of a single element against a longer one is not modelled). *)
Definition same_shape (a b : list Q) : res unit :=
  if (length a =? length b)%nat then Ok tt else Raise ValueError.

(** Column [j] of a stack, and [np.median(stack, axis=0)]. *)
Definition column (stack : list (list Q)) (j : nat) : list Q :=
  map (fun r => nth j r 0) stack.

Definition median_axis0 (stack : list (list Q)) : list Q :=
  match stack with
  | [] => []
  | r :: _ => map (fun j => median1 (column stack j)) (seq 0 (length r))
  end.

End np.

(** ** Library calls taken as parameters

    [math.cos], [math.sin] and [math.radians]; healpy's pixel geometry;
    astropy's change of frame between galactic and equatorial coordinates;
    the combined dust map of mwdust, called at [(l, b, distance in kpc)];
    and [LallementDustMap.get_ebv], a class of [stilism_local] that
    [compareExtinctions.py] calls and whose code is not part of the
    sources at hand: it answers [(ebv, distances, distance limit)]. *)

Class External : Type := {
  math_cos : Q -> Q;
  math_sin : Q -> Q;
  math_radians : Q -> Q;
  hp_nside2resol_arcmin : Z -> Q;
  hp_nside2npix : Z -> Z;
  hp_pix2ang : Z -> Z -> bool -> Q * Q;
  galactic_to_icrs : Q * Q -> Q * Q;
  icrs_to_galactic : Q * Q -> Q * Q;
  Combined19 : Q -> Q -> Q -> Q;
  LallementDustMap_get_ebv :
    Q -> Q -> Q -> Q -> Q -> Q -> list Q -> res (list Q * list Q * Q)
}.

(** ** scipy's [RegularGridInterpolator] on a three-dimensional grid

    Modelled on the library's documented behaviour for the linear method:
    with [bounds_error] a point outside the grid is refused; without it,
    such a point gets [fill_value], or the extrapolation of the border cell
    when there is no [fill_value]. *)

Module scipy.

Record RegularGridInterpolator : Type := {
  grid_x : list Q;
  grid_y : list Q;
  grid_z : list Q;
  values : nat -> nat -> nat -> Q;
  bounds_error : bool;
  fill_value : option Q
}.

(** [np.searchsorted(grid, x)]: how many grid points lie strictly below
    [x] (the grid is ascending). *)
Definition searchsorted (grid : list Q) (x : Q) : nat :=
  length (filter (fun g => Qltb g x = true) grid).

(** The cell index along one axis, clipped to the grid. *)
Definition find_index (grid : list Q) (x : Q) : nat :=
  Nat.min (searchsorted grid x - 1) (length grid - 2).

Definition norm_distance (grid : list Q) (x : Q) : Q :=
  let i := find_index grid x in
  (x - nth i grid 0) / (nth (S i) grid 0 - nth i grid 0).

(** [x < grid[0]] or [x > grid[-1]]. *)
Definition out_of_bounds_axis (grid : list Q) (x : Q) : res bool :=
  match head grid, last grid with
  | Some lo, Some hi => Ok (Qltb x lo || Qltb hi x)
  | _, _ => Raise IndexError
  end.

Definition out_of_bounds (r : RegularGridInterpolator) (p : Q * Q * Q) : res bool :=
  let '(x, y, z) := p in
  let* ox := out_of_bounds_axis (grid_x r) x in
  let* oy := out_of_bounds_axis (grid_y r) y in
  let* oz := out_of_bounds_axis (grid_z r) z in
  Ok (ox || oy || oz).

(** The weighted sum over the eight corners of the cell. *)
Definition evaluate_linear (r : RegularGridInterpolator) (p : Q * Q * Q) : Q :=
  let '(x, y, z) := p in
  let i := find_index (grid_x r) x in
  let j := find_index (grid_y r) y in
  let k := find_index (grid_z r) z in
  let u := norm_distance (grid_x r) x in
  let v := norm_distance (grid_y r) y in
  let w := norm_distance (grid_z r) z in
  let weight (hi : bool) (t : Q) : Q := if hi then t else 1 - t in
  let corner (a b c : bool) : Q :=
    values r (if a then S i else i) (if b then S j else j) (if c then S k else k)
    * (weight a u * weight b v * weight c w) in
  corner false false false + corner false false true
  + corner false true false + corner false true true
  + corner true false false + corner true false true
  + corner true true false + corner true true true.

Definition call1 (r : RegularGridInterpolator) (p : Q * Q * Q) : res Q :=
  let* oob := out_of_bounds r p in
  if bounds_error r then
    if oob then Raise ValueError else Ok (evaluate_linear r p)
  else
    match fill_value r with
    | Some f => Ok (if oob then f else evaluate_linear r p)
    | None => Ok (evaluate_linear r p)
    end.

(** The interpolator called on an array of points. *)
Fixpoint call (r : RegularGridInterpolator) (ps : list (Q * Q * Q)) : res (list Q) :=
  match ps with
  | [] => Ok []
  | p :: ps' =>
      let* v := call1 r p in
      let* vs := call r ps' in
      Ok (v :: vs)
  end.

End scipy.

(** ** [stilism_local.py] *)

Module stilism_local.

(** The data cube of the HDF5 file: its shape, the attributes
    [gridstep_values] and [sun_position], and the values. *)
Record Cube : Type := {
  shape : nat * nat * nat;
  gridstep_values : Q * Q * Q;
  sun_position : Q * Q * Q;
  cube_datas : nat -> nat -> nat -> Q
}.

Section WithCube.
Context `{External} (cube : Cube).

Definition steps : Q * Q * Q := gridstep_values cube.
Definition center : Q * Q * Q :=
  let '(sx, sy, sz) := sun_position cube in
  let '(dx, dy, dz) := steps in
  (sx * dx, sy * dy, sz * dz).

(** [np.arange(n) * step - c] *)
Definition axis (n : nat) (step c : Q) : list Q :=
  map (fun i : nat => inject_Z (Z.of_nat i) * step - c) (seq 0 n).

Definition x0 : list Q := axis (shape cube).1.1 steps.1.1 center.1.1.
Definition y0 : list Q := axis (shape cube).1.2 steps.1.2 center.1.2.
Definition z0 : list Q := axis (shape cube).2 steps.2 center.2.

Definition rgi : scipy.RegularGridInterpolator :=
  {| scipy.grid_x := x0; scipy.grid_y := y0; scipy.grid_z := z0;
     scipy.values := cube_datas cube;
     scipy.bounds_error := false;
     scipy.fill_value := Some 0 |}.

(** [gal_to_xyz] applied to an array of distances. *)
Definition gal_to_xyz (l b : Q) (dist : list Q) : list Q * list Q * list Q :=
  let l_rad := math_radians l in
  let b_rad := math_radians b in
  let R := map (fun d => d * math_cos b_rad) dist in
  let x := map (fun r => r * math_cos l_rad) R in
  let y := map (fun r => r * math_sin l_rad) R in
  let z := map (fun d => d * math_sin b_rad) dist in
  (x, y, z).

Definition generate_distances (dmax dmin dstep : Q) : res (list Q) :=
  np.arange dmin (dmax + (1 # 10) * dstep) dstep.

(** [arr[-1]] *)
Definition last_item (l : list Q) : res Q :=
  match last l with
  | Some a => Ok a
  | None => Raise IndexError
  end.

Definition zip3 (xyz : list Q * list Q * list Q) : list (Q * Q * Q) :=
  let '(x, y, z) := xyz in zip (zip x y) z.

Definition find_max_distance (l b : Q) (dists : list Q)
  : res (Q * list bool * (list Q * list Q * list Q)) :=
  if (length dists <? 1)%nat then Ok (0, [], ([], [], []))
  else
    let xyz := gal_to_xyz l b dists in
    let* xl := last_item x0 in
    let* yl := last_item y0 in
    let* zl := last_item z0 in
    let bInCube :=
      map (fun '(x, y, z) =>
             Qltb (Qabs x) xl && Qltb (Qabs y) yl && Qltb (Qabs z) zl)
          (zip3 xyz) in
    let* distMax := np.max (np.select bInCube dists) in
    Ok (distMax, bInCube, xyz).

Definition get_ebv_lallement (l b dist dmin dstep : Q) (distances : list Q)
  : res (list Q * list Q * Q) :=
  let* d_interp :=
    (if (length distances <? 1)%nat then generate_distances dist dmin dstep
     else Ok distances) in
  let d_step := zip_with Qminus d_interp (np.roll1 d_interp) in
  let* d_step1 := np.getitem d_step 1 in
  let* _ := np.getitem d_step 0 in
  let d_step := <[0%nat := d_step1]> d_step in
  let* (distMax, bInCube, xyz_interp) := find_max_distance l b d_interp in
  let* ebv_interp := scipy.call rgi (zip3 xyz_interp) in
  Ok (np.cumsum (zip_with Qmult ebv_interp d_step), d_interp, distMax).

End WithCube.

End stilism_local.

(** ** [compareExtinctions.py]: the class [lineofsight] *)

Module lineofsight.

Record t : Type := {
  l : Q;
  b : Q;
  distMaxPc : Q;
  distMinPc : Q;
  distStepPc : Q;
  distMaxCoarsePc : Q;
  distStepCoarsePc : option Q;
  nDistBins : Z;
  Rv : Q;
  distsPc : list Q;
  distLimPc : Q;
  ebvL19 : list Q;
  ebvBovy : list Q
}.

(** [__init__]: the arguments the callers pass, the others at their
    defaults. *)
Definition init (l b distMaxPc distMinPc distStepPc : Q) (distances : list Q)
    (Rv distMaxCoarsePc : Q) (nDistBins : Z) : t :=
  {| l := l; b := b;
     distMaxPc := distMaxPc; distMinPc := distMinPc; distStepPc := distStepPc;
     distMaxCoarsePc := distMaxCoarsePc;
     distStepCoarsePc := None;
     nDistBins := nDistBins;
     Rv := Rv;
     distsPc := distances;
     distLimPc := 1000000000;
     ebvL19 := [];
     ebvBovy := [] |}.

Definition default_distMaxCoarsePc : Q := 15000.
Definition default_nDistBins : Z := 400.

Section Methods.
Context `{External} (cube : stilism_local.Cube).

(** The coarse bin count (lines 125-137): what is left of the total
    after the fine bins, or 10 when nothing is left. *)
Definition nBinsFar_of (nDistBins : Z) (distsClose : list Q) : Z :=
  let nBinsFar := (nDistBins - Z.of_nat (length distsClose))%Z in
  if (nBinsFar <? 0)%Z then 10%Z else nBinsFar.

(** Lines 101-122: the limit of the fine bins and the fine bins. *)
Definition distsClose_of (self : t) : res (Q * list Q) :=
  let* distsFine :=
    stilism_local.generate_distances (distMaxPc self) (distMinPc self)
                                     (distStepPc self) in
  let* (distMax, _, _) :=
    stilism_local.find_max_distance cube (l self) (b self) distsFine in
  let distLimPc' := distMax + 5 * distStepPc self in
  let* distsClose :=
    stilism_local.generate_distances distLimPc' (distMinPc self)
                                     (distStepPc self) in
  Ok (distLimPc', distsClose).

Definition generateDistances (self : t) (Verbose : bool) : res t :=
  let* (distLimPc', distsClose) := distsClose_of self in
  let nBinsFar := nBinsFar_of (nDistBins self) distsClose in
  let* maxClose := np.max distsClose in
  let* distsFar := np.linspace_open maxClose (distMaxCoarsePc self) nBinsFar in
  let* far1 := np.getitem distsFar 1 in
  let* far0 := np.getitem distsFar 0 in
  let stepCoarse := far1 - far0 in
  let distsFar := map (fun d => d + stepCoarse) distsFar in
  let distsPc' := distsClose ++ distsFar in
  let* dmin := np.min distsPc' in
  let* dmax := np.max distsPc' in
  let* _ :=
    (if Verbose then
       let* c1 := np.getitem distsClose 1 in
       let* c0 := np.getitem distsClose 0 in
       let* f1 := np.getitem distsFar 1 in
       let* f0 := np.getitem distsFar 0 in
       Ok tt
     else Ok tt) in
  Ok {| l := l self; b := b self;
        distMaxPc := dmax;
        distMinPc := dmin;
        distStepPc := (dmax - dmin) / inject_Z (Z.of_nat (length distsPc'));
        distMaxCoarsePc := distMaxCoarsePc self;
        distStepCoarsePc := Some stepCoarse;
        nDistBins := nDistBins self;
        Rv := Rv self;
        distsPc := distsPc';
        distLimPc := distLimPc';
        ebvL19 := ebvL19 self;
        ebvBovy := ebvBovy self |}.

Definition getLallementEBV (self : t) : res t :=
  let* (l19, dists, distLim) :=
    LallementDustMap_get_ebv (Rv self) (l self) (b self)
      (distMaxPc self) (distMinPc self) (distStepPc self) (distsPc self) in
  let fresh := (length (distsPc self) <? 1)%nat in
  Ok {| l := l self; b := b self;
        distMaxPc := distMaxPc self;
        distMinPc := distMinPc self;
        distStepPc := distStepPc self;
        distMaxCoarsePc := distMaxCoarsePc self;
        distStepCoarsePc := distStepCoarsePc self;
        nDistBins := nDistBins self;
        Rv := Rv self;
        distsPc := if fresh then dists else distsPc self;
        distLimPc := if fresh then distLim else distLimPc self;
        ebvL19 := l19;
        ebvBovy := ebvBovy self |}.

(** The combined map at every distance (in kpc), negative values
    raised to zero. *)
Definition getBovyEBV (self : t) : t :=
  let raw := map (fun d => Combined19 (l self) (b self) (d / 1000)) (distsPc self) in
  {| l := l self; b := b self;
     distMaxPc := distMaxPc self;
     distMinPc := distMinPc self;
     distStepPc := distStepPc self;
     distMaxCoarsePc := distMaxCoarsePc self;
     distStepCoarsePc := distStepCoarsePc self;
     nDistBins := nDistBins self;
     Rv := Rv self;
     distsPc := distsPc self;
     distLimPc := distLimPc self;
     ebvL19 := ebvL19 self;
     ebvBovy := map (fun e => if Qltb e 0 then 0 else e) raw |}.

End Methods.

End lineofsight.

(** ** [compareExtinctions.py]: [hybridSightline] *)

Module hs.

(** The keyword arguments of [hybridSightline]. *)
Record kwargs : Type := {
  lCen : Q;
  bCen : Q;
  nl : Z;
  nb : Z;
  maxPc : Q;
  minPc : Q;
  stepPc : Q;
  nside : Z;
  pixFillFac : Q;
  collisionArcmin : Q;
  pctUpper : Q;
  pctLower : Q;
  Rv : Q;
  distFrac : Q;
  diffRatioMin : Q;
  setLimDynamically : bool;
  minEBV : Q;
  minDistL19 : Q;
  returnValues : bool;
  tellTime : bool;
  doPlots : bool;
  figName : string;
  useTwoBinnings : bool;
  nBinsAllSightlines : Z;
  distancesPc : list Q;
  hpid : Z;
  nested : bool
}.

Definition defaults : kwargs :=
  {| lCen := 0; bCen := 4; nl := 5; nb := 5;
     maxPc := 9000; minPc := 1 # 2; stepPc := 25;
     nside := 64;
     pixFillFac := 1; collisionArcmin := 2;
     pctUpper := 75; pctLower := 25;
     Rv := 31 # 10;
     distFrac := 1; diffRatioMin := 1 # 2;
     setLimDynamically := true;
     minEBV := 1 # 1000;
     minDistL19 := 1000;
     returnValues := false;
     tellTime := true;
     doPlots := true;
     figName := "";
     useTwoBinnings := true;
     nBinsAllSightlines := 500;
     distancesPc := [];
     hpid := (-1)%Z;
     nested := false |}.

End hs.

Section HybridSightline.
Context `{External} (cube : stilism_local.Cube).

(** Lines 439-486: the field centre in both frames, the offset samples
    in galactic coordinates, and the flags of the samples to keep. *)
Definition sampleGrid (a : hs.kwargs)
  : res (Q * Q * list Q * list Q * list bool) :=
  let pixSideDeg := hp_nside2resol_arcmin (hs.nside a) / 60 in
  let pixEdge := np.Qminb (hs.pixFillFac a) 1 in
  let* tl := np.linspace_closed (-1) 1 (hs.nl a) in
  let* tb := np.linspace_closed (-1) 1 (hs.nb a) in
  let dL := map (fun t => pixSideDeg * pixEdge * t) tl in
  let dB := map (fun t => pixSideDeg * pixEdge * t) tb in
  let ll := flat_map (fun _ : Q => dL) dB in
  let bb := flat_map (fun d : Q => map (fun _ : Q => d) dL) dB in
  let '(raCen, deCen, lCen, bCen) :=
    if (hs.hpid a <? 0)%Z then
      let '(ra, de) := galactic_to_icrs (hs.lCen a, hs.bCen a) in
      (ra, de, hs.lCen a, hs.bCen a)
    else
      let '(ra, de) := hp_pix2ang (hs.nside a) (hs.hpid a) (hs.nested a) in
      let '(lc, bc) := icrs_to_galactic (ra, de) in
      (ra, de, lc, bc) in
  let vRA := map (fun d => d + raCen) ll in
  let vDE := map (fun d => d + deCen) bb in
  let bSampl := map (fun de => Qleb (-90) de && Qleb de 90) vDE in
  let vRA := np.select bSampl vRA in
  let vDE := np.select bSampl vDE in
  let gal := map icrs_to_galactic (zip vRA vDE) in
  let vL := map (fun lb : Q * Q => if Qltb 180 lb.1 then lb.1 - 360 else lb.1) gal in
  let vB := map (fun lb : Q * Q => lb.2) gal in
  let offsets :=
    zip_with (fun vl vb => (vl - lCen) ^ 2 + (vb - bCen) ^ 2) vL vB in
  let bSamplesKeep :=
    zip_with (fun off vb =>
                Qltb (hs.collisionArcmin a ^ 2) (off * 3600)
                && Qleb (-90) vb && Qleb vb 90)
             offsets vB in
  Ok (lCen, bCen, vL, vB, bSamplesKeep).

(** Lines 581-600: the distance at which the two models are compared. *)
Definition distCompare_of (a : hs.kwargs) (distLimPc : Q)
    (distsMed ebvL19Med ebvBovyMed : list Q) : res Q :=
  let distCompare := distLimPc * hs.distFrac a in
  if hs.setLimDynamically a then
    let* _ := np.same_shape distsMed ebvL19Med in
    let* _ := np.same_shape ebvL19Med ebvBovyMed in
    let bNear :=
      zip_with (fun (d : Q) (lb : Q * Q) =>
                  Qleb d distLimPc && Qltb 0 lb.1 && Qltb 0 lb.2
                  && Qltb (Qabs (lb.2 / lb.1 - 1)) (hs.diffRatioMin a))
               distsMed (zip ebvL19Med ebvBovyMed) in
    if (0 <? np.count bNear)%nat then
      let* distMinCalc := np.max (np.select bNear distsMed) in
      Ok (if Qltb (hs.minDistL19 a) distMinCalc then distMinCalc else distCompare)
    else Ok distCompare
  else Ok distCompare.

(** Line 609: the bin nearest the comparison distance. *)
Definition iMaxL19_of (distsMed : list Q) (distCompare : Q) : res nat :=
  np.argmin (map (fun d => Qabs (d - distCompare)) distsMed).

(** Lines 607-611: the scale factor. *)
Definition rvFactor_of (minEBV : Q) (iMaxL19 : nat)
    (ebvL19Med ebvBovyMed : list Q) : res Q :=
  let* bovy := np.getitem ebvBovyMed iMaxL19 in
  if Qltb minEBV bovy then
    let* l19 := np.getitem ebvL19Med iMaxL19 in
    Ok (l19 / bovy)
  else Ok 1.

(** Lines 621-634: the merged curve. *)
Definition ebvHybrid_of (minEBV distCompare rvFactor : Q)
    (distsMed ebvL19Med ebvBovyMed : list Q) : res (list Q) :=
  let ebvHybrid := ebvBovyMed in
  let b19 := map (fun d => Qltb d distCompare) distsMed in
  let ebvL19scaled := map (fun e => e / rvFactor) ebvL19Med in
  let* ebvHybrid := np.putmask ebvHybrid b19 ebvL19scaled in
  let bBovBad := map (fun e => Qltb e minEBV) ebvHybrid in
  np.putmask ebvHybrid bBovBad ebvL19scaled.

(** One sample sight line of the loop at lines 547-567, stacked under
    the rows gathered so far. *)
Definition addSample (a : hs.kwargs) (losCen : lineofsight.t)
    (stacks : list (list Q) * list (list Q) * list (list Q)) (lb : Q * Q)
  : res (list (list Q) * list (list Q) * list (list Q)) :=
  let '(stackDist, stackL19, stackBovy) := stacks in
  let distsInput :=
    if hs.useTwoBinnings a then lineofsight.distsPc losCen
    else hs.distancesPc a in
  let losThis :=
    lineofsight.init lb.1 lb.2 (hs.maxPc a) (hs.minPc a) (hs.stepPc a)
      distsInput (hs.Rv a) lineofsight.default_distMaxCoarsePc
      lineofsight.default_nDistBins in
  let* losThis := lineofsight.getLallementEBV losThis in
  let losThis := lineofsight.getBovyEBV losThis in
  let* stackDist := np.vstack stackDist (lineofsight.distsPc losThis) in
  let* stackL19 := np.vstack stackL19 (lineofsight.ebvL19 losThis) in
  let* stackBovy := np.vstack stackBovy (lineofsight.ebvBovy losThis) in
  Ok (stackDist, stackL19, stackBovy).

Fixpoint addSamples (a : hs.kwargs) (losCen : lineofsight.t)
    (stacks : list (list Q) * list (list Q) * list (list Q))
    (samples : list (Q * Q))
  : res (list (list Q) * list (list Q) * list (list Q)) :=
  match samples with
  | [] => Ok stacks
  | lb :: rest =>
      let* stacks := addSample a losCen stacks lb in
      addSamples a losCen stacks rest
  end.

(** Lines 439-573: [None] when no sample is kept (line 490), else the
    distance limit of the central sight line and the medians, over the
    central sight line and the kept samples, of the distances and of
    the two extinction curves. *)
Definition sightlineMedians (a : hs.kwargs)
  : res (option (Q * list Q * list Q * list Q)) :=
  let* (lCen, bCen, vL, vB, bSamplesKeep) := sampleGrid a in
  if (np.count bSamplesKeep <? 1)%nat then Ok None
  else
    let vL := np.select bSamplesKeep vL in
    let vB := np.select bSamplesKeep vB in
    let losCen :=
      lineofsight.init lCen bCen (hs.maxPc a) (hs.minPc a) (hs.stepPc a)
        (hs.distancesPc a) (hs.Rv a) lineofsight.default_distMaxCoarsePc
        (hs.nBinsAllSightlines a) in
    let* losCen :=
      (if hs.useTwoBinnings a && (length (hs.distancesPc a) <? 1)%nat
       then lineofsight.generateDistances cube losCen (hs.tellTime a)
       else Ok losCen) in
    let* losCen := lineofsight.getLallementEBV losCen in
    let losCen := lineofsight.getBovyEBV losCen in
    let* (stackDist, stackL19, stackBovy) :=
      addSamples a losCen
        ([lineofsight.distsPc losCen], [lineofsight.ebvL19 losCen],
         [lineofsight.ebvBovy losCen])
        (zip vL vB) in
    let distsMed := np.median_axis0 stackDist in
    let ebvL19Med := np.median_axis0 stackL19 in
    let ebvBovyMed := np.median_axis0 stackBovy in
    Ok (Some (lineofsight.distLimPc losCen, distsMed, ebvL19Med, ebvBovyMed)).

(** Lines 581-634: the comparison distance, the scale factor and the
    merged curve, from the medians. *)
Definition mergeCurves (a : hs.kwargs) (distLimPc : Q)
    (distsMed ebvL19Med ebvBovyMed : list Q) : res (list Q * Q) :=
  let* distCompare :=
    distCompare_of a distLimPc distsMed ebvL19Med ebvBovyMed in
  let* iMaxL19 := iMaxL19_of distsMed distCompare in
  let* rvFactor := rvFactor_of (hs.minEBV a) iMaxL19 ebvL19Med ebvBovyMed in
  let* ebvHybrid :=
    ebvHybrid_of (hs.minEBV a) distCompare rvFactor
                 distsMed ebvL19Med ebvBovyMed in
  Ok (ebvHybrid, rvFactor).

(** Everything [hybridSightline] computes before it returns: the merged
    curve, the median distances and the scale factor used in the
    merge. *)
Definition hybridCurve (a : hs.kwargs) : res (option (list Q * list Q * Q)) :=
  let* r := sightlineMedians a in
  match r with
  | None => Ok None
  | Some (distLimPc, distsMed, ebvL19Med, ebvBovyMed) =>
      let* (ebvHybrid, rvFactor) :=
        mergeCurves a distLimPc distsMed ebvL19Med ebvBovyMed in
      Ok (Some (ebvHybrid, distsMed, rvFactor))
  end.

(** The function itself: what it hands back (lines 646-650 and 747-748).
    The drawing between the two returns has no part in the values. *)
Definition hybridSightline (a : hs.kwargs) : res (option (list Q * list Q * Q)) :=
  let* r := hybridCurve a in
  match r with
  | None => Ok None
  | Some (ebvHybrid, distsMed, rvFactor) =>
      if negb (hs.doPlots a) then
        if hs.returnValues a then Ok (Some (ebvHybrid, distsMed, 1))
        else Ok None
      else
        if hs.returnValues a then Ok (Some (ebvHybrid, distsMed, rvFactor))
        else Ok None
  end.

End HybridSightline.

(** ** FITS files, as far as the scripts read and write them *)

Module fits.

Inductive card : Type :=
  | CInt (n : Z)
  | CBool (b : bool)
  | CFloat (q : Q).

Inductive ndarray : Type :=
  | A1 (v : list Q)
  | A2 (m : list (list Q)).

(** [np.size] *)
Definition size (a : ndarray) : nat :=
  match a with
  | A1 v => length v
  | A2 m => length (concat m)
  end.

(** A list of HDUs: the primary one carries the header and the pixel
    ids, the image HDUs that follow carry one array each. *)
Record HDUList : Type := {
  header : gmap string card;
  data0 : list Z;
  images : list ndarray
}.

(** [len(hdul)] *)
Definition len (h : HDUList) : nat := S (length (images h)).

(** [hdul[k].data] for [k >= 1] *)
Definition data (h : HDUList) (k : nat) : res ndarray :=
  np.getitem (images h) (k - 1).

End fits.

(** The file system: the FITS files by path. *)
Abbreviation disk := (gmap string fits.HDUList).

(** What a caller can put in an argument slot of [writeExtmap]. *)
Inductive pyobj : Type :=
  | PyArray (a : fits.ndarray)
  | PyDict (d : list (string * fits.card))
  | PyStr (s : string)
  | PyNone.

(** Upper case, the spelling of a header keyword. *)
Definition upper_ascii (c : ascii) : ascii :=
  let n := nat_of_ascii c in
  if (97 <=? n)%nat && (n <=? 122)%nat then ascii_of_nat (n - 32) else c.

Fixpoint upper (s : string) : string :=
  match s with
  | EmptyString => EmptyString
  | String c s' => String (upper_ascii c) (upper s')
  end.

(** What astropy does to the header of a primary HDU is not in this
    repository, hence a parameter: the keywords it derives from the data
    and writes over those of the template, the spelling under which it
    stores a keyword, and the keywords it refuses. *)
Class Astropy : Type := {
  (** the header of [fits.PrimaryHDU(data, header=header)]; no template
      is the empty header *)
  fits_PrimaryHDU_header : list Z -> gmap string fits.card -> gmap string fits.card;
  (** [header[key] = value] *)
  fits_header_setitem :
    gmap string fits.card -> string -> fits.card -> res (gmap string fits.card)
}.

(** Lines 897-898: [for sKey in dMeta.keys(): hdu0.header[sKey] = dMeta[sKey]] *)
Fixpoint setKeys `{Astropy} (hdr : gmap string fits.card)
    (dMeta : list (string * fits.card)) : res (gmap string fits.card) :=
  match dMeta with
  | [] => Ok hdr
  | kv :: rest =>
      let* hdr := fits_header_setitem hdr kv.1 kv.2 in
      setKeys hdr rest
  end.

Definition writeExtmap `{Astropy} (hpids : list Z) (dists ebvs sfacs : fits.ndarray)
    (masks dMeta : pyobj) (header : gmap string fits.card) (fitsPath : string)
    (fs : disk) : res disk :=
  if (length hpids <? 1)%nat then Ok fs
  else
    let hdu0 := fits_PrimaryHDU_header hpids header in
    let* hdr :=
      match dMeta with
      | PyDict d => setKeys hdu0 d
      | _ => Raise AttributeError
      end in
    let* masks :=
      match masks with
      | PyArray m => Ok m
      | _ => Raise TypeError
      end in
    Ok (<[fitsPath :=
            {| fits.header := hdr; fits.data0 := hpids;
               fits.images := [dists; ebvs; sfacs; masks] |}]> fs).

(** ** Index arithmetic shared by the batch loop and the merge *)

(** A Python index into an array of [n] rows: negative ones count from
    the end. *)
Definition py_index (n : nat) (i : Z) : res nat :=
  if (0 <=? i)%Z && (i <? Z.of_nat n)%Z then Ok (Z.to_nat i)
  else if (- Z.of_nat n <=? i)%Z && (i <? 0)%Z then Ok (Z.to_nat (Z.of_nat n + i))
  else Raise IndexError.

Fixpoint py_indices (n : nat) (rows : list Z) : res (list nat) :=
  match rows with
  | [] => Ok []
  | i :: rows' =>
      let* k := py_index n i in
      let* ks := py_indices n rows' in
      Ok (k :: ks)
  end.

(** [np.zeros((nrows, ncols))] and friends; a negative dimension is
    refused. *)
Definition full2 (v : Q) (nrows ncols : Z) : res (list (list Q)) :=
  if (nrows <? 0)%Z || (ncols <? 0)%Z then Raise ValueError
  else Ok (replicate (Z.to_nat nrows) (replicate (Z.to_nat ncols) v)).

Definition full1 (v : Q) (n : Z) : res (list Q) :=
  if (n <? 0)%Z then Raise ValueError else Ok (replicate (Z.to_nat n) v).

(** [arr[i] = row] on a two-dimensional array of [ncols] columns. *)
Definition setrow (arr : list (list Q)) (ncols : nat) (i : nat) (row : list Q)
  : res (list (list Q)) :=
  if (length arr <=? i)%nat then Raise IndexError
  else if (length row =? ncols)%nat then Ok (<[i := row]> arr)
  else match row with
       | [x] => Ok (<[i := replicate ncols x]> arr)
       | _ => Raise ValueError
       end.

(** [arr[rows] = data], row by row in the order of [rows]. *)
Fixpoint assign {A : Type} (arr : list A) (idx : list nat) (data : list A) : list A :=
  match idx, data with
  | i :: idx', d :: data' => assign (<[i := d]> arr) idx' data'
  | _, _ => arr
  end.

(** [arr[rows] = data] for a two-dimensional [data] of the shape
    [(len(rows), ncols)]; other shapes are refused (a [data] that numpy
    would stretch over the rows is not modelled). *)
Definition setrows (arr : list (list Q)) (ncols : nat) (rows : list Z)
    (data : fits.ndarray) : res (list (list Q)) :=
  let* idx := py_indices (length arr) rows in
  match data with
  | fits.A2 m =>
      if (length m =? length rows)%nat
         && forallb (fun r => (length r =? ncols)%nat) m
      then Ok (assign arr idx m)
      else Raise ValueError
  | fits.A1 _ => Raise ValueError
  end.

Definition setitems (arr : list Q) (rows : list Z) (data : fits.ndarray)
  : res (list Q) :=
  let* idx := py_indices (length arr) rows in
  match data with
  | fits.A1 v =>
      if (length v =? length rows)%nat then Ok (assign arr idx v)
      else Raise ValueError
  | fits.A2 _ => Raise ValueError
  end.

(** [arr[rows, :] = v] *)
Definition fillrows (arr : list (list Q)) (ncols : nat) (rows : list Z) (v : Q)
  : res (list (list Q)) :=
  let* idx := py_indices (length arr) rows in
  Ok (assign arr idx (replicate (length idx) (replicate ncols v))).

(** ** [compareExtinctions.py]: [loopSightlines] *)

Section LoopSightlines.
Context `{External} `{Astropy} (cube : stilism_local.Cube).

(** The arrays the loop fills in. *)
Record chunk : Type := {
  c_dists : list (list Q);
  c_ebvs : list (list Q);
  c_sfacs : list Q
}.

(** The keywords of the call at lines 840-854. *)
Definition loopArgs (nside nbins : Z) (nested : bool) (nl nb : Z)
    (tellTime : bool) (fracPix : Q) (hpid : Z) : hs.kwargs :=
  {| hs.lCen := 0; hs.bCen := 0; hs.nl := nl; hs.nb := nb;
     hs.maxPc := hs.maxPc hs.defaults;
     hs.minPc := hs.minPc hs.defaults;
     hs.stepPc := hs.stepPc hs.defaults;
     hs.nside := nside;
     hs.pixFillFac := fracPix;
     hs.collisionArcmin := hs.collisionArcmin hs.defaults;
     hs.pctUpper := hs.pctUpper hs.defaults;
     hs.pctLower := hs.pctLower hs.defaults;
     hs.Rv := 31 # 10;
     hs.distFrac := hs.distFrac hs.defaults;
     hs.diffRatioMin := hs.diffRatioMin hs.defaults;
     hs.setLimDynamically := false;
     hs.minEBV := hs.minEBV hs.defaults;
     hs.minDistL19 := hs.minDistL19 hs.defaults;
     hs.returnValues := true;
     hs.tellTime := tellTime;
     hs.doPlots := false;
     hs.figName := hs.figName hs.defaults;
     hs.useTwoBinnings := true;
     hs.nBinsAllSightlines := nbins;
     hs.distancesPc := hs.distancesPc hs.defaults;
     hs.hpid := hpid;
     hs.nested := nested |}.

(** [a, b, c = value]: a value that is [None] cannot be unpacked. *)
Definition unpack3 {A : Type} (r : option A) : res A :=
  match r with
  | Some v => Ok v
  | None => Raise TypeError
  end.

(** One turn of the loop at lines 839-870, on the arrays and the disk;
    the disk is handed back also when the turn raises. *)
Definition loopBody (nside nbins : Z) (nested : bool) (nl nb : Z)
    (tellTime : bool) (reportInterval : Z) (fitsPath : string) (fracPix : Q)
    (dMeta : list (string * fits.card)) (hpids : list Z)
    (iHP : nat) (st : chunk) (fs : disk) : disk * res chunk :=
  let upto_write : res (chunk * bool) :=
    let* hpid := np.getitem hpids iHP in
    let* r := hybridSightline cube
                (loopArgs nside nbins nested nl nb tellTime fracPix hpid) in
    let* (ebvsThis, distsThis, rvFactor) := unpack3 r in
    let* dists := setrow (c_dists st) (Z.to_nat nbins) iHP distsThis in
    let* ebvs := setrow (c_ebvs st) (Z.to_nat nbins) iHP ebvsThis in
    let* _ := np.getitem (c_sfacs st) iHP in
    let sfacs := <[iHP := rvFactor]> (c_sfacs st) in
    let st' := {| c_dists := dists; c_ebvs := ebvs; c_sfacs := sfacs |} in
    if (reportInterval <=? Z.of_nat iHP)%Z then
      if (reportInterval =? 0)%Z then Raise ZeroDivisionError
      else Ok (st', (Z.of_nat iHP mod reportInterval <? 1)%Z)
    else Ok (st', false) in
  match upto_write with
  | Raise e => (fs, Raise e)
  | Ok (st', false) => (fs, Ok st')
  | Ok (st', true) =>
      match writeExtmap hpids (fits.A2 (c_dists st')) (fits.A2 (c_ebvs st'))
              (fits.A1 (c_sfacs st')) (PyArray (fits.A1 [])) (PyDict dMeta)
              ∅ fitsPath fs with
      | Ok fs' => (fs', Ok st')
      | Raise e => (fs, Raise e)
      end
  end.

Fixpoint loopFrom (body : nat -> chunk -> disk -> disk * res chunk)
    (turns : list nat) (st : chunk) (fs : disk) : disk * res chunk :=
  match turns with
  | [] => (fs, Ok st)
  | iHP :: rest =>
      match body iHP st fs with
      | (fs', Ok st') => loopFrom body rest st' fs'
      | (fs', Raise e) => (fs', Raise e)
      end
  end.

(** Lines 801-808: the path of the output file. *)
Definition chunkPath (nside imin imax : Z) (fitsPath dirChunks : string) : string :=
  if (String.length fitsPath <? 4)%nat then
    let fitsChunk :=
      ("ebv3d_nside" +:+ pretty nside +:+ "_hp" +:+ pretty imin
         +:+ "_" +:+ pretty imax +:+ ".fits")%string in
    if (3 <? String.length dirChunks)%nat
    then (dirChunks +:+ "/" +:+ fitsChunk)%string
    else fitsChunk
  else fitsPath.

Definition loopSightlines (nside imin imax nbins : Z) (nested : bool)
    (nl nb : Z) (tellTime : bool) (reportInterval : Z)
    (fitsPath dirChunks : string) (fracPix : Q) (fs : disk) : disk * res unit :=
  let npix := hp_nside2npix nside in
  let imax := if (imax <? 0)%Z || (npix <? imax)%Z then npix else imax in
  let imin := if (imax <? imin)%Z then Z.max (imax - 25) 0 else imin in
  let nSightlines := (imax - imin)%Z in
  let fitsPath := chunkPath nside imin imax fitsPath dirChunks in
  let hpids := map (fun k : nat => (imin + Z.of_nat k)%Z)
                   (seq 0 (Z.to_nat nSightlines)) in
  let arrays : res chunk :=
    let* dists := full2 0 nSightlines nbins in
    let* ebvs := full2 0 nSightlines nbins in
    let* sfacs := full1 1 nSightlines in
    Ok {| c_dists := dists; c_ebvs := ebvs; c_sfacs := sfacs |} in
  let dMeta :=
    [("nside", fits.CInt nside); ("nested", fits.CBool nested);
     ("hpmin", fits.CInt imin); ("hpmax", fits.CInt imax);
     ("nbins", fits.CInt nbins); ("nl", fits.CInt nl); ("nb", fits.CInt nb);
     ("fracPix", fits.CFloat fracPix)] in
  match arrays with
  | Raise e => (fs, Raise e)
  | Ok st =>
      match loopFrom (loopBody nside nbins nested nl nb tellTime reportInterval
                               fitsPath fracPix dMeta hpids)
                     (seq 0 (length hpids)) st fs with
      | (fs', Raise e) => (fs', Raise e)
      | (fs', Ok st') =>
          (* the last call passes [dMeta] and [fitsPath] by position,
             into the slots of [masks] and [dMeta] *)
          match writeExtmap hpids (fits.A2 (c_dists st')) (fits.A2 (c_ebvs st'))
                  (fits.A1 (c_sfacs st')) (PyDict dMeta) (PyStr fitsPath)
                  ∅ "test.fits" fs' with
          | Ok fs'' => (fs'', Ok tt)
          | Raise e => (fs', Raise e)
          end
      end
  end.

End LoopSightlines.

(** ** [compareExtinctions.py]: [mergeMaps] *)

Section MergeMaps.
Context `{External} `{Astropy}.

(** The master arrays of the all-sky map. *)
Record master : Type := {
  distsMaster : list (list Q);
  ebvsMaster : list (list Q);
  sfacsMaster : list Q;
  maskMaster : list (list Q)
}.

(** Lines 978-985: the mask rows of one file. *)
Definition slotMask (nbins : nat) (mask : list (list Q)) (hdul : fits.HDUList)
  : res (list (list Q)) :=
  let rowsThis := fits.data0 hdul in
  let* (mask, hasMask) :=
    (if (4 <? fits.len hdul)%nat then
       let* d4 := fits.data hdul 4 in
       if (0 <? fits.size d4)%nat then
         let* mask := setrows mask nbins rowsThis d4 in
         Ok (mask, true)
       else Ok (mask, false)
     else Ok (mask, false)) in
  if negb hasMask then fillrows mask nbins rowsThis 0
  else Ok mask.

(** Lines 967-985: one file slotted into the master arrays. *)
Definition slotFile (nbins : nat) (m : master) (hdul : fits.HDUList) : res master :=
  let rowsThis := fits.data0 hdul in
  let* d1 := fits.data hdul 1 in
  let* dists := setrows (distsMaster m) nbins rowsThis d1 in
  let* d2 := fits.data hdul 2 in
  let* ebvs := setrows (ebvsMaster m) nbins rowsThis d2 in
  let* d3 := fits.data hdul 3 in
  let* sfacs := setitems (sfacsMaster m) rowsThis d3 in
  let* mask := slotMask nbins (maskMaster m) hdul in
  Ok {| distsMaster := dists; ebvsMaster := ebvs;
        sfacsMaster := sfacs; maskMaster := mask |}.

Fixpoint slotFiles (nbins : nat) (m : master) (hduls : list fits.HDUList)
  : res master :=
  match hduls with
  | [] => Ok m
  | hdul :: rest =>
      let* m := slotFile nbins m hdul in
      slotFiles nbins m rest
  end.

(** [fits.open(path)] for every path of the list. *)
Fixpoint openAll (fs : disk) (lPaths : list string) : res (list fits.HDUList) :=
  match lPaths with
  | [] => Ok []
  | path :: rest =>
      match fs !! path with
      | Some hdul =>
          let* hduls := openAll fs rest in
          Ok (hdul :: hduls)
      | None => Raise OSError
      end
  end.

(** [lPaths.remove(path)]: the first occurrence goes. *)
Fixpoint remove_first (path : string) (lPaths : list string) : list string :=
  match lPaths with
  | [] => []
  | p :: rest => if String.eqb p path then rest else p :: remove_first path rest
  end.

(** [os.path.split(path)[-1]]: what follows the last slash. *)
Fixpoint basename_aux (acc : string) (s : string) : string :=
  match s with
  | EmptyString => acc
  | String c s' =>
      if Ascii.eqb c "/"%char then basename_aux EmptyString s'
      else basename_aux (acc +:+ String c EmptyString) s'
  end.
Definition basename (s : string) : string := basename_aux EmptyString s.

(** The empty master arrays of lines 955-963. *)
Definition emptyMaster (npix nbins : Z) : res master :=
  let* dists := full2 0 npix nbins in
  let* ebvs := full2 0 npix nbins in
  let* sfacs := full1 0 npix in
  let* mask := full2 1 npix nbins in
  Ok {| distsMaster := dists; ebvsMaster := ebvs;
        sfacsMaster := sfacs; maskMaster := mask |}.

(** [mergeMaps], from the list of paths that [glob] found. *)
Definition mergeMaps (lPaths : list string) (pathJoined : string) (fs : disk)
  : res disk :=
  if (length lPaths <? 1)%nat then Ok fs
  else
    let pathJoined :=
      if (String.length pathJoined <? 4)%nat then "test_mergedmaps.fits"
      else pathJoined in
    let '(lPaths, pathJoined) :=
      if bool_decide (pathJoined ∈ lPaths)
      then (remove_first pathJoined lPaths, ("tmp_" +:+ basename pathJoined)%string)
      else (lPaths, pathJoined) in
    let* path0 := np.getitem lPaths 0 in
    let* hdr0 := match fs !! path0 with
                 | Some hdul => Ok (fits.header hdul)
                 | None => Raise OSError
                 end in
    match hdr0 !! "NESTED", hdr0 !! "NSIDE", hdr0 !! "NBINS" with
    | Some _, Some (fits.CInt nside), Some (fits.CInt nbins) =>
        let npix := hp_nside2npix nside in
        let* m := emptyMaster npix nbins in
        let* hduls := openAll fs lPaths in
        let* m := slotFiles (Z.to_nat nbins) m hduls in
        writeExtmap (map Z.of_nat (seq 0 (Z.to_nat npix)))
          (fits.A2 (distsMaster m)) (fits.A2 (ebvsMaster m))
          (fits.A1 (sfacsMaster m)) (PyArray (fits.A2 (maskMaster m)))
          (PyDict []) hdr0 pathJoined fs
    | Some _, Some _, Some _ => Raise TypeError
    | _, _, _ => Ok fs
    end.

End MergeMaps.

(** ** [readExtinction.py]: the class [ebv3d] *)

Module ebv3d.

Record t : Type := {
  pathMap : string;
  hpids : list Z;
  dists : list (list Q);
  ebvs : list (list Q);
  sfacs : list Q;
  mask : list (list Q);
  nside : Z;
  nested : bool;
  dmods : list (list Q);
  R_x : gmap string Q;
  Verbose : bool
}.

(** The extinction coefficients of the six filters (lines 65-66). *)
Definition R_x_table : gmap string Q :=
  <["u" := 480 # 100]> (<["g" := 367 # 100]> (<["r" := 270 # 100]>
  (<["i" := 206 # 100]> (<["z" := 159 # 100]> (<["y" := 131 # 100]> ∅))))).

Definition init (pathMap : string) (Verbose : bool) : t :=
  {| pathMap := pathMap;
     hpids := []; dists := []; ebvs := []; sfacs := []; mask := [];
     nside := 64; nested := false;
     dmods := [];
     R_x := R_x_table;
     Verbose := Verbose |}.

(** [self.R_x[key]] *)
Definition getkey (d : gmap string Q) (key : string) : res Q :=
  match d !! key with
  | Some v => Ok v
  | None => Raise KeyError
  end.

(** Two-dimensional arrays added element by element, row against row. *)
Fixpoint add_rows (a b : list (list Q)) : res (list (list Q)) :=
  match a, b with
  | [], [] => Ok []
  | r1 :: a', r2 :: b' =>
      let* r := np.zip_bcast Qplus r1 r2 in
      let* rest := add_rows a' b' in
      Ok (r :: rest)
  | _, _ => Raise ValueError
  end.

(** Lines 206-211. *)
Definition getDeltaMag (self : t) (sFilt : string) : res (list (list Q)) :=
  let sFilt := if negb (bool_decide (sFilt ∈ dom (R_x self))) then "r"%string
               else sFilt in
  let* Rx := getkey (R_x self) sFilt in
  add_rows (dmods self) (map (map (fun e => Rx * e)) (ebvs self)).

(** [np.argmin(arr, axis=1)]: the first least bin of every row; an array
    without rows (the empty one-dimensional array of a map that is not
    loaded has no second axis) and a row without bins are refused. *)
Fixpoint argmin_each (arr : list (list Q)) : res (list nat) :=
  match arr with
  | [] => Ok []
  | row :: arr' =>
      let* i := np.argmin row in
      let* rest := argmin_each arr' in
      Ok (i :: rest)
  end.

Definition argmin_axis1 (arr : list (list Q)) : res (list nat) :=
  match arr with
  | [] => Raise ValueError
  | _ => argmin_each arr
  end.

(** [np.take_along_axis(arr, iExpand, axis=-1).squeeze()]: of every row
    the value at that row's index (an array of one row against several
    indices is not stretched). *)
Fixpoint take_along_axis (arr : list (list Q)) (idx : list nat) : res (list Q) :=
  match arr, idx with
  | [], [] => Ok []
  | row :: arr', i :: idx' =>
      let* v := np.getitem row i in
      let* vs := take_along_axis arr' idx' in
      Ok (v :: vs)
  | _, _ => Raise ValueError
  end.

(** Lines 116-128. *)
Definition getMapNearestDist (self : t) (distPc : Q) : res (list Q * list Q) :=
  let* imin :=
    argmin_axis1 (map (map (fun d => Qabs (d - distPc))) (dists self)) in
  let* distsClosest := take_along_axis (dists self) imin in
  let* ebvsClosest := take_along_axis (ebvs self) imin in
  Ok (ebvsClosest, distsClosest).

(** Lines 224-251; [deltamag] is a scalar or a vector. *)
Definition getDistanceAtMag (self : t) (deltamag : Q + list Q) (sfilt : string)
  : res (option (list Q * list (list Q))) :=
  let npix := length (ebvs self) in
  let dmagVec :=
    match deltamag with
    | inl x => replicate npix x
    | inr v => v
    end in
  if negb (length dmagVec =? npix)%nat then Ok None
  else
    let* mMinusM := getDeltaMag self sfilt in
    let* iMin :=
      argmin_axis1
        (zip_with (fun row dm => map (fun x => Qabs (x - dm)) row)
                  mMinusM dmagVec) in
    let* distsClosest := take_along_axis (dists self) iMin in
    Ok (Some (distsClosest, mMinusM)).

End ebv3d.

(** ** A test double for the libraries

    Every sight line runs along the x axis of a small cube of constant
    density; pixels are one degree wide; the two frames coincide; the
    combined map answers the distance in kpc and the cube map twice
    that. *)

Module Toy.

#[export] Instance libs : External := {|
  math_cos := fun _ => 1;
  math_sin := fun _ => 0;
  math_radians := fun x => x;
  hp_nside2resol_arcmin := fun _ => 60;
  hp_nside2npix := fun n => (12 * n * n)%Z;
  hp_pix2ang := fun _ hpid _ => (inject_Z hpid, 0);
  galactic_to_icrs := fun p => p;
  icrs_to_galactic := fun p => p;
  Combined19 := fun _ _ d => d;
  LallementDustMap_get_ebv := fun _ _ _ _ _ _ ds =>
    Ok (map (fun d => 2 * (d / 1000)) ds, ds, 100)
|}.

(** Headers that take the template as it is and store every keyword in
    upper case. *)
#[export] Instance headers : Astropy := {|
  fits_PrimaryHDU_header := fun _ hdr => hdr;
  fits_header_setitem := fun hdr key value => Ok (<[upper key := value]> hdr)
|}.

Definition cube : stilism_local.Cube :=
  {| stilism_local.shape := (5, 5, 5)%nat;
     stilism_local.gridstep_values := (100, 100, 100);
     stilism_local.sun_position := (2, 2, 2);
     stilism_local.cube_datas := fun _ _ _ => 1 # 1000 |}.

(** One offset sample, three supplied distances, a fixed transition
    distance of 500 pc and a floor of 1/2. *)
Definition atFloor : hs.kwargs :=
  {| hs.lCen := 0; hs.bCen := 0; hs.nl := 1; hs.nb := 1;
     hs.maxPc := 9000; hs.minPc := 1 # 2; hs.stepPc := 25;
     hs.nside := 64;
     hs.pixFillFac := 1; hs.collisionArcmin := 2;
     hs.pctUpper := 75; hs.pctLower := 25;
     hs.Rv := 31 # 10;
     hs.distFrac := 1 # 2000000; hs.diffRatioMin := 1 # 2;
     hs.setLimDynamically := false;
     hs.minEBV := 1 # 2;
     hs.minDistL19 := 1000;
     hs.returnValues := true;
     hs.tellTime := false;
     hs.doPlots := false;
     hs.figName := "";
     hs.useTwoBinnings := true;
     hs.nBinsAllSightlines := 500;
     hs.distancesPc := [250; 500; 1000];
     hs.hpid := (-1)%Z;
     hs.nested := false |}.

(** The call that [loopSightlines] makes for pixel 0, with 20 bins and
    one offset sample. *)
Definition batchCall : hs.kwargs := loopArgs 1 20 false 1 1 false 1 0.

(** A central sight line of 100 pc in steps of 10 pc, for a total of
    [nDistBins] bins; the fine part takes 16 of them. *)
Definition los (nDistBins : Z) : lineofsight.t :=
  lineofsight.init 0 0 100 (1 # 2) 10 [] (31 # 10) 15000 nDistBins.

(** A sight line asked from 10 pc down to 0 pc in steps of -1 pc, for a
    total of 8 bins. *)
Definition downward : lineofsight.t :=
  lineofsight.init 0 0 0 10 (-1) [] (31 # 10) 15000 8.

(** A file of two pixels and two bins, as [loopSightlines] flushes it:
    written by [writeExtmap] without mask data. *)
Definition tilePath : string := "ebv3d_nside1_hp0_2.fits".

Definition tileMeta : list (string * fits.card) :=
  [("nside", fits.CInt 1); ("nested", fits.CBool false);
   ("hpmin", fits.CInt 0); ("hpmax", fits.CInt 2);
   ("nbins", fits.CInt 2); ("nl", fits.CInt 1); ("nb", fits.CInt 1);
   ("fracPix", fits.CFloat 1)].

Definition tileDisk : disk :=
  match writeExtmap [0%Z; 1%Z] (fits.A2 [[10; 20]; [10; 20]])
          (fits.A2 [[1; 2]; [3; 4]]) (fits.A1 [1; 1])
          (PyArray (fits.A1 [])) (PyDict tileMeta) ∅ tilePath ∅ with
  | Ok fs => fs
  | Raise _ => ∅
  end.

Definition tile : fits.HDUList :=
  {| fits.header :=
       fold_left (fun h kv => <[upper kv.1 := kv.2]> h) tileMeta ∅;
     fits.data0 := [0%Z; 1%Z];
     fits.images := [fits.A2 [[10; 20]; [10; 20]]; fits.A2 [[1; 2]; [3; 4]];
                     fits.A1 [1; 1]; fits.A1 []] |}.

End Toy.

(** * Properties *)

(** ** Generic facts about the array operations *)

Definition strictly_increasing (l : list Q) : Prop :=
  forall (i j : nat) (x y : Q),
    (i < j)%nat -> l !! i = Some x -> l !! j = Some y -> x < y.

Definition non_decreasing (l : list Q) : Prop :=
  forall (i j : nat) (x y : Q),
    (i <= j)%nat -> l !! i = Some x -> l !! j = Some y -> x <= y.

Lemma getitem_Ok {A : Type} (l : list A) (i : nat) (a : A) :
  np.getitem l i = Ok a <-> l !! i = Some a.
Proof.
  unfold np.getitem. destruct (l !! i); split; intros E; congruence.
Qed.

Lemma where3_lookup (mask : list bool) (src dst : list Q) (i : nat)
    (m : bool) (s d : Q) :
  mask !! i = Some m -> src !! i = Some s -> dst !! i = Some d ->
  np.where3 mask src dst !! i = Some (if m then s else d).
Proof.
  revert src dst i.
  induction mask as [|m0 mask IH]; intros [|s0 src] [|d0 dst] [|i];
    intros Hm Hs Hd; simplify_eq/=; [reflexivity | by apply IH].
Qed.

Lemma putmask_Ok (dst : list Q) (mask : list bool) (src out : list Q) :
  np.putmask dst mask src = Ok out ->
  length mask = length dst /\ length mask = length src
  /\ out = np.where3 mask src dst.
Proof.
  unfold np.putmask.
  destruct (length mask =? length dst)%nat eqn:E1; simpl; [|discriminate].
  destruct (length mask =? length src)%nat eqn:E2; simpl; [|discriminate].
  apply Nat.eqb_eq in E1, E2. intros [= <-]. auto.
Qed.

Lemma argmin_from_spec (l : list Q) (best : Q) (ibest i : nat) :
  exists v : Q,
    ((np.argmin_from best ibest i l = ibest /\ v = best)
     \/ (exists k : nat, np.argmin_from best ibest i l = (i + k)%nat
                         /\ l !! k = Some v))
    /\ v <= best
    /\ (forall y : Q, y ∈ l -> v <= y).
Proof.
  revert best ibest i.
  induction l as [|x l IH]; intros best ibest i; simpl.
  - exists best. split; [left; auto|]. split; [apply Qle_refl|].
    intros y Hy. inversion Hy.
  - destruct (Qltb x best) eqn:E.
    + apply Qltb_lt in E.
      destruct (IH x i (S i)) as (v & Hv & Hle & Hall).
      exists v. split; [|split].
      * right. destruct Hv as [[-> ->]|(k & -> & Hk)].
        -- exists 0%nat. split; [lia | reflexivity].
        -- exists (S k). split; [lia | exact Hk].
      * apply Qlt_le_weak. eapply Qle_lt_trans; eassumption.
      * intros y Hy. apply elem_of_cons in Hy as [->|Hy]; auto.
    + apply Qltb_ge in E.
      destruct (IH best ibest (S i)) as (v & Hv & Hle & Hall).
      exists v. split; [|split].
      * destruct Hv as [[-> ->]|(k & -> & Hk)].
        -- left. auto.
        -- right. exists (S k). split; [lia | exact Hk].
      * exact Hle.
      * intros y Hy. apply elem_of_cons in Hy as [->|Hy]; auto.
        eapply Qle_trans; eassumption.
Qed.

Lemma argmin_spec (l : list Q) (i : nat) :
  np.argmin l = Ok i ->
  exists v : Q, l !! i = Some v /\ (forall y : Q, y ∈ l -> v <= y).
Proof.
  destruct l as [|x l]; simpl; [discriminate|]. intros [= <-].
  destruct (argmin_from_spec l x 0 1) as (v & Hv & Hle & Hall).
  exists v. split.
  - destruct Hv as [[-> ->]|(k & -> & Hk)]; [reflexivity | exact Hk].
  - intros y Hy. apply elem_of_cons in Hy as [->|Hy]; auto.
Qed.

(** ** The merge of the two curves *)

Section MergeFacts.
Context `{External} (cube : stilism_local.Cube).

Lemma hybridCurve_inv (a : hs.kwargs) (e d : list Q) (rv : Q) :
  hybridCurve cube a = Ok (Some (e, d, rv)) ->
  exists (lim : Q) (L B : list Q),
    sightlineMedians cube a = Ok (Some (lim, d, L, B))
    /\ mergeCurves a lim d L B = Ok (e, rv).
Proof.
  unfold hybridCurve. intros E.
  apply bind_Ok_inv in E as ([[[[lim dM] L] B]|] & Em & E); [|discriminate].
  apply bind_Ok_inv in E as ([e' rv'] & Ec & E).
  injection E as <- <- <-. eauto.
Qed.

Lemma mergeCurves_inv (a : hs.kwargs) (lim : Q) (d L B e : list Q) (rv : Q) :
  mergeCurves a lim d L B = Ok (e, rv) ->
  exists (dc : Q) (i : nat),
    distCompare_of a lim d L B = Ok dc
    /\ iMaxL19_of d dc = Ok i
    /\ rvFactor_of (hs.minEBV a) i L B = Ok rv
    /\ ebvHybrid_of (hs.minEBV a) dc rv d L B = Ok e.
Proof.
  unfold mergeCurves. intros E.
  apply bind_Ok_inv in E as (dc & Edc & E).
  apply bind_Ok_inv in E as (i & Ei & E).
  apply bind_Ok_inv in E as (rv' & Erv & E).
  apply bind_Ok_inv in E as (e' & Ee & E).
  injection E as <- <-. eauto 10.
Qed.

(** The bin that [np.argmin] picks is a nearest one. *)
Lemma iMaxL19_nearest (d : list Q) (dc : Q) (i : nat) :
  iMaxL19_of d dc = Ok i ->
  exists di : Q,
    d !! i = Some di
    /\ (forall (j : nat) (dj : Q),
           d !! j = Some dj -> Qabs (di - dc) <= Qabs (dj - dc)).
Proof.
  unfold iMaxL19_of. intros E.
  apply argmin_spec in E as (v & Hv & Hall).
  rewrite list_lookup_fmap in Hv.
  destruct (d !! i) as [di|] eqn:Edi; [|discriminate].
  injection Hv as <-. exists di. split; [reflexivity|].
  intros j dj Hj. apply Hall.
  apply list_elem_of_lookup. exists j.
  rewrite list_lookup_fmap, Hj. reflexivity.
Qed.

Lemma rvFactor_of_cases (minEBV : Q) (i : nat) (L B : list Q) (rv : Q) :
  rvFactor_of minEBV i L B = Ok rv ->
  exists bov : Q,
    B !! i = Some bov
    /\ (bov <= minEBV -> rv = 1)
    /\ (minEBV < bov -> exists l19 : Q, L !! i = Some l19 /\ rv = l19 / bov).
Proof.
  unfold rvFactor_of. intros E.
  apply bind_Ok_inv in E as (bov & Eb & E).
  apply getitem_Ok in Eb. exists bov. split; [exact Eb|].
  destruct (Qltb minEBV bov) eqn:Elt.
  - apply Qltb_lt in Elt.
    apply bind_Ok_inv in E as (l19 & El & E).
    apply getitem_Ok in El. injection E as <-.
    split.
    + intros Hle. exfalso. apply (Qlt_not_le _ _ Elt Hle).
    + intros _. eauto.
  - apply Qltb_ge in Elt. injection E as <-.
    split; [reflexivity|].
    intros Hlt. exfalso. apply (Qlt_not_le _ _ Hlt Elt).
Qed.

(** Where the combined map exceeds the floor and the cube map is not
    zero, the rescaled median of the cube map meets the median of the
    combined map in the bin of the scale factor (in exact arithmetic). *)
Lemma rescaled_meets_combined (l19 bov : Q) :
  ~ l19 == 0 -> ~ bov == 0 -> l19 / (l19 / bov) == bov.
Proof. intros Hl Hb. field. split; assumption. Qed.

(** C5. The scale factor that [hybridSightline] computes: at the bin
    nearest the comparison distance, it is exactly 1 when the median of
    the combined map does not exceed [minEBV], and the median of the
    cube map divided by the median of the combined map when it does. *)
Theorem scale_factor_floor (a : hs.kwargs) (e d : list Q) (rv : Q) :
  hybridCurve cube a = Ok (Some (e, d, rv)) ->
  exists (lim : Q) (L B : list Q) (dc : Q) (i : nat) (di bov : Q),
    sightlineMedians cube a = Ok (Some (lim, d, L, B))
    /\ distCompare_of a lim d L B = Ok dc
    /\ d !! i = Some di
    /\ (forall (j : nat) (dj : Q),
           d !! j = Some dj -> Qabs (di - dc) <= Qabs (dj - dc))
    /\ B !! i = Some bov
    /\ (bov <= hs.minEBV a -> rv = 1)
    /\ (hs.minEBV a < bov ->
        exists l19 : Q, L !! i = Some l19 /\ rv = l19 / bov).
Proof.
  intros E.
  apply hybridCurve_inv in E as (lim & L & B & Em & E).
  apply mergeCurves_inv in E as (dc & i & Edc & Ei & Erv & _).
  apply iMaxL19_nearest in Ei as (di & Hdi & Hnear).
  apply rvFactor_of_cases in Erv as (bov & Hb & Hlo & Hhi).
  exists lim, L, B, dc, i, di, bov. auto 10.
Qed.

End MergeFacts.

Section HybridBins.
Context `{External} (cube : stilism_local.Cube).

Lemma ebvHybrid_of_lookup (minEBV dc rv : Q) (d L B e : list Q)
    (j : nat) (dj lj bj : Q) :
  ebvHybrid_of minEBV dc rv d L B = Ok e ->
  d !! j = Some dj -> L !! j = Some lj -> B !! j = Some bj ->
  e !! j = Some (if Qltb dj dc then lj / rv
                 else if Qltb bj minEBV then lj / rv else bj).
Proof.
  unfold ebvHybrid_of. intros E Hd HL HB.
  apply bind_Ok_inv in E as (h1 & E1 & E2).
  apply putmask_Ok in E1 as (_ & _ & ->).
  apply putmask_Ok in E2 as (_ & _ & ->).
  assert (Hs : map (fun x => x / rv) L !! j = Some (lj / rv))
    by (rewrite list_lookup_fmap, HL; reflexivity).
  assert (Hm : map (fun x => Qltb x dc) d !! j = Some (Qltb dj dc))
    by (rewrite list_lookup_fmap, Hd; reflexivity).
  pose proof (where3_lookup _ _ _ _ _ _ _ Hm Hs HB) as H1.
  erewrite where3_lookup; [| |exact Hs|exact H1].
  2:{ rewrite list_lookup_fmap, H1. reflexivity. }
  destruct (Qltb dj dc); [destruct (Qltb (lj / rv) minEBV)|]; reflexivity.
Qed.

(** C2, as the code has it. In the merged curve of [hybridSightline], a
    bin strictly before the comparison distance holds the median of the
    cube map divided by the scale factor; a bin at that distance or
    beyond it holds the same when the median of the combined map there
    is below [minEBV], and the median of the combined map itself
    otherwise. *)
Theorem hybrid_bins (a : hs.kwargs) (e d : list Q) (rv : Q) :
  hybridCurve cube a = Ok (Some (e, d, rv)) ->
  exists (lim : Q) (L B : list Q) (dc : Q),
    sightlineMedians cube a = Ok (Some (lim, d, L, B))
    /\ distCompare_of a lim d L B = Ok dc
    /\ forall (j : nat) (dj lj bj : Q),
         d !! j = Some dj -> L !! j = Some lj -> B !! j = Some bj ->
         (dj < dc -> e !! j = Some (lj / rv))
         /\ (dc <= dj -> bj < hs.minEBV a -> e !! j = Some (lj / rv))
         /\ (dc <= dj -> hs.minEBV a <= bj -> e !! j = Some bj).
Proof.
  intros E.
  apply hybridCurve_inv in E as (lim & L & B & Em & E).
  apply mergeCurves_inv in E as (dc & i & Edc & _ & _ & Ee).
  exists lim, L, B, dc. split; [exact Em|]. split; [exact Edc|].
  intros j dj lj bj Hd HL HB.
  rewrite (ebvHybrid_of_lookup _ _ _ _ _ _ _ _ _ _ _ Ee Hd HL HB).
  repeat split.
  - intros Hlt. apply Qltb_lt in Hlt. rewrite Hlt. reflexivity.
  - intros Hge Hlo. apply Qltb_ge in Hge. apply Qltb_lt in Hlo.
    rewrite Hge, Hlo. reflexivity.
  - intros Hge Hhi. apply Qltb_ge in Hge. apply Qltb_ge in Hhi.
    rewrite Hge, Hhi. reflexivity.
Qed.

(** C2 as the design document words it: every bin at or before the
    comparison distance holds the rescaled median of the cube map. *)
Definition rescaled_up_to_transition (a : hs.kwargs) : Prop :=
  forall (e d : list Q) (rv lim : Q) (L B : list Q) (dc : Q),
    hybridCurve cube a = Ok (Some (e, d, rv)) ->
    sightlineMedians cube a = Ok (Some (lim, d, L, B)) ->
    distCompare_of a lim d L B = Ok dc ->
    forall (j : nat) (dj lj ej : Q),
      d !! j = Some dj -> dj <= dc -> L !! j = Some lj ->
      e !! j = Some ej -> ej == lj / rv.

(** What [hybridSightline] hands back without plots has 1 in the third
    place, whatever the scale factor of the merge. *)
Lemma hybridSightline_noplot (a : hs.kwargs) (e d : list Q) (s : Q) :
  hs.doPlots a = false ->
  hybridSightline cube a = Ok (Some (e, d, s)) -> s = 1.
Proof.
  unfold hybridSightline. intros Hp E.
  apply bind_Ok_inv in E as ([[[e' d'] rv]|] & _ & E); [|discriminate].
  rewrite Hp in E. simpl in E.
  destruct (hs.returnValues a); [|discriminate].
  congruence.
Qed.

Lemma hybridSightline_plot (a : hs.kwargs) (e d : list Q) (s : Q) :
  hs.doPlots a = true ->
  hybridSightline cube a = Ok (Some (e, d, s)) ->
  hybridCurve cube a = Ok (Some (e, d, s)).
Proof.
  unfold hybridSightline. intros Hp E.
  apply bind_Ok_inv in E as ([[[e' d'] rv]|] & Ec & E); [|discriminate].
  rewrite Hp in E. simpl in E.
  destruct (hs.returnValues a); [|discriminate].
  congruence.
Qed.

End HybridBins.

(** ** The merge on the test double *)

#[local] Existing Instance Toy.libs.
#[local] Existing Instance Toy.headers.

Lemma atFloor_medians :
  sightlineMedians Toy.cube Toy.atFloor
  = Ok (Some (1000000000,
              [500 # 2; 1000 # 2; 2000 # 2],
              [1000000 # 2000000; 2000000 # 2000000; 4000000 # 2000000],
              [500000 # 2000000; 1000000 # 2000000; 2000000 # 2000000])).
Proof. vm_compute. reflexivity. Qed.

Lemma atFloor_curve :
  hybridCurve Toy.cube Toy.atFloor
  = Ok (Some ([1000000 # 2000000; 1000000 # 2000000; 2000000 # 2000000],
              [500 # 2; 1000 # 2; 2000 # 2], 1)).
Proof. vm_compute. reflexivity. Qed.

(** C5, on the test double: the combined map is at the floor in the bin
    of the comparison distance, and the scale factor is 1. *)
Lemma scale_factor_floor_witness :
  exists (lim : Q) (L B : list Q) (dc : Q) (i : nat) (di bov : Q),
    sightlineMedians Toy.cube Toy.atFloor
    = Ok (Some (lim, [500 # 2; 1000 # 2; 2000 # 2], L, B))
    /\ distCompare_of Toy.atFloor lim [500 # 2; 1000 # 2; 2000 # 2] L B = Ok dc
    /\ [500 # 2; 1000 # 2; 2000 # 2] !! i = Some di
    /\ (forall (j : nat) (dj : Q),
           [500 # 2; 1000 # 2; 2000 # 2] !! j = Some dj ->
           Qabs (di - dc) <= Qabs (dj - dc))
    /\ B !! i = Some bov
    /\ (bov <= hs.minEBV Toy.atFloor -> 1 = 1)
    /\ (hs.minEBV Toy.atFloor < bov ->
        exists l19 : Q, L !! i = Some l19 /\ 1 = l19 / bov).
Proof.
  apply (scale_factor_floor Toy.cube Toy.atFloor
           [1000000 # 2000000; 1000000 # 2000000; 2000000 # 2000000]).
  vm_compute. reflexivity.
Defined.

(** C2, on the test double. *)
Lemma hybrid_bins_witness :
  exists (lim : Q) (L B : list Q) (dc : Q),
    sightlineMedians Toy.cube Toy.atFloor
    = Ok (Some (lim, [500 # 2; 1000 # 2; 2000 # 2], L, B))
    /\ distCompare_of Toy.atFloor lim [500 # 2; 1000 # 2; 2000 # 2] L B = Ok dc
    /\ forall (j : nat) (dj lj bj : Q),
         [500 # 2; 1000 # 2; 2000 # 2] !! j = Some dj ->
         L !! j = Some lj -> B !! j = Some bj ->
         (dj < dc ->
          [1000000 # 2000000; 1000000 # 2000000; 2000000 # 2000000] !! j
          = Some (lj / 1))
         /\ (dc <= dj -> bj < hs.minEBV Toy.atFloor ->
             [1000000 # 2000000; 1000000 # 2000000; 2000000 # 2000000] !! j
             = Some (lj / 1))
         /\ (dc <= dj -> hs.minEBV Toy.atFloor <= bj ->
             [1000000 # 2000000; 1000000 # 2000000; 2000000 # 2000000] !! j
             = Some bj).
Proof.
  apply (hybrid_bins Toy.cube Toy.atFloor).
  vm_compute. reflexivity.
Defined.

(** C2 as worded fails on the test double: the bin at the comparison
    distance (500 pc) keeps the median of the combined map, 1/2, which is
    at the floor, while the median of the cube map there is 1 and the
    scale factor is 1. *)
Lemma transition_bin_keeps_combined :
  ~ rescaled_up_to_transition Toy.cube Toy.atFloor.
Proof.
  intros Hc.
  assert (Edc : distCompare_of Toy.atFloor 1000000000
                  [500 # 2; 1000 # 2; 2000 # 2]
                  [1000000 # 2000000; 2000000 # 2000000; 4000000 # 2000000]
                  [500000 # 2000000; 1000000 # 2000000; 2000000 # 2000000]
                = Ok (1000000000 # 2000000))
    by (vm_compute; reflexivity).
  specialize (Hc _ _ _ _ _ _ _ atFloor_curve atFloor_medians Edc
                 1%nat (1000 # 2) (2000000 # 2000000) (1000000 # 2000000)
                 eq_refl).
  assert (Hle : 1000 # 2 <= 1000000000 # 2000000)
    by (unfold Qle; simpl; lia).
  specialize (Hc Hle eq_refl eq_refl).
  vm_compute in Hc. discriminate Hc.
Qed.

(** C1, at the call that [loopSightlines] makes: the merge uses a scale
    factor of 2, and the value handed back in the third place is 1. *)
Lemma batch_call_returns_one :
  exists (e d : list Q) (rv : Q),
    hybridCurve Toy.cube Toy.batchCall = Ok (Some (e, d, rv))
    /\ rv == 2
    /\ hybridSightline Toy.cube Toy.batchCall = Ok (Some (e, d, 1)).
Proof.
  unfold hybridSightline.
  let v := eval vm_compute in (hybridCurve Toy.cube Toy.batchCall) in
  assert (E : hybridCurve Toy.cube Toy.batchCall = v)
    by (vm_compute; reflexivity).
  rewrite E. do 3 eexists.
  split; [reflexivity|]. split; [|reflexivity].
  vm_compute. reflexivity.
Qed.

(** ** The filter table of [ebv3d] *)

Lemma R_x_table_dom :
  dom ebv3d.R_x_table = ({["u"; "g"; "r"; "i"; "z"; "y"]} : gset string).
Proof.
  unfold ebv3d.R_x_table. rewrite !dom_insert_L, dom_empty_L. set_solver.
Qed.

(** C10. For a filter name that is none of the six keys of the table,
    [getDeltaMag] takes the coefficient of the r band: its answer is that
    of [getDeltaMag('r')], and no [KeyError] is raised. *)
Theorem getDeltaMag_unknown_filter (self : ebv3d.t) (sFilt : string) :
  ebv3d.R_x self = ebv3d.R_x_table ->
  sFilt ∉ ["u"; "g"; "r"; "i"; "z"; "y"] ->
  ebv3d.getDeltaMag self sFilt = ebv3d.getDeltaMag self "r"
  /\ ebv3d.getDeltaMag self sFilt <> Raise KeyError
  /\ ebv3d.getDeltaMag self sFilt
     = ebv3d.add_rows (ebv3d.dmods self)
         (map (map (fun e => (270 # 100) * e)) (ebv3d.ebvs self)).
Proof.
  intros HR Hnot.
  assert (Hout : bool_decide (sFilt ∈ dom (ebv3d.R_x self)) = false).
  { apply bool_decide_eq_false. rewrite HR, R_x_table_dom.
    intros Hin. apply Hnot.
    rewrite !elem_of_union, !elem_of_singleton in Hin.
    rewrite !elem_of_cons. tauto. }
  assert (Hr : bool_decide (("r" : string) ∈ dom (ebv3d.R_x self)) = true).
  { apply bool_decide_eq_true. rewrite HR, R_x_table_dom. set_solver. }
  assert (Hk : ebv3d.getkey (ebv3d.R_x self) "r" = Ok (270 # 100)).
  { rewrite HR. reflexivity. }
  unfold ebv3d.getDeltaMag. rewrite Hout, Hr. simpl. rewrite Hk. simpl.
  split; [reflexivity|]. split; [|reflexivity].
  generalize (map (map (fun e => (270 # 100) * e)) (ebv3d.ebvs self)).
  generalize (ebv3d.dmods self).
  induction l as [|r1 a IH]; intros [|r2 b]; simpl; try discriminate.
  unfold np.zip_bcast.
  destruct (length r1 =? length r2)%nat; simpl.
  - specialize (IH b). destruct (ebv3d.add_rows a b); simpl; [discriminate|exact IH].
  - destruct r1 as [|x [|x' r1]]; destruct r2 as [|y [|y' r2]]; simpl;
      try discriminate;
      specialize (IH b); destruct (ebv3d.add_rows a b); simpl;
      try discriminate; exact IH.
Qed.

(** C10, on a map of one pixel and two bins, asked for the filter
    ["V"]. *)
Lemma getDeltaMag_unknown_filter_witness :
  let self :=
    {| ebv3d.pathMap := "merged_ebv3d_nside64.fits";
       ebv3d.hpids := [0%Z];
       ebv3d.dists := [[10; 100]];
       ebv3d.ebvs := [[1; 2]];
       ebv3d.sfacs := [1];
       ebv3d.mask := [];
       ebv3d.nside := 64;
       ebv3d.nested := false;
       ebv3d.dmods := [[0; 5]];
       ebv3d.R_x := ebv3d.R_x_table;
       ebv3d.Verbose := true |} in
  ebv3d.getDeltaMag self "V" = ebv3d.getDeltaMag self "r"
  /\ ebv3d.getDeltaMag self "V" <> Raise KeyError
  /\ ebv3d.getDeltaMag self "V"
     = ebv3d.add_rows (ebv3d.dmods self)
         (map (map (fun e => (270 # 100) * e)) (ebv3d.ebvs self)).
Proof.
  intros self.
  apply (getDeltaMag_unknown_filter self "V").
  - reflexivity.
  - intros Hin.
    repeat (apply elem_of_cons in Hin as [Hin|Hin]; [discriminate Hin|]).
    exact (not_elem_of_nil _ Hin).
Defined.

(** ** The grid interpolator *)

(** A coordinate lies outside an axis when it is below the first grid
    point or above the last one. *)
Definition outside_axis (g : list Q) (x : Q) : Prop :=
  exists lo hi : Q, head g = Some lo /\ last g = Some hi /\ (x < lo \/ hi < x).

Definition outside_cube (cube : stilism_local.Cube) (p : Q * Q * Q) : Prop :=
  outside_axis (stilism_local.x0 cube) p.1.1
  \/ outside_axis (stilism_local.y0 cube) p.1.2
  \/ outside_axis (stilism_local.z0 cube) p.2.

Lemma out_of_bounds_axis_total (g : list Q) (x : Q) :
  g <> [] -> exists o : bool, scipy.out_of_bounds_axis g x = Ok o.
Proof.
  intros Hg. unfold scipy.out_of_bounds_axis.
  destruct g as [|lo g]; [congruence|]. simpl.
  destruct (last_is_Some (lo :: g)) as [_ Hl].
  destruct (Hl Hg) as [hi ->]. eauto.
Qed.

Lemma out_of_bounds_axis_outside (g : list Q) (x : Q) :
  outside_axis g x -> scipy.out_of_bounds_axis g x = Ok true.
Proof.
  intros (lo & hi & Hlo & Hhi & Hx). unfold scipy.out_of_bounds_axis.
  rewrite Hlo, Hhi. f_equal.
  destruct Hx as [Hx|Hx]; apply Qltb_lt in Hx; rewrite Hx;
    [reflexivity | apply orb_true_r].
Qed.

Lemma rgi_outside_point (cube : stilism_local.Cube) (p : Q * Q * Q) :
  stilism_local.x0 cube <> [] ->
  stilism_local.y0 cube <> [] ->
  stilism_local.z0 cube <> [] ->
  outside_cube cube p ->
  scipy.call1 (stilism_local.rgi cube) p = Ok 0.
Proof.
  intros Hx Hy Hz Hout. destruct p as [[x y] z].
  unfold scipy.call1, scipy.out_of_bounds. simpl.
  destruct (out_of_bounds_axis_total _ x Hx) as [ox Eox].
  destruct (out_of_bounds_axis_total _ y Hy) as [oy Eoy].
  destruct (out_of_bounds_axis_total _ z Hz) as [oz Eoz].
  assert (Ho : ox || oy || oz = true).
  { destruct Hout as [Ho|[Ho|Ho]]; apply out_of_bounds_axis_outside in Ho;
      simpl in Ho.
    - rewrite Eox in Ho. injection Ho as ->. reflexivity.
    - rewrite Eoy in Ho. injection Ho as ->. apply orb_true_iff. left.
      apply orb_true_r.
    - rewrite Eoz in Ho. injection Ho as ->. apply orb_true_r. }
  rewrite Eox, Eoy, Eoz. simpl. rewrite Ho. reflexivity.
Qed.

Lemma rgi_point_total (cube : stilism_local.Cube) (p : Q * Q * Q) :
  stilism_local.x0 cube <> [] ->
  stilism_local.y0 cube <> [] ->
  stilism_local.z0 cube <> [] ->
  exists v : Q, scipy.call1 (stilism_local.rgi cube) p = Ok v.
Proof.
  intros Hx Hy Hz. destruct p as [[x y] z].
  unfold scipy.call1, scipy.out_of_bounds. simpl.
  destruct (out_of_bounds_axis_total _ x Hx) as [ox ->].
  destruct (out_of_bounds_axis_total _ y Hy) as [oy ->].
  destruct (out_of_bounds_axis_total _ z Hz) as [oz ->].
  simpl. eauto.
Qed.

(** C6. On a cube that has grid points along each axis, the interpolator
    called on an array of query points, of which any number may lie
    inside the cube, raises nothing and answers with one value per point;
    and at every query point of the array that lies outside the bounds of
    at least one axis the value is exactly 0. *)
Theorem rgi_outside_zero (cube : stilism_local.Cube) (ps : list (Q * Q * Q)) :
  stilism_local.x0 cube <> [] ->
  stilism_local.y0 cube <> [] ->
  stilism_local.z0 cube <> [] ->
  exists vals : list Q,
    scipy.call (stilism_local.rgi cube) ps = Ok vals
    /\ length vals = length ps
    /\ (forall (k : nat) (p : Q * Q * Q),
           ps !! k = Some p -> outside_cube cube p -> vals !! k = Some 0).
Proof.
  intros Hx Hy Hz.
  induction ps as [|p ps (vals & Ecall & Hlen & Hzero)]; simpl.
  - exists []. split; [reflexivity|]. split; [reflexivity|].
    intros k p Hk. discriminate Hk.
  - destruct (rgi_point_total cube p Hx Hy Hz) as [v Ev].
    rewrite Ev, Ecall. simpl. exists (v :: vals).
    split; [reflexivity|]. split; [simpl; f_equal; exact Hlen|].
    intros [|k] q Hk Hout; simpl in Hk.
    + injection Hk as ->.
      rewrite (rgi_outside_point cube q Hx Hy Hz Hout) in Ev.
      injection Ev as <-. reflexivity.
    + simpl. exact (Hzero k q Hk Hout).
Qed.

(** C6, on the test cube, whose axes run from -200 to 200 and whose
    samples are all 1/1000: of three query points, the first lies beyond
    the x axis, the second inside the cube and the third below the z
    axis. The first and the third value are 0, the second is not. *)
Lemma rgi_outside_zero_witness :
  exists vals : list Q,
    scipy.call (stilism_local.rgi Toy.cube)
      [(300, 0, 0); (10, 20, 30); (10, 20, -201)] = Ok vals
    /\ length vals = 3%nat
    /\ vals !! 0%nat = Some 0
    /\ (exists v : Q, vals !! 1%nat = Some v /\ ~ v == 0)
    /\ vals !! 2%nat = Some 0.
Proof.
  destruct (rgi_outside_zero Toy.cube [(300, 0, 0); (10, 20, 30); (10, 20, -201)])
    as (vals & Ecall & Hlen & Hzero); try discriminate.
  exists vals. split; [exact Ecall|]. split; [exact Hlen|].
  split; [|split].
  - apply (Hzero 0%nat (300, 0, 0)); [reflexivity|].
    left. exists (-200), 200. repeat split; try reflexivity.
    right. reflexivity.
  - vm_compute in Ecall. injection Ecall as <-.
    eexists. split; [reflexivity|]. intros Hv. discriminate Hv.
  - apply (Hzero 2%nat (10, 20, -201)); [reflexivity|].
    right. right. exists (-200), 200. repeat split; try reflexivity.
    left. reflexivity.
Defined.

(** ** The cumulative sum along a sight line *)

Lemma cumsum_from_bounds (l : list Q) (acc : Q) :
  (forall v : Q, v ∈ l -> 0 <= v) ->
  (forall x : Q, x ∈ np.cumsum_from acc l -> acc <= x)
  /\ non_decreasing (np.cumsum_from acc l).
Proof.
  revert acc. induction l as [|v l IH]; intros acc Hpos; simpl.
  - split.
    + intros x Hx. exact (False_ind _ (not_elem_of_nil _ Hx)).
    + intros i j x y _ Hi. discriminate Hi.
  - assert (Hv : 0 <= v) by (apply Hpos; left).
    destruct (IH (acc + v)) as [Hlow Hmono].
    { intros w Hw. apply Hpos. right. exact Hw. }
    assert (Hacc : acc <= acc + v) by lra.
    split.
    + intros x Hx. apply elem_of_cons in Hx as [->|Hx]; [exact Hacc|].
      eapply Qle_trans; [exact Hacc | apply Hlow, Hx].
    + intros [|i] [|j] x y Hij Hi Hj; simpl in Hi, Hj.
      * injection Hi as <-. injection Hj as <-. apply Qle_refl.
      * injection Hi as <-. apply Hlow.
        apply list_elem_of_lookup. eauto.
      * lia.
      * apply (Hmono i j); [lia | exact Hi | exact Hj].
Qed.

Lemma roll1_lookup_S (d : list Q) (k : nat) :
  (S k < length d)%nat -> np.roll1 d !! S k = d !! k.
Proof.
  intros Hk. unfold np.roll1.
  destruct d as [|x d]; [simpl in Hk; lia|].
  rewrite lookup_app_r by (rewrite length_drop; lia).
  rewrite length_drop.
  replace (S k - (length (x :: d) - (length (x :: d) - 1)))%nat with k by lia.
  apply lookup_take_lt. lia.
Qed.

(** The step widths of lines 94-95 are positive on increasing distances. *)
Lemma d_step_positive (d : list Q) (s1 : Q) (k : nat) (w : Q) :
  strictly_increasing d ->
  zip_with Qminus d (np.roll1 d) !! 1%nat = Some s1 ->
  <[0%nat := s1]> (zip_with Qminus d (np.roll1 d)) !! k = Some w ->
  0 < w.
Proof.
  intros Hinc Hs1 Hw.
  assert (Hstep : forall (i : nat) (v : Q),
             zip_with Qminus d (np.roll1 d) !! S i = Some v -> 0 < v).
  { intros i v Hv.
    apply lookup_zip_with_Some in Hv as (a & b & -> & Ha & Hb).
    rewrite roll1_lookup_S in Hb by (apply lookup_lt_is_Some; eauto).
    assert (Hlt : b < a) by (apply (Hinc i (S i)); [lia | exact Hb | exact Ha]).
    lra. }
  destruct k as [|k].
  - rewrite list_lookup_insert_eq in Hw.
    + injection Hw as <-. apply (Hstep 0%nat). exact Hs1.
    + apply lookup_lt_Some in Hs1. lia.
  - rewrite list_lookup_insert_ne in Hw by lia. apply (Hstep k). exact Hw.
Qed.

Section RayQuery.
Context `{External} (cube : stilism_local.Cube).

Lemma find_max_distance_xyz (l b : Q) (d : list Q) (distMax : Q)
    (bInCube : list bool) (xyz : list Q * list Q * list Q) :
  (1 <= length d)%nat ->
  stilism_local.find_max_distance cube l b d = Ok (distMax, bInCube, xyz) ->
  xyz = stilism_local.gal_to_xyz l b d.
Proof.
  intros Hlen. unfold stilism_local.find_max_distance.
  destruct (length d <? 1)%nat eqn:E; [apply Nat.ltb_lt in E; lia|].
  intros Hf.
  apply bind_Ok_inv in Hf as (xl & _ & Hf).
  apply bind_Ok_inv in Hf as (yl & _ & Hf).
  apply bind_Ok_inv in Hf as (zl & _ & Hf).
  apply bind_Ok_inv in Hf as (dm & _ & Hf).
  congruence.
Qed.

(** C7. For a supplied array of at least two strictly increasing
    distances, if the densities that the interpolator answers along the
    sight line are all non-negative, the cumulative E(B-V) array that
    [get_ebv_lallement] hands back is non-decreasing. *)
Theorem cumulative_non_decreasing (l b dist dmin dstep : Q)
    (distances vals cum d : list Q) (distMax : Q) :
  (2 <= length distances)%nat ->
  strictly_increasing distances ->
  scipy.call (stilism_local.rgi cube)
    (stilism_local.zip3 (stilism_local.gal_to_xyz l b distances)) = Ok vals ->
  (forall v : Q, v ∈ vals -> 0 <= v) ->
  stilism_local.get_ebv_lallement cube l b dist dmin dstep distances
  = Ok (cum, d, distMax) ->
  d = distances /\ non_decreasing cum.
Proof.
  intros Hlen Hinc Hvals Hpos. unfold stilism_local.get_ebv_lallement.
  destruct (length distances <? 1)%nat eqn:E; [apply Nat.ltb_lt in E; lia|].
  simpl. intros Hg.
  apply bind_Ok_inv in Hg as (s1 & Hs1 & Hg). apply getitem_Ok in Hs1.
  apply bind_Ok_inv in Hg as (s0 & _ & Hg).
  apply bind_Ok_inv in Hg as ([[dm bIn] xyz] & Hf & Hg).
  apply find_max_distance_xyz in Hf as ->; [|lia].
  rewrite Hvals in Hg. simpl in Hg. injection Hg as <- <- <-.
  split; [reflexivity|].
  apply cumsum_from_bounds.
  intros v Hv. apply list_elem_of_lookup in Hv as [k Hk].
  apply lookup_zip_with_Some in Hk as (e & w & -> & He & Hw).
  assert (0 <= e) by (apply Hpos, list_elem_of_lookup; eauto).
  assert (0 < w) by (eapply d_step_positive; eassumption).
  apply Qmult_le_0_compat; [assumption | apply Qlt_le_weak; assumption].
Qed.

End RayQuery.

(** Closed instances of the order predicates, on explicit lists. *)
Ltac lookup_cases H :=
  lazymatch type of H with
  | [] !! _ = Some _ => discriminate H
  | (_ :: _) !! ?i = Some _ =>
      destruct i; simpl in H; [injection H as <- | lookup_cases H]
  end.

Ltac by_cases_on_indices :=
  let i := fresh "i" in let j := fresh "j" in
  let Hij := fresh "Hij" in let Hi := fresh "Hi" in let Hj := fresh "Hj" in
  intros i j ? ? Hij Hi Hj;
  lookup_cases Hi; lookup_cases Hj; try lia; vm_compute; congruence.

Ltac all_members tac :=
  let v := fresh "v" in let Hv := fresh "Hv" in
  intros v Hv;
  repeat (apply elem_of_cons in Hv as [->|Hv]; [tac|]);
  exact (False_ind _ (not_elem_of_nil _ Hv)).

(** C7, on the test cube: three distances along the x axis, the last one
    beyond the cube. *)
Lemma cumulative_non_decreasing_witness :
  exists (cum : list Q) (distMax : Q),
    stilism_local.get_ebv_lallement Toy.cube 0 0 300 (1 # 2) 5 [50; 150; 250]
    = Ok (cum, [50; 150; 250], distMax)
    /\ non_decreasing cum.
Proof.
  let r := eval vm_compute in
    (stilism_local.get_ebv_lallement Toy.cube 0 0 300 (1 # 2) 5 [50; 150; 250]) in
  match r with
  | Ok (?cum, ?d, ?dm) =>
      exists cum, dm;
      assert (E : stilism_local.get_ebv_lallement Toy.cube 0 0 300 (1 # 2) 5
                    [50; 150; 250] = Ok (cum, d, dm))
        by (vm_compute; reflexivity)
  end.
  split; [exact E|].
  let v := eval vm_compute in
    (scipy.call (stilism_local.rgi Toy.cube)
       (stilism_local.zip3 (stilism_local.gal_to_xyz 0 0 [50; 150; 250]))) in
  match v with
  | Ok ?vals =>
      refine (proj2 (cumulative_non_decreasing Toy.cube 0 0 300 (1 # 2) 5
                       [50; 150; 250] vals _ _ _ _ _ _ _ E))
  end.
  - simpl. lia.
  - unfold strictly_increasing. by_cases_on_indices.
  - vm_compute. reflexivity.
  - all_members ltac:(vm_compute; congruence).
Defined.

(** ** The distance grid of a sight line *)

Lemma fold_left_Qmaxb_spec (l : list Q) (acc : Q) :
  acc <= fold_left np.Qmaxb l acc
  /\ (forall x : Q, x ∈ l -> x <= fold_left np.Qmaxb l acc)
  /\ (fold_left np.Qmaxb l acc = acc \/ fold_left np.Qmaxb l acc ∈ l).
Proof.
  revert acc. induction l as [|y l IH]; intros acc; simpl.
  - split; [apply Qle_refl|]. split; [|left; reflexivity].
    intros x Hx. exact (False_ind _ (not_elem_of_nil _ Hx)).
  - destruct (IH (np.Qmaxb acc y)) as (Hacc & Hall & Hin).
    assert (Hm : acc <= np.Qmaxb acc y /\ y <= np.Qmaxb acc y).
    { unfold np.Qmaxb. destruct (Qltb acc y) eqn:E.
      - apply Qltb_lt in E. split; [apply Qlt_le_weak, E | apply Qle_refl].
      - apply Qltb_ge in E. split; [apply Qle_refl | exact E]. }
    destruct Hm as [Hm1 Hm2].
    split; [eapply Qle_trans; eassumption|]. split.
    + intros x Hx. apply elem_of_cons in Hx as [->|Hx]; [|apply Hall, Hx].
      eapply Qle_trans; eassumption.
    + destruct Hin as [Hin|Hin]; [|right; right; exact Hin].
      rewrite Hin. unfold np.Qmaxb. destruct (Qltb acc y); [right; left|left]; reflexivity.
Qed.

Lemma max_spec (l : list Q) (m : Q) :
  np.max l = Ok m -> m ∈ l /\ (forall x : Q, x ∈ l -> x <= m).
Proof.
  destruct l as [|y l]; simpl; [discriminate|]. intros [= <-].
  destruct (fold_left_Qmaxb_spec l y) as (Hacc & Hall & Hin). split.
  - destruct Hin as [->|Hin]; [left | right; exact Hin].
  - intros x Hx. apply elem_of_cons in Hx as [->|Hx]; auto.
Qed.

Lemma max_total (l : list Q) : l <> [] -> exists m : Q, np.max l = Ok m.
Proof. destruct l; [congruence | simpl; eauto]. Qed.

Lemma inject_nat_lt (i j : nat) :
  (i < j)%nat -> inject_Z (Z.of_nat i) < inject_Z (Z.of_nat j).
Proof. intros Hij. rewrite <- Zlt_Qlt. lia. Qed.

Lemma inject_nat_nonneg (i : nat) : 0 <= inject_Z (Z.of_nat i).
Proof. change 0 with (inject_Z 0). rewrite <- Zle_Qle. lia. Qed.

Lemma arange_Ok (start stop step : Q) (l : list Q) :
  np.arange start stop step = Ok l ->
  ~ step == 0
  /\ l = map (fun i : nat => start + inject_Z (Z.of_nat i) * step)
             (seq 0 (np.arange_len start stop step)).
Proof.
  unfold np.arange. destruct (Qeq_bool step 0) eqn:E; [discriminate|].
  intros [= <-]. split; [|reflexivity].
  apply Qeq_bool_neq. exact E.
Qed.

Lemma lookup_map_seq (f : nat -> Q) (n i : nat) (x : Q) :
  map f (seq 0 n) !! i = Some x <-> x = f i /\ (i < n)%nat.
Proof.
  change (map f (seq 0 n)) with (f <$> seq 0 n).
  rewrite list_lookup_fmap. split.
  - destruct (seq 0 n !! i) as [k|] eqn:E; [|discriminate].
    apply lookup_seq in E as [-> Hi]. simpl. intros [= <-]. auto.
  - intros [-> Hi]. rewrite lookup_seq_lt by exact Hi. reflexivity.
Qed.

(** A uniform grid with a positive step is strictly increasing. *)
Lemma arange_increasing (start stop step : Q) (l : list Q) :
  0 < step -> np.arange start stop step = Ok l -> strictly_increasing l.
Proof.
  intros Hstep E. apply arange_Ok in E as [_ ->].
  intros i j x y Hij Hi Hj.
  apply lookup_map_seq in Hi as [-> _]. apply lookup_map_seq in Hj as [-> _].
  pose proof (inject_nat_lt i j Hij) as Hlt.
  set (a := inject_Z (Z.of_nat i)) in *. set (b := inject_Z (Z.of_nat j)) in *.
  nra.
Qed.

Lemma linspace_open_Ok (start stop : Q) (num : Z) (l : list Q) :
  np.linspace_open start stop num = Ok l ->
  (0 <= num)%Z
  /\ l = map (fun i : nat =>
                inject_Z (Z.of_nat i) * ((stop - start) / inject_Z num) + start)
             (seq 0 (Z.to_nat num)).
Proof.
  unfold np.linspace_open. destruct (num <? 0)%Z eqn:E; [discriminate|].
  apply Z.ltb_ge in E. intros [= <-]. auto.
Qed.

Lemma increasing_app (l1 l2 : list Q) :
  strictly_increasing l1 -> strictly_increasing l2 ->
  (forall x y : Q, x ∈ l1 -> y ∈ l2 -> x < y) ->
  strictly_increasing (l1 ++ l2).
Proof.
  intros H1 H2 H12 i j x y Hij Hi Hj.
  apply lookup_app_Some in Hi as [Hi|[Hil Hi]];
    apply lookup_app_Some in Hj as [Hj|[Hjl Hj]].
  - exact (H1 i j x y Hij Hi Hj).
  - apply H12; apply list_elem_of_lookup; eauto.
  - apply lookup_lt_Some in Hj. lia.
  - apply (H2 (i - length l1)%nat (j - length l1)%nat); [lia | exact Hi | exact Hj].
Qed.

Lemma increasing_last_max (l : list Q) (lf x : Q) :
  strictly_increasing l -> last l = Some lf -> x ∈ l -> x <= lf.
Proof.
  intros Hinc Hl Hx. rewrite last_lookup in Hl.
  apply list_elem_of_lookup in Hx as [i Hi].
  pose proof (lookup_lt_Some _ _ _ Hi) as Hlt.
  destruct (decide (i = pred (length l))) as [->|Hne].
  - rewrite Hl in Hi. injection Hi as <-. apply Qle_refl.
  - apply Qlt_le_weak. apply (Hinc i (pred (length l))); [lia | exact Hi | exact Hl].
Qed.

Section DistanceBinner.
Context `{External} (cube : stilism_local.Cube).

Lemma generateDistances_inv (self self' : lineofsight.t) (Verbose : bool) :
  lineofsight.generateDistances cube self Verbose = Ok self' ->
  exists (lim : Q) (close : list Q) (m : Q) (far : list Q) (f0 f1 : Q),
    lineofsight.distsClose_of cube self = Ok (lim, close)
    /\ np.max close = Ok m
    /\ np.linspace_open m (lineofsight.distMaxCoarsePc self)
         (lineofsight.nBinsFar_of (lineofsight.nDistBins self) close) = Ok far
    /\ far !! 0%nat = Some f0 /\ far !! 1%nat = Some f1
    /\ lineofsight.distsPc self' = close ++ map (fun d => d + (f1 - f0)) far
    /\ lineofsight.distLimPc self' = lim.
Proof.
  unfold lineofsight.generateDistances. intros E.
  apply bind_Ok_inv in E as ([lim close] & Ec & E).
  apply bind_Ok_inv in E as (m & Em & E).
  apply bind_Ok_inv in E as (far & Ef & E).
  apply bind_Ok_inv in E as (f1 & E1 & E). apply getitem_Ok in E1.
  apply bind_Ok_inv in E as (f0 & E0 & E). apply getitem_Ok in E0.
  apply bind_Ok_inv in E as (dmin & _ & E).
  apply bind_Ok_inv in E as (dmax & _ & E).
  apply bind_Ok_inv in E as (u & _ & E).
  injection E as <-. simpl. exists lim, close, m, far, f0, f1. auto 10.
Qed.

Lemma distsClose_of_arange (self : lineofsight.t) (lim : Q) (close : list Q) :
  lineofsight.distsClose_of cube self = Ok (lim, close) ->
  np.arange (lineofsight.distMinPc self)
    (lim + (1 # 10) * lineofsight.distStepPc self)
    (lineofsight.distStepPc self) = Ok close.
Proof.
  unfold lineofsight.distsClose_of. intros E.
  apply bind_Ok_inv in E as (fine & _ & E).
  apply bind_Ok_inv in E as ([[dm bIn] xyz] & _ & E).
  apply bind_Ok_inv in E as (close' & Ec & E).
  injection E as <- <-. exact Ec.
Qed.

(** The total number of bins is met when at least two coarse bins are
    left after the fine ones. *)
Lemma generateDistances_length (self self' : lineofsight.t) (Verbose : bool)
    (lim : Q) (close : list Q) :
  lineofsight.distsClose_of cube self = Ok (lim, close) ->
  (Z.of_nat (length close) <= lineofsight.nDistBins self)%Z ->
  lineofsight.generateDistances cube self Verbose = Ok self' ->
  Z.of_nat (length (lineofsight.distsPc self')) = lineofsight.nDistBins self.
Proof.
  intros Ec Hn E.
  apply generateDistances_inv in E
    as (lim' & close' & m & far & f0 & f1 & Ec' & _ & Ef & _ & _ & -> & _).
  rewrite Ec in Ec'. injection Ec' as <- <-.
  apply linspace_open_Ok in Ef as [_ ->].
  rewrite length_app, length_map, length_map, length_seq.
  unfold lineofsight.nBinsFar_of.
  destruct (_ <? 0)%Z eqn:E; [apply Z.ltb_lt in E; lia|]. lia.
Qed.

(** With no coarse bin left, or a single one, the coarse step of line
    147 cannot be read. *)
Lemma generateDistances_short_far (self : lineofsight.t) (Verbose : bool)
    (lim : Q) (close : list Q) :
  lineofsight.distsClose_of cube self = Ok (lim, close) ->
  close <> [] ->
  (0 <= lineofsight.nDistBins self - Z.of_nat (length close) < 2)%Z ->
  lineofsight.generateDistances cube self Verbose = Raise IndexError.
Proof.
  intros Ec Hne Hn. unfold lineofsight.generateDistances.
  rewrite Ec. simpl.
  destruct (max_total close Hne) as [m ->]. simpl.
  unfold lineofsight.nBinsFar_of, np.linspace_open.
  set (n := (lineofsight.nDistBins self - Z.of_nat (length close))%Z) in *.
  destruct (n <? 0)%Z eqn:E; [apply Z.ltb_lt in E; lia|]. rewrite E. simpl.
  assert (Hcases : n = 0%Z \/ n = 1%Z) by lia.
  destruct Hcases as [->| ->]; reflexivity.
Qed.

(** C4, as the code has it. With a positive fine step and the coarse
    ceiling beyond the last fine distance, a distance array that
    [generateDistances] produces is the fine bins followed by at least
    two coarse bins, it is strictly increasing, and its first coarse
    value is strictly greater than its last fine value. *)
Theorem generateDistances_increasing (self self' : lineofsight.t)
    (Verbose : bool) (lim : Q) (close : list Q) :
  0 < lineofsight.distStepPc self ->
  lineofsight.distsClose_of cube self = Ok (lim, close) ->
  (forall lf : Q, last close = Some lf -> lf < lineofsight.distMaxCoarsePc self) ->
  lineofsight.generateDistances cube self Verbose = Ok self' ->
  exists far : list Q,
    lineofsight.distsPc self' = close ++ far
    /\ (2 <= length far)%nat
    /\ strictly_increasing (lineofsight.distsPc self')
    /\ (forall lf ff : Q, last close = Some lf -> head far = Some ff -> lf < ff).
Proof.
  intros Hstep Ec Hceil E.
  apply generateDistances_inv in E
    as (lim' & close' & m & far & f0 & f1 & Ec' & Em & Ef & E0 & E1 & -> & _).
  rewrite Ec in Ec'. injection Ec' as <- <-.
  pose proof (distsClose_of_arange _ _ _ Ec) as Ea.
  pose proof (arange_increasing _ _ _ _ Hstep Ea) as Hinc.
  apply max_spec in Em as [Hmin Hmax].
  assert (Hne : close <> []) by (intros ->; exact (not_elem_of_nil _ Hmin)).
  destruct (proj2 (last_is_Some close) Hne) as [lf Hlf].
  assert (Hmlf : m <= lf) by (eapply increasing_last_max; eassumption).
  specialize (Hceil lf Hlf).
  apply linspace_open_Ok in Ef as [Hn ->].
  set (n := lineofsight.nBinsFar_of (lineofsight.nDistBins self) close) in *.
  set (s := (lineofsight.distMaxCoarsePc self - m) / inject_Z n) in *.
  apply lookup_map_seq in E0 as [-> _].
  apply lookup_map_seq in E1 as [-> H1n].
  assert (Hnpos : 0 < inject_Z n)
    by (change 0 with (inject_Z 0); rewrite <- Zlt_Qlt; lia).
  assert (Hs : 0 < s).
  { unfold s. apply Qlt_shift_div_l; [exact Hnpos|]. lra. }
  change (inject_Z (Z.of_nat 0)) with 0.
  change (inject_Z (Z.of_nat 1)) with 1.
  set (far := map (fun d => d + (1 * s + m - (0 * s + m)))
                  (map (fun i : nat => inject_Z (Z.of_nat i) * s + m)
                       (seq 0 (Z.to_nat n)))).
  assert (Hfar : forall (i : nat) (x : Q),
             far !! i = Some x ->
             x = inject_Z (Z.of_nat i) * s + m + (1 * s + m - (0 * s + m))).
  { intros i x Hx. unfold far in Hx.
    change (map ?f ?l) with (f <$> l) in Hx.
    rewrite list_lookup_fmap in Hx.
    destruct (_ !! i) as [d|] eqn:Ed; [|discriminate].
    change (?f <$> ?l) with (map f l) in Ed.
    apply lookup_map_seq in Ed as [-> _]. injection Hx as <-. reflexivity. }
  exists far. split; [reflexivity|]. split.
  { unfold far. rewrite !length_map, length_seq. lia. }
  assert (Hfar_gt : forall y : Q, y ∈ far -> m < y).
  { intros y Hy. apply list_elem_of_lookup in Hy as [i Hi].
    apply Hfar in Hi as ->. pose proof (inject_nat_nonneg i).
    set (a := inject_Z (Z.of_nat i)) in *. nra. }
  split.
  - apply increasing_app; [exact Hinc| |].
    + intros i j x y Hij Hi Hj.
      apply Hfar in Hi as ->. apply Hfar in Hj as ->.
      pose proof (inject_nat_lt i j Hij).
      set (a := inject_Z (Z.of_nat i)) in *.
      set (b := inject_Z (Z.of_nat j)) in *. nra.
    + intros x y Hx Hy. eapply Qle_lt_trans; [apply Hmax, Hx | apply Hfar_gt, Hy].
  - intros lf' ff Hlf' Hff. rewrite Hlf in Hlf'. injection Hlf' as <-.
    eapply Qle_lt_trans; [apply Hmax; eapply last_Some_elem_of; exact Hlf|].
    apply Hfar_gt. rewrite head_lookup in Hff.
    apply list_elem_of_lookup. eauto.
Qed.

End DistanceBinner.

(** ** The distance grid on the test double *)

(** C3, where the total asked for is exactly the number of fine bins (16)
    or one more: no distance array is produced, the coarse step cannot be
    read. *)
Lemma generateDistances_exact_total_raises :
  (exists (lim : Q) (close : list Q),
      lineofsight.distsClose_of Toy.cube (Toy.los 16) = Ok (lim, close)
      /\ length close = 16%nat)
  /\ lineofsight.generateDistances Toy.cube (Toy.los 16) false = Raise IndexError
  /\ lineofsight.generateDistances Toy.cube (Toy.los 17) false = Raise IndexError.
Proof.
  split; [|split; vm_compute; reflexivity].
  let c := eval vm_compute in (lineofsight.distsClose_of Toy.cube (Toy.los 16)) in
  match c with
  | Ok (?lim, ?close) => exists lim, close
  end.
  split; vm_compute; reflexivity.
Qed.

(** C4 as the design document words it, for one sight line. *)
Definition increasing_grid `{External} (cube : stilism_local.Cube)
    (self : lineofsight.t) (Verbose : bool) : Prop :=
  forall (self' : lineofsight.t) (lim : Q) (close far : list Q),
    lineofsight.distsClose_of cube self = Ok (lim, close) ->
    lineofsight.generateDistances cube self Verbose = Ok self' ->
    lineofsight.distsPc self' = close ++ far ->
    (2 <= length far)%nat ->
    (forall lf : Q, last close = Some lf -> lf < lineofsight.distMaxCoarsePc self) ->
    strictly_increasing (lineofsight.distsPc self')
    /\ (forall lf ff : Q, last close = Some lf -> head far = Some ff -> lf < ff).

(** C4 as worded fails for a negative step: the fine bins run downwards
    from 10 pc to 5 pc, the two coarse bins follow at 7505 pc and
    15000 pc. *)
Lemma downward_grid_not_increasing :
  ~ increasing_grid Toy.cube Toy.downward false.
Proof.
  intros Hc.
  let c := eval vm_compute in (lineofsight.distsClose_of Toy.cube Toy.downward) in
  let g := eval vm_compute in
    (lineofsight.generateDistances Toy.cube Toy.downward false) in
  match c with
  | Ok (?lim, ?close) =>
      match g with
      | Ok ?s' =>
          assert (Ec : lineofsight.distsClose_of Toy.cube Toy.downward
                       = Ok (lim, close)) by (vm_compute; reflexivity);
          assert (Eg : lineofsight.generateDistances Toy.cube Toy.downward false
                       = Ok s') by (vm_compute; reflexivity);
          specialize (Hc s' lim close (drop 6 (lineofsight.distsPc s')) Ec Eg)
      end
  end.
  destruct Hc as [Hinc _].
  - vm_compute. reflexivity.
  - simpl. lia.
  - intros lf Hlf. vm_compute in Hlf. injection Hlf as <-. vm_compute. reflexivity.
  - specialize (Hinc 0%nat 1%nat _ _ ltac:(lia) eq_refl eq_refl).
    vm_compute in Hinc. discriminate Hinc.
Qed.

(** C4, on the test double: 16 fine bins up to 150.5 pc, then two coarse
    bins. *)
Lemma generateDistances_increasing_witness :
  exists (self' : lineofsight.t) (close far : list Q),
    lineofsight.generateDistances Toy.cube (Toy.los 18) false = Ok self'
    /\ lineofsight.distsPc self' = close ++ far
    /\ (2 <= length far)%nat
    /\ strictly_increasing (lineofsight.distsPc self')
    /\ (forall lf ff : Q, last close = Some lf -> head far = Some ff -> lf < ff).
Proof.
  let c := eval vm_compute in (lineofsight.distsClose_of Toy.cube (Toy.los 18)) in
  let g := eval vm_compute in
    (lineofsight.generateDistances Toy.cube (Toy.los 18) false) in
  match c with
  | Ok (?lim, ?close) =>
      match g with
      | Ok ?s' =>
          assert (Ec : lineofsight.distsClose_of Toy.cube (Toy.los 18)
                       = Ok (lim, close)) by (vm_compute; reflexivity);
          assert (Eg : lineofsight.generateDistances Toy.cube (Toy.los 18) false
                       = Ok s') by (vm_compute; reflexivity);
          exists s', close;
          destruct (generateDistances_increasing Toy.cube (Toy.los 18) s' false
                      lim close) as (far & Hfar)
      end
  end.
  - vm_compute. reflexivity.
  - exact Ec.
  - intros lf Hlf. vm_compute in Hlf. injection Hlf as <-. vm_compute. reflexivity.
  - exact Eg.
  - exists far. split; [exact Eg | exact Hfar].
Defined.

(** ** Rows written into the master arrays *)

Lemma assign_length {A : Type} (idx : list nat) (arr data : list A) :
  length (assign arr idx data) = length arr.
Proof.
  revert arr data. induction idx as [|k idx IH]; intros arr [|d data]; simpl;
    try reflexivity.
  rewrite IH. apply length_insert.
Qed.

Lemma assign_lookup_notin {A : Type} (idx : list nat) (arr data : list A) (i : nat) :
  i ∉ idx -> assign arr idx data !! i = arr !! i.
Proof.
  revert arr data. induction idx as [|k idx IH]; intros arr [|d data] Hi; simpl;
    try reflexivity.
  rewrite IH by (intros Hin; apply Hi; right; exact Hin).
  apply list_lookup_insert_ne. intros ->. apply Hi. left.
Qed.

Lemma assign_replicate_lookup {A : Type} (idx : list nat) (arr : list A)
    (v : A) (i : nat) :
  i ∈ idx -> (i < length arr)%nat ->
  assign arr idx (replicate (length idx) v) !! i = Some v.
Proof.
  revert arr. induction idx as [|k idx IH]; intros arr Hi Hlt.
  - exact (False_ind _ (not_elem_of_nil _ Hi)).
  - simpl. destruct (decide (i ∈ idx)) as [Hin|Hout].
    + apply IH; [exact Hin | rewrite length_insert; exact Hlt].
    + rewrite assign_lookup_notin by exact Hout.
      apply elem_of_cons in Hi as [->|Hi]; [|contradiction].
      apply list_lookup_insert_eq. exact Hlt.
Qed.

Lemma py_index_lt (n : nat) (p : Z) (i : nat) :
  py_index n p = Ok i -> (i < n)%nat.
Proof.
  unfold py_index.
  destruct ((0 <=? p)%Z && (p <? Z.of_nat n)%Z) eqn:E1.
  - intros E. injection E as E. subst i.
    apply andb_true_iff in E1 as [E0 E1].
    apply Z.leb_le in E0. apply Z.ltb_lt in E1. lia.
  - destruct ((- Z.of_nat n <=? p)%Z && (p <? 0)%Z) eqn:E2; [|discriminate].
    intros E. injection E as E. subst i.
    apply andb_true_iff in E2 as [E2 E3].
    apply Z.leb_le in E2. apply Z.ltb_lt in E3. lia.
Qed.

Lemma py_indices_spec (n : nat) (rows : list Z) (idx : list nat) :
  py_indices n rows = Ok idx ->
  forall i : nat, i ∈ idx <-> exists p : Z, p ∈ rows /\ py_index n p = Ok i.
Proof.
  revert idx. induction rows as [|p rows IH]; intros idx E i; simpl in E.
  - injection E as <-. split.
    + intros Hi. exact (False_ind _ (not_elem_of_nil _ Hi)).
    + intros (q & Hq & _). exact (False_ind _ (not_elem_of_nil _ Hq)).
  - apply bind_Ok_inv in E as (k & Ek & E).
    apply bind_Ok_inv in E as (ks & Eks & E). injection E as <-.
    specialize (IH ks Eks i). split.
    + intros Hi. apply elem_of_cons in Hi as [->|Hi].
      * exists p. split; [left | exact Ek].
      * apply IH in Hi as (q & Hq & Eq).
        exists q. split; [right; exact Hq | exact Eq].
    + intros (q & Hq & Eq). apply elem_of_cons.
      apply elem_of_cons in Hq as [->|Hq].
      * left. congruence.
      * right. apply IH. eauto.
Qed.

(** Whether a file brings mask data (lines 978-982). *)
Definition hasMask (hdul : fits.HDUList) : bool :=
  (4 <? fits.len hdul)%nat
  && match fits.data hdul 4 with
     | Ok d4 => (0 <? fits.size d4)%nat
     | Raise _ => false
     end.

Lemma setrows_Ok (arr : list (list Q)) (ncols : nat) (rows : list Z)
    (d : fits.ndarray) (arr' : list (list Q)) :
  setrows arr ncols rows d = Ok arr' ->
  exists (idx : list nat) (m : list (list Q)),
    py_indices (length arr) rows = Ok idx /\ arr' = assign arr idx m.
Proof.
  unfold setrows. intros E. apply bind_Ok_inv in E as (idx & Ei & E).
  destruct d as [v|m]; [discriminate|].
  destruct (_ && _); [|discriminate]. injection E as <-. eauto.
Qed.

Lemma slotMask_Ok (nbins : nat) (mask mask' : list (list Q)) (hdul : fits.HDUList) :
  slotMask nbins mask hdul = Ok mask' ->
  exists (idx : list nat) (m : list (list Q)),
    py_indices (length mask) (fits.data0 hdul) = Ok idx
    /\ mask' = assign mask idx m
    /\ (hasMask hdul = false ->
        m = replicate (length idx) (replicate nbins 0)).
Proof.
  unfold slotMask, hasMask. intros E.
  destruct (4 <? fits.len hdul)%nat; simpl in *.
  - apply bind_Ok_inv in E as ([mask1 b] & E1 & E).
    apply bind_Ok_inv in E1 as (d4 & Ed & E1). rewrite Ed.
    destruct (0 <? fits.size d4)%nat.
    + apply bind_Ok_inv in E1 as (mask2 & Es & E1).
      injection E1 as <- <-. simpl in E. injection E as <-.
      apply setrows_Ok in Es as (idx & m & Ei & ->).
      exists idx, m. split; [exact Ei|]. split; [reflexivity | discriminate].
    + injection E1 as <- <-. simpl in E. unfold fillrows in E.
      apply bind_Ok_inv in E as (idx & Ei & E). injection E as <-.
      exists idx, (replicate (length idx) (replicate nbins 0)).
      split; [exact Ei|]. split; reflexivity.
  - unfold fillrows in E.
    apply bind_Ok_inv in E as (idx & Ei & E). injection E as <-.
    exists idx, (replicate (length idx) (replicate nbins 0)).
    split; [exact Ei|]. split; reflexivity.
Qed.

Section MaskFacts.
Context `{External}.

Lemma slotFile_mask (nbins : nat) (m m' : master) (hdul : fits.HDUList) :
  slotFile nbins m hdul = Ok m' ->
  slotMask nbins (maskMaster m) hdul = Ok (maskMaster m').
Proof.
  unfold slotFile. intros E.
  apply bind_Ok_inv in E as (d1 & _ & E).
  apply bind_Ok_inv in E as (dists & _ & E).
  apply bind_Ok_inv in E as (d2 & _ & E).
  apply bind_Ok_inv in E as (ebvs & _ & E).
  apply bind_Ok_inv in E as (d3 & _ & E).
  apply bind_Ok_inv in E as (sfacs & _ & E).
  apply bind_Ok_inv in E as (mask & Em & E).
  injection E as <-. exact Em.
Qed.

(** A file that does not name row [i] leaves that mask row alone. *)
Lemma slotFiles_mask_untouched (nbins : nat) (hduls : list fits.HDUList)
    (m m' : master) (i : nat) :
  slotFiles nbins m hduls = Ok m' ->
  (forall (h : fits.HDUList) (q : Z),
      h ∈ hduls -> q ∈ fits.data0 h ->
      py_index (length (maskMaster m)) q <> Ok i) ->
  length (maskMaster m') = length (maskMaster m)
  /\ maskMaster m' !! i = maskMaster m !! i.
Proof.
  revert m. induction hduls as [|h hduls IH]; intros m E Hno; simpl in E.
  - injection E as <-. auto.
  - apply bind_Ok_inv in E as (m1 & E1 & E).
    apply slotFile_mask, slotMask_Ok in E1 as (idx & d & Ei & Em & _).
    assert (Hlen : length (maskMaster m1) = length (maskMaster m))
      by (rewrite Em; apply assign_length).
    destruct (IH m1 E) as [Hl Hi].
    { intros h' q Hh' Hq. rewrite Hlen.
      apply (Hno h' q); [right; exact Hh' | exact Hq]. }
    split; [congruence|]. rewrite Hi, Em.
    apply assign_lookup_notin. intros Hin.
    apply (proj1 (py_indices_spec _ _ _ Ei i)) in Hin as (q & Hq & Eq).
    apply (Hno h q); [left | exact Hq | exact Eq].
Qed.

(** C8, as the code has it. When [mergeMaps] slots in a file that
    brings no mask data, the mask row of each of its pixel ids is set
    to 0 throughout, the value that marks good points; the row stays so
    unless a later file names the same pixel. *)
Theorem unmasked_file_rows_good (nbins : nat) (m m' : master)
    (before after : list fits.HDUList) (hdul : fits.HDUList) (p : Z) (i : nat) :
  slotFiles nbins m (before ++ hdul :: after) = Ok m' ->
  hasMask hdul = false ->
  p ∈ fits.data0 hdul ->
  py_index (length (maskMaster m)) p = Ok i ->
  (forall (h : fits.HDUList) (q : Z),
      h ∈ after -> q ∈ fits.data0 h ->
      py_index (length (maskMaster m)) q <> Ok i) ->
  maskMaster m' !! i = Some (replicate nbins 0).
Proof.
  revert m. induction before as [|h0 before IH]; intros m E Hno Hp Hi Hafter;
    simpl in E; apply bind_Ok_inv in E as (m1 & E1 & E);
    apply slotFile_mask, slotMask_Ok in E1 as (idx & d & Ei & Em & Hd).
  - assert (Hlen : length (maskMaster m1) = length (maskMaster m))
      by (rewrite Em; apply assign_length).
    destruct (slotFiles_mask_untouched nbins after m1 m' i E) as [_ ->];
      [rewrite Hlen; exact Hafter|].
    rewrite Em, (Hd Hno).
    apply (assign_replicate_lookup idx (maskMaster m) (replicate nbins 0) i).
    + apply (proj2 (py_indices_spec _ _ _ Ei i)).
      exists p. split; assumption.
    + eapply py_index_lt. exact Hi.
  - assert (Hlen : length (maskMaster m1) = length (maskMaster m))
      by (rewrite Em; apply assign_length).
    apply (IH m1 E Hno Hp); rewrite Hlen; assumption.
Qed.

End MaskFacts.

(** ** The merge on the test double *)

Lemma tileDisk_lookup : Toy.tileDisk !! Toy.tilePath = Some Toy.tile.
Proof. vm_compute. reflexivity. Qed.

(** C8 as the design document words it: the mask rows of a file without
    mask data come out masked, that is non-zero. *)
Definition unmasked_rows_marked_invalid `{External} (lPaths : list string)
    (pathJoined : string) (fs : disk) : Prop :=
  forall (fs' : disk) (path : string) (hdul out : fits.HDUList) (p : Z)
         (mask : list (list Q)) (row : list Q),
    mergeMaps lPaths pathJoined fs = Ok fs' ->
    path ∈ lPaths -> fs !! path = Some hdul -> hasMask hdul = false ->
    p ∈ fits.data0 hdul ->
    fs' !! pathJoined = Some out ->
    fits.data out 4 = Ok (fits.A2 mask) ->
    mask !! Z.to_nat p = Some row ->
    forall v : Q, v ∈ row -> ~ v == 0.

(** C8 as worded fails: merging the one file of the test disk leaves the
    mask row of pixel 0 at [[0; 0]], the value of good points. *)
Lemma unmasked_file_comes_out_good :
  ~ unmasked_rows_marked_invalid [Toy.tilePath] "merged_ebv3d_nside1.fits"
      Toy.tileDisk.
Proof.
  intros Hc.
  let r := eval vm_compute in
    (mergeMaps [Toy.tilePath] "merged_ebv3d_nside1.fits" Toy.tileDisk) in
  match r with
  | Ok ?fs' =>
      assert (Em : mergeMaps [Toy.tilePath] "merged_ebv3d_nside1.fits" Toy.tileDisk
                   = Ok fs') by (vm_compute; reflexivity);
      let o := eval vm_compute in (fs' !! "merged_ebv3d_nside1.fits") in
      match o with
      | Some ?out =>
          assert (Eo : fs' !! "merged_ebv3d_nside1.fits" = Some out)
            by (vm_compute; reflexivity);
          let d := eval vm_compute in (fits.data out 4) in
          match d with
          | Ok (fits.A2 ?mask) =>
              specialize (Hc fs' Toy.tilePath Toy.tile out 0%Z mask [0; 0] Em)
          end
      end
  end.
  apply (Hc ltac:(left) tileDisk_lookup eq_refl ltac:(left)
            ltac:(vm_compute; reflexivity) eq_refl eq_refl 0 ltac:(left)).
  reflexivity.
Qed.

(** C8, on the file of the test disk slotted into an empty map of twelve
    pixels: the mask row of pixel 1 is [[0; 0]]. *)
Lemma unmasked_file_rows_good_witness :
  exists m m' : master,
    emptyMaster 12 2 = Ok m
    /\ slotFiles 2 m [Toy.tile] = Ok m'
    /\ maskMaster m' !! 1%nat = Some [0; 0].
Proof.
  let r := eval vm_compute in (emptyMaster 12 2) in
  match r with
  | Ok ?m =>
      let r' := eval vm_compute in (slotFiles 2 m [Toy.tile]) in
      match r' with
      | Ok ?m' =>
          exists m, m';
          assert (Es : slotFiles 2 m ([] ++ Toy.tile :: []) = Ok m')
            by (vm_compute; reflexivity);
          split; [vm_compute; reflexivity|]; split; [exact Es|];
          apply (unmasked_file_rows_good 2 m m' [] [] Toy.tile 1%Z 1%nat Es)
      end
  end.
  - reflexivity.
  - right. left.
  - reflexivity.
  - intros h q Hh. exact (False_ind _ (not_elem_of_nil _ Hh)).
Defined.

(** ** The batch loop *)

Section BatchFacts.
Context `{External} `{Astropy} (cube : stilism_local.Cube).

(** X14. When the flags keep none of the offset samples,
    [hybridSightline] raises nothing and hands back [None], whatever
    [returnValues] and [doPlots] say; no sight line is evaluated. *)
Lemma hybridSightline_unsampled (a : hs.kwargs) (lCen bCen : Q)
    (vL vB : list Q) (keep : list bool) :
  sampleGrid a = Ok (lCen, bCen, vL, vB, keep) ->
  np.count keep = 0%nat ->
  hybridSightline cube a = Ok None.
Proof.
  intros Es Hk. unfold hybridSightline, hybridCurve, sightlineMedians.
  rewrite Es. simpl. rewrite Hk. reflexivity.
Qed.

(** The turn of the loop for such a pixel raises [TypeError] at the
    unpacking of line 840, and leaves the disk as it was. *)
Lemma loopBody_unsampled (nside nbins : Z) (nested : bool) (nl nb : Z)
    (tellTime : bool) (reportInterval : Z) (fitsPath : string) (fracPix : Q)
    (dMeta : list (string * fits.card)) (hpids : list Z) (iHP : nat)
    (hpid : Z) (st : chunk) (fs : disk) :
  hpids !! iHP = Some hpid ->
  hybridSightline cube
    (loopArgs nside nbins nested nl nb tellTime fracPix hpid) = Ok None ->
  loopBody cube nside nbins nested nl nb tellTime reportInterval fitsPath
           fracPix dMeta hpids iHP st fs
  = (fs, Raise TypeError).
Proof.
  intros Hh Hs. unfold loopBody.
  apply getitem_Ok in Hh. rewrite Hh. simpl. rewrite Hs. reflexivity.
Qed.

(** A turn that raises ends the loop: the turns after it are not run. *)
Lemma loopFrom_raise (body : nat -> chunk -> disk -> disk * res chunk)
    (done rest : list nat) (iHP : nat) (st st1 : chunk) (fs fs1 fs2 : disk)
    (e : exn) :
  loopFrom body done st fs = (fs1, Ok st1) ->
  body iHP st1 fs1 = (fs2, Raise e) ->
  loopFrom body (done ++ iHP :: rest) st fs = (fs2, Raise e).
Proof.
  revert st fs. induction done as [|i done IH]; intros st fs Hd Hb; simpl in *.
  - injection Hd as <- <-. rewrite Hb. reflexivity.
  - destruct (body i st fs) as [fs' [st'|e']]; [|discriminate].
    apply IH; assumption.
Qed.

End BatchFacts.

(** C9, on the test double with [fracPix = 0]: every offset sample falls
    on the centre and is dropped, [hybridSightline] hands back [None] for
    pixel 0, and the batch over pixels 0 to 2 ends there with a
    [TypeError]; nothing is written. *)
Lemma batch_aborts_on_unsampled_pixel :
  hybridSightline Toy.cube (loopArgs 1 20 false 1 1 false 0 0) = Ok None
  /\ loopSightlines Toy.cube 1 0 3 20 false 1 1 false 100 "" "" 0 ∅
     = (∅, Raise TypeError).
Proof. split; vm_compute; reflexivity. Qed.


(** * Further properties of the code *)

(** ** The uniform grid of [generate_distances] *)

Lemma Qceiling_tenth (k : nat) :
  Qceiling (inject_Z (Z.of_nat k) + (1 # 10)) = (Z.of_nat k + 1)%Z.
Proof.
  set (x := inject_Z (Z.of_nat k) + (1 # 10)).
  pose proof (Qle_ceiling x) as Hle. pose proof (Qceiling_lt x) as Hlt.
  set (c := Qceiling x) in *.
  assert (H1 : inject_Z (Z.of_nat k) < inject_Z c) by (unfold x in Hle; lra).
  assert (H2 : inject_Z c < inject_Z (Z.of_nat k + 2)).
  { rewrite inject_Z_plus.
    replace (c - 1)%Z with (c + -1)%Z in Hlt by lia.
    rewrite inject_Z_plus in Hlt. unfold x in Hlt.
    change (inject_Z (-1)) with (-1) in Hlt. change (inject_Z 2) with 2. lra. }
  rewrite <- Zlt_Qlt in H1, H2. lia.
Qed.

(** X1. Asked for a maximum that lies a whole number [k] of positive
    steps above the minimum, [generate_distances] answers the [k + 1]
    distances [dmin + i * dstep]: the tenth of a step added to the stop
    keeps the maximum itself in the array. *)
Theorem generate_distances_reaches_max (dmin dstep : Q) (k : nat) :
  0 < dstep ->
  exists l : list Q,
    stilism_local.generate_distances
      (dmin + inject_Z (Z.of_nat k) * dstep) dmin dstep = Ok l
    /\ length l = S k
    /\ (forall i : nat, (i <= k)%nat ->
           l !! i = Some (dmin + inject_Z (Z.of_nat i) * dstep)).
Proof.
  intros Hs. unfold stilism_local.generate_distances, np.arange.
  destruct (Qeq_bool dstep 0) eqn:E.
  { apply Qeq_bool_iff in E. lra. }
  assert (Hlen : np.arange_len dmin
                   (dmin + inject_Z (Z.of_nat k) * dstep + (1 # 10) * dstep)
                   dstep = S k).
  { unfold np.arange_len.
    assert (Hq : (dmin + inject_Z (Z.of_nat k) * dstep + (1 # 10) * dstep - dmin)
                 / dstep == inject_Z (Z.of_nat k) + (1 # 10))
      by (field; lra).
    rewrite (Qceiling_comp _ _ Hq), Qceiling_tenth. lia. }
  rewrite Hlen. eexists. split; [reflexivity|]. split.
  - rewrite length_map, length_seq. reflexivity.
  - intros i Hi. apply lookup_map_seq. split; [reflexivity | lia].
Qed.

(** X1, for 100 pc in ten steps of 10 pc from 0.5 pc. *)
Lemma generate_distances_reaches_max_witness :
  exists l : list Q,
    stilism_local.generate_distances ((1 # 2) + inject_Z (Z.of_nat 10) * 10)
      (1 # 2) 10 = Ok l
    /\ length l = 11%nat
    /\ (forall i : nat, (i <= 10)%nat ->
           l !! i = Some ((1 # 2) + inject_Z (Z.of_nat i) * 10)).
Proof.
  apply (generate_distances_reaches_max (1 # 2) 10 10). reflexivity.
Defined.

(** ** The largest distance inside the cube *)

Section MaxDistance.
Context `{External} (cube : stilism_local.Cube).

(** Whether the point at distance [d] along [(l, b)] lies within the
    last grid points [xl], [yl], [zl] of the axes (lines 72-74). *)
Definition in_cube (xl yl zl l b d : Q) : bool :=
  Qltb (Qabs (d * math_cos (math_radians b) * math_cos (math_radians l))) xl
  && Qltb (Qabs (d * math_cos (math_radians b) * math_sin (math_radians l))) yl
  && Qltb (Qabs (d * math_sin (math_radians b))) zl.

Lemma bInCube_map (xl yl zl l b : Q) (dists : list Q) :
  map (fun '(x, y, z) => Qltb (Qabs x) xl && Qltb (Qabs y) yl && Qltb (Qabs z) zl)
      (stilism_local.zip3 (stilism_local.gal_to_xyz l b dists))
  = map (in_cube xl yl zl l b) dists.
Proof.
  unfold stilism_local.zip3, stilism_local.gal_to_xyz.
  induction dists as [|d dists IH]; simpl; [reflexivity|].
  rewrite <- IH. reflexivity.
Qed.

Lemma find_max_distance_unfold (l b : Q) (dists : list Q) (xl yl zl : Q) :
  dists <> [] ->
  last (stilism_local.x0 cube) = Some xl ->
  last (stilism_local.y0 cube) = Some yl ->
  last (stilism_local.z0 cube) = Some zl ->
  stilism_local.find_max_distance cube l b dists
  = (let* distMax :=
       np.max (np.select (map (in_cube xl yl zl l b) dists) dists) in
     Ok (distMax, map (in_cube xl yl zl l b) dists,
         stilism_local.gal_to_xyz l b dists)).
Proof.
  intros Hne Hx Hy Hz. unfold stilism_local.find_max_distance.
  destruct dists as [|d dists]; [congruence|].
  change (length (d :: dists) <? 1)%nat with false. cbv iota.
  unfold stilism_local.last_item. rewrite Hx, Hy, Hz.
  cbn [bind]. rewrite bInCube_map. reflexivity.
Qed.

End MaxDistance.

Lemma select_elem_of {A : Type} (mask : list bool) (l : list A) (x : A) :
  x ∈ np.select mask l <->
  exists k : nat, mask !! k = Some true /\ l !! k = Some x.
Proof.
  revert l. induction mask as [|m mask IH]; intros [|y l]; simpl.
  - split; [intros Hx; exact (False_ind _ (not_elem_of_nil _ Hx))|].
    intros (k & Hk & _). discriminate Hk.
  - split; [intros Hx; exact (False_ind _ (not_elem_of_nil _ Hx))|].
    intros (k & Hk & _). discriminate Hk.
  - split; [intros Hx; exact (False_ind _ (not_elem_of_nil _ Hx))|].
    intros (k & _ & Hk). discriminate Hk.
  - destruct m.
    + rewrite elem_of_cons, IH. split.
      * intros [->|(k & Hm & Hl)]; [exists 0%nat | exists (S k)]; auto.
      * intros ([|k] & Hm & Hl); simpl in *; [left; congruence | right; eauto].
    + rewrite IH. split.
      * intros (k & Hm & Hl). exists (S k). auto.
      * intros ([|k] & Hm & Hl); simpl in *; [discriminate | eauto].
Qed.

Section MaxDistanceFacts.
Context `{External} (cube : stilism_local.Cube).

(** X2. On a non-empty array, what [find_max_distance] answers is one of
    the supplied distances whose point lies inside the cube, and no
    supplied distance inside the cube is larger; the flags it answers
    tell, distance by distance, whether the point lies inside. *)
Theorem find_max_distance_is_max (l b : Q) (dists : list Q) (xl yl zl distMax : Q)
    (bInCube : list bool) (xyz : list Q * list Q * list Q) :
  dists <> [] ->
  last (stilism_local.x0 cube) = Some xl ->
  last (stilism_local.y0 cube) = Some yl ->
  last (stilism_local.z0 cube) = Some zl ->
  stilism_local.find_max_distance cube l b dists = Ok (distMax, bInCube, xyz) ->
  bInCube = map (in_cube xl yl zl l b) dists
  /\ distMax ∈ dists
  /\ in_cube xl yl zl l b distMax = true
  /\ (forall d : Q, d ∈ dists -> in_cube xl yl zl l b d = true -> d <= distMax).
Proof.
  intros Hne Hx Hy Hz E.
  rewrite (find_max_distance_unfold cube l b dists xl yl zl Hne Hx Hy Hz) in E.
  apply bind_Ok_inv in E as (m & Em & E). injection E as <- <- <-.
  apply max_spec in Em as [Hin Hmax].
  apply select_elem_of in Hin as (k & Hk & Hd).
  rewrite list_lookup_fmap, Hd in Hk. injection Hk as Hk.
  split; [reflexivity|]. split; [apply list_elem_of_lookup; eauto|].
  split; [exact Hk|].
  intros d Hdin Hd'. apply Hmax. apply select_elem_of.
  apply list_elem_of_lookup in Hdin as [j Hj]. exists j.
  rewrite list_lookup_fmap, Hj. simpl. rewrite Hd'. auto.
Qed.

(** X3. When none of the supplied distances has its point inside the
    cube, [find_max_distance] raises the [ValueError] of [np.max] on an
    empty selection. *)
Theorem find_max_distance_none_inside (l b : Q) (dists : list Q) (xl yl zl : Q) :
  dists <> [] ->
  last (stilism_local.x0 cube) = Some xl ->
  last (stilism_local.y0 cube) = Some yl ->
  last (stilism_local.z0 cube) = Some zl ->
  (forall d : Q, d ∈ dists -> in_cube xl yl zl l b d = false) ->
  stilism_local.find_max_distance cube l b dists = Raise ValueError.
Proof.
  intros Hne Hx Hy Hz Hout.
  rewrite (find_max_distance_unfold cube l b dists xl yl zl Hne Hx Hy Hz).
  assert (Hsel : np.select (map (in_cube xl yl zl l b) dists) dists = []).
  { destruct (np.select _ dists) as [|x s] eqn:Es; [reflexivity|].
    assert (Hin : x ∈ np.select (map (in_cube xl yl zl l b) dists) dists)
      by (rewrite Es; left).
    apply select_elem_of in Hin as (k & Hk & Hd).
    rewrite list_lookup_fmap, Hd in Hk. injection Hk as Hk.
    rewrite Hout in Hk by (apply list_elem_of_lookup; eauto). discriminate Hk. }
  rewrite Hsel. reflexivity.
Qed.

End MaxDistanceFacts.

(** X2, on the test cube (axes up to 200 pc): of 50, 150 and 250 pc along
    the x axis, 150 pc is the largest inside. *)
Lemma find_max_distance_is_max_witness :
  [true; true; false] = map (in_cube 200 200 200 0 0) [50; 150; 250]
  /\ 150 ∈ [50; 150; 250]
  /\ in_cube 200 200 200 0 0 150 = true
  /\ (forall d : Q, d ∈ [50; 150; 250] ->
         in_cube 200 200 200 0 0 d = true -> d <= 150).
Proof.
  apply (find_max_distance_is_max Toy.cube 0 0 [50; 150; 250] 200 200 200 150
           [true; true; false]
           (stilism_local.gal_to_xyz 0 0 [50; 150; 250]));
    try discriminate; reflexivity.
Defined.

(** X3, on the test cube: 250 pc and 300 pc along the x axis are both
    outside. *)
Lemma find_max_distance_none_inside_witness :
  stilism_local.find_max_distance Toy.cube 0 0 [250; 300] = Raise ValueError.
Proof.
  apply (find_max_distance_none_inside Toy.cube 0 0 [250; 300] 200 200 200);
    try discriminate; try reflexivity.
  all_members ltac:(reflexivity).
Defined.

(** ** The line integral of [get_ebv_lallement] *)

Lemma call_length (r : scipy.RegularGridInterpolator) (ps : list (Q * Q * Q))
    (vals : list Q) :
  scipy.call r ps = Ok vals -> length vals = length ps.
Proof.
  revert vals. induction ps as [|p ps IH]; intros vals E; simpl in E.
  - injection E as <-. reflexivity.
  - apply bind_Ok_inv in E as (v & _ & E).
    apply bind_Ok_inv in E as (vs & Evs & E). injection E as <-.
    simpl. f_equal. apply IH. exact Evs.
Qed.

Lemma zip3_gal_to_xyz_length `{External} (l b : Q) (d : list Q) :
  length (stilism_local.zip3 (stilism_local.gal_to_xyz l b d)) = length d.
Proof.
  unfold stilism_local.zip3, stilism_local.gal_to_xyz.
  induction d as [|x d IH]; simpl; [reflexivity | f_equal; exact IH].
Qed.

Lemma cumsum_from_length (l : list Q) (acc : Q) :
  length (np.cumsum_from acc l) = length l.
Proof.
  revert acc. induction l as [|x l IH]; intros acc; simpl;
    [reflexivity | f_equal; apply IH].
Qed.

Lemma cumsum_from_head (l : list Q) (acc x : Q) :
  l !! 0%nat = Some x -> np.cumsum_from acc l !! 0%nat = Some (acc + x).
Proof. destruct l as [|y l]; simpl; intros E; congruence. Qed.

Lemma cumsum_from_step (l : list Q) (acc : Q) (k : nat) (ck x : Q) :
  np.cumsum_from acc l !! k = Some ck -> l !! S k = Some x ->
  np.cumsum_from acc l !! S k = Some (ck + x).
Proof.
  revert acc k. induction l as [|y l IH]; intros acc k Hk Hx; simpl in *;
    [discriminate|].
  destruct k as [|k]; simpl in *.
  - injection Hk as <-. apply cumsum_from_head. exact Hx.
  - apply IH; assumption.
Qed.

Section LineIntegral.
Context `{External} (cube : stilism_local.Cube).

(** X4. A supplied array of a single distance cannot be integrated: the
    step width of the first bin is read from the second bin (line 95),
    and [get_ebv_lallement] raises [IndexError]. *)
Theorem get_ebv_lallement_single_distance (l b dist dmin dstep d0 : Q) :
  stilism_local.get_ebv_lallement cube l b dist dmin dstep [d0]
  = Raise IndexError.
Proof. reflexivity. Qed.

(** X5. For at least two supplied distances, the array that
    [get_ebv_lallement] hands back has one value per distance; its first
    value is the first density times the width of the second bin, and
    every later value adds to the one before it the density of its bin
    times the distance from the bin before. *)
Theorem get_ebv_lallement_running_sum (l b dist dmin dstep : Q)
    (distances vals cum d : list Q) (distMax : Q) :
  (2 <= length distances)%nat ->
  scipy.call (stilism_local.rgi cube)
    (stilism_local.zip3 (stilism_local.gal_to_xyz l b distances)) = Ok vals ->
  stilism_local.get_ebv_lallement cube l b dist dmin dstep distances
  = Ok (cum, d, distMax) ->
  length cum = length distances
  /\ (forall v0 d0 d1 : Q,
         vals !! 0%nat = Some v0 ->
         distances !! 0%nat = Some d0 -> distances !! 1%nat = Some d1 ->
         cum !! 0%nat = Some (0 + v0 * (d1 - d0)))
  /\ (forall (k : nat) (ck v dk dk1 : Q),
         cum !! k = Some ck -> vals !! S k = Some v ->
         distances !! k = Some dk -> distances !! S k = Some dk1 ->
         cum !! S k = Some (ck + v * (dk1 - dk))).
Proof.
  intros Hlen Hvals. unfold stilism_local.get_ebv_lallement.
  destruct (length distances <? 1)%nat eqn:E; [apply Nat.ltb_lt in E; lia|].
  simpl. intros Hg.
  apply bind_Ok_inv in Hg as (s1 & Hs1 & Hg). apply getitem_Ok in Hs1.
  apply bind_Ok_inv in Hg as (s0 & _ & Hg).
  apply bind_Ok_inv in Hg as ([[dm bIn] xyz] & Hf & Hg).
  apply (find_max_distance_xyz cube) in Hf as ->; [|lia].
  rewrite Hvals in Hg. simpl in Hg. injection Hg as <- <- <-.
  pose proof (call_length _ _ _ Hvals) as Hvl.
  rewrite zip3_gal_to_xyz_length in Hvl.
  set (steps0 := zip_with Qminus distances (np.roll1 distances)) in *.
  assert (Hsl : length steps0 = length distances).
  { unfold steps0. rewrite length_zip_with_l_eq; [reflexivity|].
    unfold np.roll1. destruct distances as [|x ds]; [reflexivity|].
    rewrite length_app, length_drop, length_take. lia. }
  assert (Hstep : forall (k : nat) (dk dk1 : Q),
             distances !! k = Some dk -> distances !! S k = Some dk1 ->
             steps0 !! S k = Some (dk1 - dk)).
  { intros k dk dk1 Hk Hk1. unfold steps0. apply lookup_zip_with_Some.
    exists dk1, dk. split; [reflexivity|]. split; [exact Hk1|].
    rewrite roll1_lookup_S by (apply lookup_lt_Some in Hk1; exact Hk1).
    exact Hk. }
  split; [|split].
  - unfold np.cumsum. rewrite cumsum_from_length, length_zip_with_l_eq;
      [lia | rewrite length_insert; lia].
  - intros v0 d0 d1 Hv0 Hd0 Hd1.
    apply cumsum_from_head. apply lookup_zip_with_Some.
    exists v0, (d1 - d0). split; [reflexivity|]. split; [exact Hv0|].
    rewrite (Hstep 0%nat d0 d1 Hd0 Hd1) in Hs1. injection Hs1 as <-.
    apply list_lookup_insert_eq. lia.
  - intros k ck v dk dk1 Hck Hv Hdk Hdk1.
    apply cumsum_from_step; [exact Hck|]. apply lookup_zip_with_Some.
    exists v, (dk1 - dk). split; [reflexivity|]. split; [exact Hv|].
    rewrite list_lookup_insert_ne by lia. apply Hstep; assumption.
Qed.

End LineIntegral.

(** X5, on the test cube along the x axis. *)
Lemma get_ebv_lallement_running_sum_witness :
  exists cum vals : list Q,
    scipy.call (stilism_local.rgi Toy.cube)
      (stilism_local.zip3 (stilism_local.gal_to_xyz 0 0 [50; 150; 250])) = Ok vals
    /\ length cum = 3%nat
    /\ (forall v0 d0 d1 : Q,
           vals !! 0%nat = Some v0 ->
           [50; 150; 250] !! 0%nat = Some d0 -> [50; 150; 250] !! 1%nat = Some d1 ->
           cum !! 0%nat = Some (0 + v0 * (d1 - d0)))
    /\ (forall (k : nat) (ck v dk dk1 : Q),
           cum !! k = Some ck -> vals !! S k = Some v ->
           [50; 150; 250] !! k = Some dk -> [50; 150; 250] !! S k = Some dk1 ->
           cum !! S k = Some (ck + v * (dk1 - dk))).
Proof.
  let r := eval vm_compute in
    (stilism_local.get_ebv_lallement Toy.cube 0 0 300 (1 # 2) 5 [50; 150; 250]) in
  let v := eval vm_compute in
    (scipy.call (stilism_local.rgi Toy.cube)
       (stilism_local.zip3 (stilism_local.gal_to_xyz 0 0 [50; 150; 250]))) in
  match r with
  | Ok (?cum, ?d, ?dm) =>
      match v with
      | Ok ?vals =>
          exists cum, vals;
          assert (Ev : scipy.call (stilism_local.rgi Toy.cube)
                         (stilism_local.zip3
                            (stilism_local.gal_to_xyz 0 0 [50; 150; 250]))
                       = Ok vals) by (vm_compute; reflexivity);
          split; [exact Ev|];
          apply (get_ebv_lallement_running_sum Toy.cube 0 0 300 (1 # 2) 5
                   [50; 150; 250] vals cum d dm);
          [simpl; lia | exact Ev | vm_compute; reflexivity]
      end
  end.
Defined.

(** ** The two extinction curves of a sight line *)

Section SightlineCurves.
Context `{External}.

(** X6. After [getBovyEBV] the combined-map curve has one value per
    distance of the sight line and no value below zero: a value the map
    answers below zero is stored as zero, any other as it is. *)
Theorem getBovyEBV_clamped (self : lineofsight.t) :
  length (lineofsight.ebvBovy (lineofsight.getBovyEBV self))
  = length (lineofsight.distsPc self)
  /\ lineofsight.distsPc (lineofsight.getBovyEBV self) = lineofsight.distsPc self
  /\ (forall (k : nat) (d : Q),
         lineofsight.distsPc self !! k = Some d ->
         let raw := Combined19 (lineofsight.l self) (lineofsight.b self) (d / 1000) in
         exists e : Q,
           lineofsight.ebvBovy (lineofsight.getBovyEBV self) !! k = Some e
           /\ 0 <= e
           /\ (raw < 0 -> e = 0) /\ (0 <= raw -> e = raw)).
Proof.
  unfold lineofsight.getBovyEBV. simpl. split; [|split].
  - rewrite !length_map. reflexivity.
  - reflexivity.
  - intros k d Hd. eexists. split.
    + change (map ?f (map ?g ?l)) with (f <$> (g <$> l)).
      rewrite !list_lookup_fmap, Hd. reflexivity.
    + simpl. destruct (Qltb _ 0) eqn:E.
      * apply Qltb_lt in E. split; [lra|]. split; [reflexivity | lra].
      * apply Qltb_ge in E. split; [exact E|]. split; [lra | reflexivity].
Qed.

End SightlineCurves.

(** ** The distance grid, further *)

Section DistanceGrid.
Context `{External} (cube : stilism_local.Cube).

(** The coarse bins that [generateDistances] lays out after the fine ones:
    [n] steps of [s] from the largest fine distance [m], shifted by the
    difference of the first two. *)
Definition coarseBins (m s : Q) (n : nat) : list Q :=
  map (fun i : nat => inject_Z (Z.of_nat i) * s + m + (1 * s + m - (0 * s + m)))
      (seq 0 n).

Lemma generateDistances_Ok (self : lineofsight.t) (Verbose : bool)
    (lim : Q) (close : list Q) :
  lineofsight.distsClose_of cube self = Ok (lim, close) ->
  close <> [] ->
  (2 <= lineofsight.nBinsFar_of (lineofsight.nDistBins self) close)%Z ->
  (Verbose = false \/ (2 <= length close)%nat) ->
  exists (self' : lineofsight.t) (m : Q),
    np.max close = Ok m
    /\ lineofsight.generateDistances cube self Verbose = Ok self'
    /\ lineofsight.distLimPc self' = lim
    /\ lineofsight.distsPc self'
       = close ++ coarseBins m
                    ((lineofsight.distMaxCoarsePc self - m)
                     / inject_Z (lineofsight.nBinsFar_of
                                   (lineofsight.nDistBins self) close))
                    (Z.to_nat (lineofsight.nBinsFar_of
                                 (lineofsight.nDistBins self) close)).
Proof.
  intros Ec Hne Hn HV. unfold lineofsight.generateDistances.
  rewrite Ec. cbn [bind].
  destruct (max_total close Hne) as [m Em]. rewrite Em. cbn [bind].
  set (n := lineofsight.nBinsFar_of (lineofsight.nDistBins self) close) in *.
  unfold np.linspace_open.
  destruct (n <? 0)%Z eqn:E; [apply Z.ltb_lt in E; lia|]. cbn [bind].
  set (s := (lineofsight.distMaxCoarsePc self - m) / inject_Z n).
  set (far0 := map (fun i : nat => inject_Z (Z.of_nat i) * s + m)
                   (seq 0 (Z.to_nat n))).
  assert (H1 : np.getitem far0 1 = Ok (inject_Z (Z.of_nat 1) * s + m)).
  { apply getitem_Ok, lookup_map_seq. split; [reflexivity | lia]. }
  assert (H0 : np.getitem far0 0 = Ok (inject_Z (Z.of_nat 0) * s + m)).
  { apply getitem_Ok, lookup_map_seq. split; [reflexivity | lia]. }
  rewrite H1. cbn [bind]. rewrite H0. cbn [bind].
  set (far := map (fun d => d + _) far0).
  assert (Hfar : far = coarseBins m s (Z.to_nat n)).
  { unfold far, far0, coarseBins. rewrite map_map. reflexivity. }
  assert (Hne' : close ++ far <> []).
  { destruct close; [congruence | discriminate]. }
  destruct (max_total _ Hne') as [dmax Edmax].
  assert (Emin : exists dmin, np.min (close ++ far) = Ok dmin).
  { destruct (close ++ far); [congruence | simpl; eauto]. }
  destruct Emin as [dmin Edmin].
  rewrite Edmin. cbn [bind]. rewrite Edmax. cbn [bind].
  assert (EV : (if Verbose
                then let* c1 := np.getitem close 1 in
                     let* c0 := np.getitem close 0 in
                     let* f1 := np.getitem far 1 in
                     let* f0 := np.getitem far 0 in Ok ()
                else Ok ()) = Ok ()).
  { destruct Verbose; [|reflexivity].
    destruct HV as [HV|HV]; [discriminate|].
    destruct close as [|c0 [|c1 close']]; simpl in HV; try lia.
    cbn. rewrite Hfar. unfold coarseBins.
    assert (F1 : np.getitem (map (fun i : nat =>
                   inject_Z (Z.of_nat i) * s + m + (1 * s + m - (0 * s + m)))
                   (seq 0 (Z.to_nat n))) 1
                 = Ok (inject_Z (Z.of_nat 1) * s + m + (1 * s + m - (0 * s + m)))).
    { apply getitem_Ok, lookup_map_seq. split; [reflexivity | lia]. }
    assert (F0 : np.getitem (map (fun i : nat =>
                   inject_Z (Z.of_nat i) * s + m + (1 * s + m - (0 * s + m)))
                   (seq 0 (Z.to_nat n))) 0
                 = Ok (inject_Z (Z.of_nat 0) * s + m + (1 * s + m - (0 * s + m)))).
    { apply getitem_Ok, lookup_map_seq. split; [reflexivity | lia]. }
    rewrite F1. cbn [bind]. rewrite F0. reflexivity. }
  rewrite EV. cbn [bind].
  eexists _, m. split; [reflexivity|]. split; [reflexivity|].
  simpl. split; [reflexivity|]. rewrite Hfar. reflexivity.
Qed.

End DistanceGrid.

Section DistanceGridFacts.
Context `{External} (cube : stilism_local.Cube).

(** X7. When the fine bins (there is at least one) leave room for at
    least two coarse bins, and the call is made without [Verbose] or
    there are at least two fine bins, [generateDistances] returns, and
    the distance array it builds has exactly [nDistBins] elements, begins
    with the fine bins, and the limit it records is the fine limit. *)
Theorem generateDistances_exact_length (self : lineofsight.t) (Verbose : bool)
    (lim : Q) (close : list Q) :
  lineofsight.distsClose_of cube self = Ok (lim, close) ->
  close <> [] ->
  (Z.of_nat (length close) + 2 <= lineofsight.nDistBins self)%Z ->
  (Verbose = false \/ (2 <= length close)%nat) ->
  exists self' : lineofsight.t,
    lineofsight.generateDistances cube self Verbose = Ok self'
    /\ Z.of_nat (length (lineofsight.distsPc self')) = lineofsight.nDistBins self
    /\ take (length close) (lineofsight.distsPc self') = close
    /\ lineofsight.distLimPc self' = lim.
Proof.
  intros Ec Hne Hn HV.
  assert (Hfar : lineofsight.nBinsFar_of (lineofsight.nDistBins self) close
                 = (lineofsight.nDistBins self - Z.of_nat (length close))%Z).
  { unfold lineofsight.nBinsFar_of.
    destruct (_ <? 0)%Z eqn:E; [apply Z.ltb_lt in E; lia | reflexivity]. }
  destruct (generateDistances_Ok cube self Verbose lim close Ec Hne)
    as (self' & m & _ & Eg & Hl & Hd); [lia | exact HV |].
  exists self'. split; [exact Eg|]. rewrite Hd. split; [|split].
  - unfold coarseBins. rewrite length_app, length_map, length_seq, Hfar. lia.
  - rewrite take_app_length. reflexivity.
  - exact Hl.
Qed.

(** X8. When the fine bins (there is at least one) alone outnumber
    [nDistBins], and the call is made without [Verbose] or there are at
    least two fine bins, [generateDistances] does not fail: it lays out
    ten coarse bins after the fine ones, so the array is longer than
    asked for. *)
Theorem generateDistances_fallback (self : lineofsight.t) (Verbose : bool)
    (lim : Q) (close : list Q) :
  lineofsight.distsClose_of cube self = Ok (lim, close) ->
  close <> [] ->
  (lineofsight.nDistBins self < Z.of_nat (length close))%Z ->
  (Verbose = false \/ (2 <= length close)%nat) ->
  exists self' : lineofsight.t,
    lineofsight.generateDistances cube self Verbose = Ok self'
    /\ length (lineofsight.distsPc self') = (length close + 10)%nat
    /\ take (length close) (lineofsight.distsPc self') = close.
Proof.
  intros Ec Hne Hn HV.
  assert (Hfar : lineofsight.nBinsFar_of (lineofsight.nDistBins self) close = 10%Z).
  { unfold lineofsight.nBinsFar_of.
    destruct (_ <? 0)%Z eqn:E; [reflexivity | apply Z.ltb_ge in E; lia]. }
  destruct (generateDistances_Ok cube self Verbose lim close Ec Hne)
    as (self' & m & _ & Eg & Hl & Hd); [lia | exact HV |].
  exists self'. split; [exact Eg|]. rewrite Hd, Hfar. split.
  - unfold coarseBins. rewrite length_app, length_map, length_seq. lia.
  - rewrite take_app_length. reflexivity.
Qed.

End DistanceGridFacts.

Section DistanceGridCeiling.
Context `{External} (cube : stilism_local.Cube).

Lemma coarseBins_last (m c : Q) (n : Z) (x : Q) :
  (2 <= n)%Z ->
  last (coarseBins m ((c - m) / inject_Z n) (Z.to_nat n)) = Some x ->
  x == c.
Proof.
  intros Hn Hl. rewrite last_lookup in Hl. unfold coarseBins in Hl.
  rewrite length_map, length_seq in Hl.
  apply lookup_map_seq in Hl as [-> _].
  replace (Z.of_nat (pred (Z.to_nat n))) with (n + -1)%Z by lia.
  rewrite inject_Z_plus. change (inject_Z (-1)) with (-1).
  assert (Hpos : 0 < inject_Z n)
    by (change 0 with (inject_Z 0); rewrite <- Zlt_Qlt; lia).
  field. lra.
Qed.

(** X9. The distance array that [generateDistances] builds ends at the
    coarse ceiling [distMaxCoarsePc]: shifting the open-ended coarse bins
    by one step puts the last of them on the end point. *)
Theorem generateDistances_ends_at_ceiling (self : lineofsight.t) (Verbose : bool)
    (lim : Q) (close : list Q) :
  lineofsight.distsClose_of cube self = Ok (lim, close) ->
  close <> [] ->
  (2 <= lineofsight.nBinsFar_of (lineofsight.nDistBins self) close)%Z ->
  (Verbose = false \/ (2 <= length close)%nat) ->
  exists (self' : lineofsight.t) (x : Q),
    lineofsight.generateDistances cube self Verbose = Ok self'
    /\ last (lineofsight.distsPc self') = Some x
    /\ x == lineofsight.distMaxCoarsePc self.
Proof.
  intros Ec Hne Hn HV.
  destruct (generateDistances_Ok cube self Verbose lim close Ec Hne Hn HV)
    as (self' & m & _ & Eg & _ & Hd).
  set (n := lineofsight.nBinsFar_of (lineofsight.nDistBins self) close) in *.
  set (far := coarseBins m ((lineofsight.distMaxCoarsePc self - m) / inject_Z n)
                         (Z.to_nat n)) in *.
  assert (Hfar : far <> []).
  { intros E. apply (f_equal length) in E. unfold far, coarseBins in E.
    rewrite length_map, length_seq in E. simpl in E. lia. }
  destruct (proj2 (last_is_Some far) Hfar) as [x Hx].
  exists self', x. split; [exact Eg|]. split.
  - rewrite Hd, last_app, Hx. reflexivity.
  - eapply coarseBins_last; eassumption.
Qed.

End DistanceGridCeiling.

(** The fine bins of the sight lines of the test double. *)
Ltac with_fine_bins los tac :=
  let c := eval vm_compute in (lineofsight.distsClose_of Toy.cube los) in
  match c with
  | Ok (?lim, ?close) =>
      let Ec := fresh "Ec" in
      assert (Ec : lineofsight.distsClose_of Toy.cube los = Ok (lim, close))
        by (vm_compute; reflexivity);
      tac lim close Ec
  end.

(** X7, on the test double: 16 fine bins and a total of 18. *)
Lemma generateDistances_exact_length_witness :
  exists self' : lineofsight.t,
    lineofsight.generateDistances Toy.cube (Toy.los 18) false = Ok self'
    /\ Z.of_nat (length (lineofsight.distsPc self')) = 18%Z.
Proof.
  with_fine_bins (Toy.los 18) ltac:(fun lim close Ec =>
    destruct (generateDistances_exact_length Toy.cube (Toy.los 18) false
                lim close Ec) as (self' & Eg & Hlen & _);
    [discriminate | simpl; lia | left; reflexivity |];
    exists self'; split; [exact Eg | exact Hlen]).
Defined.

(** X8, on the test double: 16 fine bins and a total of 10. *)
Lemma generateDistances_fallback_witness :
  exists self' : lineofsight.t,
    lineofsight.generateDistances Toy.cube (Toy.los 10) false = Ok self'
    /\ length (lineofsight.distsPc self') = 26%nat.
Proof.
  with_fine_bins (Toy.los 10) ltac:(fun lim close Ec =>
    destruct (generateDistances_fallback Toy.cube (Toy.los 10) false
                lim close Ec) as (self' & Eg & Hlen & _);
    [discriminate | simpl; lia | left; reflexivity |];
    exists self'; split; [exact Eg | exact Hlen]).
Defined.

(** X9, on the test double: the array of 18 bins ends at 15000 pc. *)
Lemma generateDistances_ends_at_ceiling_witness :
  exists (self' : lineofsight.t) (x : Q),
    lineofsight.generateDistances Toy.cube (Toy.los 18) false = Ok self'
    /\ last (lineofsight.distsPc self') = Some x
    /\ x == 15000.
Proof.
  with_fine_bins (Toy.los 18) ltac:(fun lim close Ec =>
    apply (generateDistances_ends_at_ceiling Toy.cube (Toy.los 18) false
             lim close Ec);
    [discriminate | vm_compute; discriminate | left; reflexivity]).
Defined.

(** ** The samples about a sight line *)

Section Sampling.
Context `{External}.

(** X10. Of the offset samples that [hybridSightline] draws, the flags
    keep exactly those that lie farther than [collisionArcmin] from the
    centre (in the flat measure of line 484) at a latitude between -90
    and 90 degrees; longitudes, latitudes and flags run over the same
    samples. *)
Theorem sampleGrid_keeps_distinct_samples (a : hs.kwargs) (lCen bCen : Q)
    (vL vB : list Q) (keep : list bool) :
  sampleGrid a = Ok (lCen, bCen, vL, vB, keep) ->
  length vB = length vL /\ length keep = length vL
  /\ (forall (k : nat) (l b : Q),
         vL !! k = Some l -> vB !! k = Some b ->
         exists f : bool,
           keep !! k = Some f
           /\ (f = true <->
               hs.collisionArcmin a ^ 2 < ((l - lCen) ^ 2 + (b - bCen) ^ 2) * 3600
               /\ -90 <= b /\ b <= 90)).
Proof.
  unfold sampleGrid. intros E.
  apply bind_Ok_inv in E as (tl & _ & E).
  apply bind_Ok_inv in E as (tb & _ & E).
  destruct (if (hs.hpid a <? 0)%Z then _ else _) as [[[raCen deCen] lC] bC].
  match type of E with
  | context [map icrs_to_galactic ?z] => set (gal := map icrs_to_galactic z) in *
  end.
  injection E as <- <- <- <- <-.
  assert (Hlen : length (map (fun lb : Q * Q => lb.2) gal)
                 = length (map (fun lb : Q * Q =>
                                  if Qltb 180 lb.1 then lb.1 - 360 else lb.1) gal))
    by (rewrite !length_map; reflexivity).
  split; [exact Hlen|]. split.
  - rewrite !length_zip_with_l_eq; rewrite ?length_zip_with_l_eq; auto.
  - intros k l b Hl Hb. eexists. split.
    + apply lookup_zip_with_Some. eexists _, b. split; [reflexivity|].
      split; [|exact Hb].
      apply lookup_zip_with_Some. exists l, b. auto.
    + simpl. rewrite !andb_true_iff, Qltb_lt, !Qleb_le. tauto.
Qed.

End Sampling.

(** X10, on the call of the test double: the one sample, a degree away in
    both coordinates, is kept. *)
Lemma sampleGrid_keeps_distinct_samples_witness :
  length [-60 # 60] = length [-60 # 60] /\ length [true] = length [-60 # 60]
  /\ (forall (k : nat) (l b : Q),
         [-60 # 60] !! k = Some l -> [-60 # 60] !! k = Some b ->
         exists f : bool,
           [true] !! k = Some f
           /\ (f = true <->
               hs.collisionArcmin Toy.batchCall ^ 2
               < ((l - 0) ^ 2 + (b - 0) ^ 2) * 3600
               /\ -90 <= b /\ b <= 90)).
Proof.
  apply (sampleGrid_keeps_distinct_samples Toy.batchCall 0 0
           [-60 # 60] [-60 # 60] [true]).
  vm_compute. reflexivity.
Defined.

(** ** The comparison distance *)

Section ComparisonDistance.
Context `{External}.

(** X11. The comparison distance is the default, the distance limit times
    [distFrac], unless it is set dynamically to a median distance that
    lies beyond [minDistL19] and within the distance limit, in a bin where
    both median curves are positive and the ratio of the combined map to
    the cube map differs from 1 by less than [diffRatioMin]. *)
Theorem distCompare_default_or_agreeing_bin (a : hs.kwargs) (lim : Q)
    (d L B : list Q) (dc : Q) :
  distCompare_of a lim d L B = Ok dc ->
  dc = lim * hs.distFrac a
  \/ (hs.setLimDynamically a = true
      /\ hs.minDistL19 a < dc /\ dc <= lim
      /\ exists (k : nat) (l19 bov : Q),
           d !! k = Some dc /\ L !! k = Some l19 /\ B !! k = Some bov
           /\ 0 < l19 /\ 0 < bov
           /\ Qabs (bov / l19 - 1) < hs.diffRatioMin a).
Proof.
  unfold distCompare_of. intros E.
  destruct (hs.setLimDynamically a); [|left; congruence].
  apply bind_Ok_inv in E as (u1 & _ & E).
  apply bind_Ok_inv in E as (u2 & _ & E).
  destruct (0 <? np.count _)%nat; [|left; congruence].
  apply bind_Ok_inv in E as (m & Em & E).
  destruct (Qltb (hs.minDistL19 a) m) eqn:Emin; [|left; congruence].
  injection E as <-. right. apply Qltb_lt in Emin.
  apply max_spec in Em as [Hin _].
  apply select_elem_of in Hin as (k & Hk & Hd).
  apply lookup_zip_with_Some in Hk as (dk & [l19 bov] & Hf & Hdk & Hz).
  rewrite Hd in Hdk. injection Hdk as <-.
  apply lookup_zip_with_Some in Hz as (l19' & bov' & Hp & HL & HB).
  injection Hp as <- <-. simpl in Hf. symmetry in Hf.
  rewrite !andb_true_iff, Qleb_le, !Qltb_lt in Hf.
  destruct Hf as [[[Hlim Hl] Hb] Hr].
  split; [reflexivity|]. split; [exact Emin|]. split; [exact Hlim|].
  exists k, l19, bov. auto 10.
Qed.

End ComparisonDistance.

(** X11, on medians that agree at 1500 pc, with the defaults of
    [hybridSightline]. *)
Lemma distCompare_default_or_agreeing_bin_witness :
  1500 = 2000 * hs.distFrac hs.defaults
  \/ (hs.setLimDynamically hs.defaults = true
      /\ hs.minDistL19 hs.defaults < 1500 /\ 1500 <= 2000
      /\ exists (k : nat) (l19 bov : Q),
           [500; 1500; 3000] !! k = Some 1500
           /\ [1; 2; 2] !! k = Some l19 /\ [3; 2; 4] !! k = Some bov
           /\ 0 < l19 /\ 0 < bov
           /\ Qabs (bov / l19 - 1) < hs.diffRatioMin hs.defaults).
Proof.
  apply (distCompare_default_or_agreeing_bin hs.defaults 2000
           [500; 1500; 3000] [1; 2; 2] [3; 2; 4] 1500).
  vm_compute. reflexivity.
Defined.

(** ** What [hybridSightline] hands back *)

Section Returned.
Context `{External} (cube : stilism_local.Cube).

(** X12. The merged curve has one value per median distance. *)
Theorem hybridCurve_lengths (a : hs.kwargs) (e d : list Q) (rv : Q) :
  hybridCurve cube a = Ok (Some (e, d, rv)) -> length e = length d.
Proof.
  intros E. apply hybridCurve_inv in E as (lim & L & B & _ & E).
  apply mergeCurves_inv in E as (dc & i & _ & _ & _ & E).
  unfold ebvHybrid_of in E.
  apply bind_Ok_inv in E as (h1 & E1 & E2).
  apply putmask_Ok in E1 as (Hd1 & Hs1 & ->).
  apply putmask_Ok in E2 as (Hd2 & Hs2 & ->).
  rewrite length_map in Hd2, Hs2.
  assert (Hw : forall (flags : list bool) (src dst : list Q),
             length flags = length dst -> length flags = length src ->
             length (np.where3 flags src dst) = length dst).
  { induction flags as [|m flags IH]; intros [|s0 src] [|d0 dst]; simpl;
      intros G1 G2; try discriminate; auto. }
  rewrite Hw by (rewrite length_map; assumption).
  rewrite Hw by assumption.
  rewrite <- Hd1, length_map. reflexivity.
Qed.

End Returned.

(** X12, on the test double. *)
Lemma hybridCurve_lengths_witness :
  length [1000000 # 2000000; 1000000 # 2000000; 2000000 # 2000000]
  = length [500 # 2; 1000 # 2; 2000 # 2].
Proof.
  apply (hybridCurve_lengths Toy.cube Toy.atFloor _ _ 1).
  vm_compute. reflexivity.
Defined.

Section ReturnedValues.
Context `{External} (cube : stilism_local.Cube).

(** X13. Whatever [hybridSightline] returns without raising: nothing
    when [returnValues] is not set; otherwise the merged curve and the
    median distances that it computed, with in the third place the scale
    factor of the merge when plots are made, and the constant 1 when they
    are not. *)
Theorem hybridSightline_returns (a : hs.kwargs)
    (r : option (list Q * list Q * Q)) :
  hybridSightline cube a = Ok r ->
  (hs.returnValues a = false -> r = None)
  /\ (forall (e d : list Q) (s : Q),
         r = Some (e, d, s) ->
         hs.returnValues a = true
         /\ exists rv : Q,
              hybridCurve cube a = Ok (Some (e, d, rv))
              /\ s = if hs.doPlots a then rv else 1).
Proof.
  unfold hybridSightline. intros E.
  apply bind_Ok_inv in E as ([[[e' d'] rv]|] & Ec & E).
  - destruct (hs.doPlots a), (hs.returnValues a); simpl in E;
      injection E as <-; (split; [intros; congruence|]);
      intros e d s Hr; try discriminate Hr;
      injection Hr as <- <- <-; (split; [reflexivity|]); exists rv; auto.
  - injection E as <-. split; [reflexivity|]. intros e d s Hr. discriminate Hr.
Qed.

End ReturnedValues.

(** X13, at the call that [loopSightlines] makes on the test double. *)
Lemma hybridSightline_returns_witness :
  exists r : option (list Q * list Q * Q),
    hybridSightline Toy.cube Toy.batchCall = Ok r
    /\ (hs.returnValues Toy.batchCall = false -> r = None)
    /\ (forall (e d : list Q) (s : Q),
           r = Some (e, d, s) ->
           hs.returnValues Toy.batchCall = true
           /\ exists rv : Q,
                hybridCurve Toy.cube Toy.batchCall = Ok (Some (e, d, rv))
                /\ s = if hs.doPlots Toy.batchCall then rv else 1).
Proof.
  let v := eval vm_compute in (hybridSightline Toy.cube Toy.batchCall) in
  match v with
  | Ok ?r =>
      exists r;
      assert (E : hybridSightline Toy.cube Toy.batchCall = Ok r)
        by (vm_compute; reflexivity);
      split; [exact E | exact (hybridSightline_returns Toy.cube Toy.batchCall r E)]
  end.
Defined.

(** X14, on the test double with [fracPix = 0]: no sample is kept and
    [None] is handed back. *)
Lemma hybridSightline_unsampled_witness :
  hybridSightline Toy.cube (loopArgs 1 20 false 1 1 false 0 0) = Ok None.
Proof.
  apply (hybridSightline_unsampled Toy.cube (loopArgs 1 20 false 1 1 false 0 0)
           0 0 [0 # 60] [0 # 60] [false]); vm_compute; reflexivity.
Defined.

(** ** The batch loop, further *)

Section BatchLoop.
Context `{External} `{Astropy} (cube : stilism_local.Cube).

(** The pixel ids, the arrays and the metadata that [loopSightlines]
    sets up at lines 795-833 for a range that needs no clipping. *)
Definition batchIds (imin imax : Z) : list Z :=
  map (fun k : nat => (imin + Z.of_nat k)%Z) (seq 0 (Z.to_nat (imax - imin))).

Definition batchArrays (nSightlines nbins : Z) : res chunk :=
  let* dists := full2 0 nSightlines nbins in
  let* ebvs := full2 0 nSightlines nbins in
  let* sfacs := full1 1 nSightlines in
  Ok {| c_dists := dists; c_ebvs := ebvs; c_sfacs := sfacs |}.

Definition batchMeta (nside imin imax nbins : Z) (nested : bool) (nl nb : Z)
    (fracPix : Q) : list (string * fits.card) :=
  [("nside", fits.CInt nside); ("nested", fits.CBool nested);
   ("hpmin", fits.CInt imin); ("hpmax", fits.CInt imax);
   ("nbins", fits.CInt nbins); ("nl", fits.CInt nl); ("nb", fits.CInt nb);
   ("fracPix", fits.CFloat fracPix)].

(** X16. Over a range of at least one pixel, [loopSightlines] never ends
    normally.  If the arrays cannot be made, or a turn of the loop
    raises, that exception comes out; and if every turn of the loop goes
    through, the last call of [writeExtmap] raises [AttributeError], for
    it receives the output path in the place of the metadata, and the
    disk is left as the loop left it. *)
Theorem loopSightlines_always_raises (nside imin imax nbins : Z) (nested : bool)
    (nl nb : Z) (tellTime : bool) (reportInterval : Z)
    (fitsPath dirChunks : string) (fracPix : Q) (fs : disk) :
  (0 <= imin)%Z -> (imin < imax)%Z -> (imax <= hp_nside2npix nside)%Z ->
  let run := loopSightlines cube nside imin imax nbins nested nl nb tellTime
               reportInterval fitsPath dirChunks fracPix fs in
  (exists e : exn, run.2 = Raise e)
  /\ match batchArrays (imax - imin) nbins with
     | Raise e => run = (fs, Raise e)
     | Ok st =>
         match loopFrom
                 (loopBody cube nside nbins nested nl nb tellTime reportInterval
                    (chunkPath nside imin imax fitsPath dirChunks) fracPix
                    (batchMeta nside imin imax nbins nested nl nb fracPix)
                    (batchIds imin imax))
                 (seq 0 (length (batchIds imin imax))) st fs with
         | (fs', Raise e) => run = (fs', Raise e)
         | (fs', Ok _) => run = (fs', Raise AttributeError)
         end
     end.
Proof.
  intros Hlo Hlt Hhi run.
  assert (Hrun : match batchArrays (imax - imin) nbins with
     | Raise e => run = (fs, Raise e)
     | Ok st =>
         match loopFrom
                 (loopBody cube nside nbins nested nl nb tellTime reportInterval
                    (chunkPath nside imin imax fitsPath dirChunks) fracPix
                    (batchMeta nside imin imax nbins nested nl nb fracPix)
                    (batchIds imin imax))
                 (seq 0 (length (batchIds imin imax))) st fs with
         | (fs', Raise e) => run = (fs', Raise e)
         | (fs', Ok _) => run = (fs', Raise AttributeError)
         end
     end).
  { subst run. unfold loopSightlines.
    assert (E1 : ((imax <? 0)%Z || (hp_nside2npix nside <? imax)%Z) = false).
    { apply orb_false_iff. split; apply Z.ltb_ge; lia. }
    rewrite E1.
    assert (E2 : (imax <? imin)%Z = false) by (apply Z.ltb_ge; lia).
    rewrite E2.
    change (map (fun k : nat => (imin + Z.of_nat k)%Z)
              (seq 0 (Z.to_nat (imax - imin)))) with (batchIds imin imax).
    change [("nside", fits.CInt nside); ("nested", fits.CBool nested);
            ("hpmin", fits.CInt imin); ("hpmax", fits.CInt imax);
            ("nbins", fits.CInt nbins); ("nl", fits.CInt nl); ("nb", fits.CInt nb);
            ("fracPix", fits.CFloat fracPix)]
      with (batchMeta nside imin imax nbins nested nl nb fracPix).
    change (let* dists := full2 0 (imax - imin) nbins in
            let* ebvs := full2 0 (imax - imin) nbins in
            let* sfacs := full1 1 (imax - imin) in
            Ok {| c_dists := dists; c_ebvs := ebvs; c_sfacs := sfacs |})
      with (batchArrays (imax - imin) nbins).
    assert (Hlen : (length (batchIds imin imax) <? 1)%nat = false).
    { apply Nat.ltb_ge. unfold batchIds. rewrite length_map, length_seq. lia. }
    destruct (batchArrays (imax - imin) nbins) as [st|e]; [|reflexivity].
    destruct (loopFrom _ _ st fs) as [fs' [st'|e]]; [|reflexivity].
    unfold writeExtmap. rewrite Hlen. reflexivity. }
  split; [|exact Hrun].
  destruct (batchArrays (imax - imin) nbins) as [st|e];
    [|exists e; rewrite Hrun; reflexivity].
  destruct (loopFrom _ _ st fs) as [fs' [st'|e]];
    [exists AttributeError|exists e]; rewrite Hrun; reflexivity.
Qed.

(** X17. A turn of the loop that does not raise stores the constant 1 as
    the scale factor of its pixel and leaves the scale factors of the
    other pixels alone: the calls are made without plots, and without
    plots [hybridSightline] hands back 1. *)
Theorem loopBody_stores_unit_factor (nside nbins : Z) (nested : bool) (nl nb : Z)
    (tellTime : bool) (reportInterval : Z) (fitsPath : string) (fracPix : Q)
    (dMeta : list (string * fits.card)) (hpids : list Z) (iHP : nat)
    (st st' : chunk) (fs fs' : disk) :
  loopBody cube nside nbins nested nl nb tellTime reportInterval fitsPath
           fracPix dMeta hpids iHP st fs = (fs', Ok st') ->
  c_sfacs st' = <[iHP := 1]> (c_sfacs st)
  /\ c_sfacs st' !! iHP = Some 1.
Proof.
  unfold loopBody. intros E.
  match type of E with
  | (match ?u with _ => _ end) = _ => destruct u as [[st1 due]|e] eqn:Eu
  end; [|discriminate].
  assert (Hst : st' = st1).
  { destruct due; [|congruence].
    destruct (writeExtmap _ _ _ _ _ _ _ _ _); congruence. }
  subst st1. clear E.
  apply bind_Ok_inv in Eu as (hpid & _ & Eu).
  apply bind_Ok_inv in Eu as (r & Er & Eu).
  apply bind_Ok_inv in Eu as ([[ebvsThis distsThis] rvFactor] & Eun & Eu).
  destruct r as [r|]; [|discriminate]. injection Eun as ->.
  apply (hybridSightline_noplot cube) in Er; [|reflexivity]. subst rvFactor.
  apply bind_Ok_inv in Eu as (dists & _ & Eu).
  apply bind_Ok_inv in Eu as (ebvs & _ & Eu).
  apply bind_Ok_inv in Eu as (x & Ex & Eu). apply getitem_Ok in Ex.
  assert (Hs : c_sfacs st' = <[iHP := 1]> (c_sfacs st)).
  { destruct (reportInterval <=? Z.of_nat iHP)%Z;
      [destruct (reportInterval =? 0)%Z; [discriminate|]|];
      injection Eu as <- _; reflexivity. }
  split; [exact Hs|]. rewrite Hs.
  apply list_lookup_insert_eq. eapply lookup_lt_Some. exact Ex.
Qed.

End BatchLoop.

(** X16, on the test double: three pixels, every turn goes through
    without a write, and the batch ends with the [AttributeError] of the
    last call on a disk that is still empty. *)
Lemma loopSightlines_always_raises_witness :
  loopSightlines Toy.cube 1 0 3 20 false 1 1 false 100 "" "" 1 ∅
  = (∅, Raise AttributeError).
Proof.
  pose proof (loopSightlines_always_raises Toy.cube 1 0 3 20 false 1 1 false 100
                "" "" 1 ∅) as Hrun.
  cbv zeta in Hrun.
  destruct Hrun as [_ Hrun]; [lia | lia | vm_compute; congruence |].
  let v := eval vm_compute in (batchArrays (3 - 0) 20) in
  match v with
  | Ok ?st =>
      assert (Ea : batchArrays (3 - 0) 20 = Ok st) by (vm_compute; reflexivity);
      rewrite Ea in Hrun;
      let w := eval vm_compute in
        (loopFrom
           (loopBody Toy.cube 1 20 false 1 1 false 100 (chunkPath 1 0 3 "" "") 1
              (batchMeta 1 0 3 20 false 1 1 1) (batchIds 0 3))
           (seq 0 (length (batchIds 0 3))) st ∅) in
      match w with
      | (?fs', Ok ?st') =>
          assert (El : loopFrom
                         (loopBody Toy.cube 1 20 false 1 1 false 100
                            (chunkPath 1 0 3 "" "") 1
                            (batchMeta 1 0 3 20 false 1 1 1) (batchIds 0 3))
                         (seq 0 (length (batchIds 0 3))) st ∅ = (fs', Ok st'))
            by (vm_compute; reflexivity);
          rewrite El in Hrun; exact Hrun
      end
  end.
Defined.

(** X17, on the test double: the turn of pixel 0, with scale factors that
    stood at 5 before. *)
Lemma loopBody_stores_unit_factor_witness :
  exists st' : chunk,
    c_sfacs st' = <[0%nat := 1]> [5; 5; 5]
    /\ c_sfacs st' !! 0%nat = Some 1.
Proof.
  pose (st := {| c_dists := replicate 3 (replicate 20 0);
                 c_ebvs := replicate 3 (replicate 20 0);
                 c_sfacs := [5; 5; 5] |}).
  let v := eval vm_compute in
    (loopBody Toy.cube 1 20 false 1 1 false 100 "out.fits" 1 Toy.tileMeta
       [0%Z; 1%Z; 2%Z] 0 st ∅) in
  match v with
  | (?fs', Ok ?st') =>
      exists st';
      apply (loopBody_stores_unit_factor Toy.cube 1 20 false 1 1 false 100
               "out.fits" 1 Toy.tileMeta [0%Z; 1%Z; 2%Z] 0 st st' ∅ fs');
      vm_compute; reflexivity
  end.
Defined.

(** ** Rows slotted into the all-sky map *)

Lemma assign_lookup_at {A : Type} (idx : list nat) (arr data : list A)
    (k i : nat) (d : A) :
  idx !! k = Some i -> data !! k = Some d -> (i < length arr)%nat ->
  (forall k' : nat, idx !! k' = Some i -> k' = k) ->
  assign arr idx data !! i = Some d.
Proof.
  revert arr data k. induction idx as [|j idx IH]; intros arr data k Hi Hd Hlt Hu.
  - discriminate Hi.
  - destruct data as [|d0 data]; [discriminate Hd|]. simpl.
    destruct k as [|k]; simpl in Hi, Hd.
    + injection Hi as ->. injection Hd as ->.
      rewrite assign_lookup_notin.
      * apply list_lookup_insert_eq. exact Hlt.
      * intros Hin. apply list_elem_of_lookup in Hin as [k' Hk'].
        specialize (Hu (S k') Hk'). discriminate Hu.
    + apply (IH _ _ k Hi Hd); [rewrite length_insert; exact Hlt|].
      intros k' Hk'. specialize (Hu (S k') Hk'). congruence.
Qed.

Lemma py_indices_lookup (n : nat) (rows : list Z) (idx : list nat) (k : nat) :
  py_indices n rows = Ok idx ->
  forall i : nat,
    idx !! k = Some i <-> exists p : Z, rows !! k = Some p /\ py_index n p = Ok i.
Proof.
  revert idx k. induction rows as [|p rows IH]; intros idx k E i; simpl in E.
  - injection E as <-. split; [intros Hk; discriminate Hk|].
    intros (q & Hq & _). discriminate Hq.
  - apply bind_Ok_inv in E as (j & Ej & E).
    apply bind_Ok_inv in E as (js & Ejs & E). injection E as <-.
    destruct k as [|k]; simpl.
    + split.
      * intros Hk. injection Hk as <-. eauto.
      * intros (q & Hq & Eq). injection Hq as <-. congruence.
    + apply IH. exact Ejs.
Qed.

(** A master whose four arrays have [n] rows. *)
Definition master_rows (m : master) (n : nat) : Prop :=
  length (distsMaster m) = n /\ length (ebvsMaster m) = n
  /\ length (sfacsMaster m) = n /\ length (maskMaster m) = n.

Lemma setitems_Ok (arr : list Q) (rows : list Z) (d : fits.ndarray) (arr' : list Q) :
  setitems arr rows d = Ok arr' ->
  exists (idx : list nat) (v : list Q),
    py_indices (length arr) rows = Ok idx /\ d = fits.A1 v
    /\ length v = length rows /\ arr' = assign arr idx v.
Proof.
  unfold setitems. intros E. apply bind_Ok_inv in E as (idx & Ei & E).
  destruct d as [v|m]; [|discriminate].
  destruct (length v =? length rows)%nat eqn:El; [|discriminate].
  apply Nat.eqb_eq in El. injection E as <-. eauto 10.
Qed.

Lemma setrows_Ok_data (arr : list (list Q)) (ncols : nat) (rows : list Z)
    (d : fits.ndarray) (arr' : list (list Q)) :
  setrows arr ncols rows d = Ok arr' ->
  exists (idx : list nat) (m : list (list Q)),
    py_indices (length arr) rows = Ok idx /\ d = fits.A2 m
    /\ length m = length rows
    /\ (forall r : list Q, r ∈ m -> length r = ncols)
    /\ arr' = assign arr idx m.
Proof.
  unfold setrows. intros E. apply bind_Ok_inv in E as (idx & Ei & E).
  destruct d as [v|m]; [discriminate|].
  destruct (length m =? length rows)%nat eqn:El; simpl in E; [|discriminate].
  destruct (forallb _ m) eqn:Ef; [|discriminate].
  apply Nat.eqb_eq in El. injection E as <-.
  exists idx, m. repeat split; auto.
  intros r Hr. rewrite forallb_forall in Ef.
  apply Nat.eqb_eq. apply Ef. apply list_elem_of_In. exact Hr.
Qed.

Section SlotFacts.
Context `{External}.

(** What one file does to the four arrays of a master of [n] rows. *)
Lemma slotFile_inv (nbins n : nat) (m m' : master) (hdul : fits.HDUList) :
  master_rows m n ->
  slotFile nbins m hdul = Ok m' ->
  exists (idx : list nat) (dm em : list (list Q)) (sv : list Q)
         (mm : list (list Q)),
    py_indices n (fits.data0 hdul) = Ok idx
    /\ fits.data hdul 1 = Ok (fits.A2 dm)
    /\ fits.data hdul 2 = Ok (fits.A2 em)
    /\ fits.data hdul 3 = Ok (fits.A1 sv)
    /\ distsMaster m' = assign (distsMaster m) idx dm
    /\ ebvsMaster m' = assign (ebvsMaster m) idx em
    /\ sfacsMaster m' = assign (sfacsMaster m) idx sv
    /\ maskMaster m' = assign (maskMaster m) idx mm
    /\ (hasMask hdul = true -> fits.data hdul 4 = Ok (fits.A2 mm))
    /\ length dm = length (fits.data0 hdul)
    /\ length em = length (fits.data0 hdul)
    /\ length sv = length (fits.data0 hdul)
    /\ length mm = length (fits.data0 hdul)
    /\ master_rows m' n.
Proof.
  intros (Hd & He & Hs & Hm) E. unfold slotFile in E.
  apply bind_Ok_inv in E as (d1 & E1 & E).
  apply bind_Ok_inv in E as (dists & Ed & E).
  apply bind_Ok_inv in E as (d2 & E2 & E).
  apply bind_Ok_inv in E as (ebvs & Ee & E).
  apply bind_Ok_inv in E as (d3 & E3 & E).
  apply bind_Ok_inv in E as (sfacs & Es & E).
  apply bind_Ok_inv in E as (msk & Em & E).
  injection E as <-. simpl.
  apply setrows_Ok_data in Ed as (idx & dm & Ei & -> & Ldm & _ & ->).
  apply setrows_Ok_data in Ee as (idx2 & em & Ei2 & -> & Lem & _ & ->).
  apply setitems_Ok in Es as (idx3 & sv & Ei3 & -> & Lsv & ->).
  rewrite Hd in Ei. rewrite He in Ei2. rewrite Hs in Ei3.
  assert (idx2 = idx) by congruence. assert (idx3 = idx) by congruence.
  subst idx2 idx3.
  assert (Lidx : length idx = length (fits.data0 hdul)).
  { clear -Ei. revert idx Ei.
    induction (fits.data0 hdul) as [|q rows IH]; intros idx Ei; simpl in Ei.
    - injection Ei as <-. reflexivity.
    - apply bind_Ok_inv in Ei as (j & _ & Ei).
      apply bind_Ok_inv in Ei as (js & Ejs & Ei). injection Ei as <-.
      simpl. f_equal. apply IH. exact Ejs. }
  assert (Hmask : exists mm : list (list Q),
             msk = assign (maskMaster m) idx mm
             /\ (hasMask hdul = true -> fits.data hdul 4 = Ok (fits.A2 mm))
             /\ length mm = length (fits.data0 hdul)).
  { unfold slotMask in Em. unfold hasMask.
    destruct (4 <? fits.len hdul)%nat; simpl in *.
    - apply bind_Ok_inv in Em as ([mask1 b] & Em1 & Em).
      apply bind_Ok_inv in Em1 as (d4 & E4 & Em1). rewrite E4.
      destruct (0 <? fits.size d4)%nat.
      + apply bind_Ok_inv in Em1 as (mask2 & Esr & Em1).
        injection Em1 as <- <-. simpl in Em. injection Em as <-.
        apply setrows_Ok_data in Esr as (idx4 & mm & Ei4 & -> & Lmm & _ & ->).
        rewrite Hm in Ei4. assert (idx4 = idx) by congruence. subst idx4.
        exists mm. auto.
      + injection Em1 as <- <-. simpl in Em. unfold fillrows in Em.
        apply bind_Ok_inv in Em as (idx4 & Ei4 & Em). injection Em as <-.
        rewrite Hm in Ei4. assert (idx4 = idx) by congruence. subst idx4.
        eexists. split; [reflexivity|]. split; [discriminate|].
        rewrite length_replicate. exact Lidx.
    - unfold fillrows in Em.
      apply bind_Ok_inv in Em as (idx4 & Ei4 & Em). injection Em as <-.
      rewrite Hm in Ei4. assert (idx4 = idx) by congruence. subst idx4.
      eexists. split; [reflexivity|]. split; [discriminate|].
      rewrite length_replicate. exact Lidx. }
  destruct Hmask as (mm & -> & Hmm & Lmm).
  exists idx, dm, em, sv, mm.
  repeat (split; [first [assumption | reflexivity]|]).
  unfold master_rows. simpl. rewrite !assign_length. auto.
Qed.

End SlotFacts.

Section MergeRows.
Context `{External}.

Lemma emptyMaster_rows (npix nbins : Z) (m : master) :
  emptyMaster npix nbins = Ok m ->
  master_rows m (Z.to_nat npix)
  /\ distsMaster m = replicate (Z.to_nat npix) (replicate (Z.to_nat nbins) 0)
  /\ ebvsMaster m = replicate (Z.to_nat npix) (replicate (Z.to_nat nbins) 0)
  /\ sfacsMaster m = replicate (Z.to_nat npix) 0
  /\ maskMaster m = replicate (Z.to_nat npix) (replicate (Z.to_nat nbins) 1).
Proof.
  unfold emptyMaster, full2, full1. intros E.
  destruct ((npix <? 0)%Z || (nbins <? 0)%Z); [discriminate|]. cbn [bind] in E.
  destruct (npix <? 0)%Z; [discriminate|]. cbn [bind] in E.
  injection E as <-. unfold master_rows. simpl.
  rewrite !length_replicate. auto 10.
Qed.

(** Files that do not name row [i] leave that row of each array alone. *)
Lemma slotFiles_row_untouched (nbins n : nat) (hduls : list fits.HDUList)
    (m m' : master) (i : nat) :
  master_rows m n ->
  slotFiles nbins m hduls = Ok m' ->
  (forall (h : fits.HDUList) (q : Z),
      h ∈ hduls -> q ∈ fits.data0 h -> py_index n q <> Ok i) ->
  master_rows m' n
  /\ distsMaster m' !! i = distsMaster m !! i
  /\ ebvsMaster m' !! i = ebvsMaster m !! i
  /\ sfacsMaster m' !! i = sfacsMaster m !! i
  /\ maskMaster m' !! i = maskMaster m !! i.
Proof.
  revert m. induction hduls as [|h hduls IH]; intros m Hrows E Hno; simpl in E.
  - injection E as <-. auto.
  - apply bind_Ok_inv in E as (m1 & E1 & E).
    destruct (slotFile_inv nbins n m m1 h Hrows E1)
      as (idx & dm & em & sv & mm & Ei & _ & _ & _ & Hd & He & Hs & Hm
          & _ & _ & _ & _ & _ & Hrows1).
    destruct (IH m1 Hrows1 E) as (Hr & Id & Ie & Is & Im).
    { intros h' q Hh' Hq. apply (Hno h' q); [right; exact Hh' | exact Hq]. }
    assert (Hout : i ∉ idx).
    { intros Hin. apply (proj1 (py_indices_spec _ _ _ Ei i)) in Hin
        as (q & Hq & Eq).
      apply (Hno h q); [left | exact Hq | exact Eq]. }
    split; [exact Hr|].
    rewrite Id, Ie, Is, Im, Hd, He, Hs, Hm.
    rewrite !assign_lookup_notin by exact Hout. auto.
Qed.

(** X18. In the all-sky arrays that [mergeMaps] builds, a pixel that none
    of the files names keeps the initial values: distances, extinctions
    and scale factor 0, and a mask row of ones, the value of masked
    points. *)
Theorem uncovered_rows_stay_masked (npix nbins : Z) (nb : nat) (m0 m : master)
    (hduls : list fits.HDUList) (i : nat) :
  emptyMaster npix nbins = Ok m0 ->
  slotFiles nb m0 hduls = Ok m ->
  (i < Z.to_nat npix)%nat ->
  (forall (h : fits.HDUList) (q : Z),
      h ∈ hduls -> q ∈ fits.data0 h -> py_index (Z.to_nat npix) q <> Ok i) ->
  distsMaster m !! i = Some (replicate (Z.to_nat nbins) 0)
  /\ ebvsMaster m !! i = Some (replicate (Z.to_nat nbins) 0)
  /\ sfacsMaster m !! i = Some 0
  /\ maskMaster m !! i = Some (replicate (Z.to_nat nbins) 1).
Proof.
  intros E0 Es Hi Hno.
  apply emptyMaster_rows in E0 as (Hrows & Hd & He & Hs & Hm).
  destruct (slotFiles_row_untouched nb _ hduls m0 m i Hrows Es Hno)
    as (_ & -> & -> & -> & ->).
  rewrite Hd, He, Hs, Hm.
  rewrite !lookup_replicate_2 by exact Hi. auto.
Qed.

(** X19. A file slotted in by [mergeMaps] puts its [k]-th rows of
    distances and extinctions and its [k]-th scale factor at the row of
    its [k]-th pixel id, and its [k]-th mask row too when it brings mask
    data, provided the file names that pixel once and no later file
    names it. *)
Theorem slotted_rows_are_the_files (nbins n : nat) (m m' : master)
    (before after : list fits.HDUList) (hdul : fits.HDUList)
    (k : nat) (p : Z) (i : nat) :
  master_rows m n ->
  slotFiles nbins m (before ++ hdul :: after) = Ok m' ->
  fits.data0 hdul !! k = Some p ->
  py_index n p = Ok i ->
  (forall (k' : nat) (p' : Z),
      fits.data0 hdul !! k' = Some p' -> py_index n p' = Ok i -> k' = k) ->
  (forall (h : fits.HDUList) (q : Z),
      h ∈ after -> q ∈ fits.data0 h -> py_index n q <> Ok i) ->
  exists (dm em : list (list Q)) (sv : list Q) (drow erow : list Q) (s : Q),
    fits.data hdul 1 = Ok (fits.A2 dm) /\ dm !! k = Some drow
    /\ fits.data hdul 2 = Ok (fits.A2 em) /\ em !! k = Some erow
    /\ fits.data hdul 3 = Ok (fits.A1 sv) /\ sv !! k = Some s
    /\ distsMaster m' !! i = Some drow
    /\ ebvsMaster m' !! i = Some erow
    /\ sfacsMaster m' !! i = Some s
    /\ (hasMask hdul = true ->
        exists (mm : list (list Q)) (mrow : list Q),
          fits.data hdul 4 = Ok (fits.A2 mm) /\ mm !! k = Some mrow
          /\ maskMaster m' !! i = Some mrow).
Proof.
  revert m. induction before as [|h0 before IH];
    intros m Hrows E Hk Hi Huniq Hafter; simpl in E;
    apply bind_Ok_inv in E as (m1 & E1 & E);
    destruct (slotFile_inv nbins n m m1 _ Hrows E1)
      as (idx & dm & em & sv & mm & Ei & D1 & D2 & D3 & Hd & He & Hs & Hm
          & D4 & Ldm & Lem & Lsv & Lmm & Hrows1).
  - destruct (slotFiles_row_untouched nbins n after m1 m' i Hrows1 E Hafter)
      as (_ & -> & -> & -> & ->).
    pose proof (lookup_lt_Some _ _ _ Hk) as Hlt.
    destruct (lookup_lt_is_Some_2 dm k) as [drow Hdrow]; [lia|].
    destruct (lookup_lt_is_Some_2 em k) as [erow Herow]; [lia|].
    destruct (lookup_lt_is_Some_2 sv k) as [s Hsv]; [lia|].
    destruct (lookup_lt_is_Some_2 mm k) as [mrow Hmrow]; [lia|].
    assert (Hidx : idx !! k = Some i)
      by (apply (proj2 (py_indices_lookup _ _ _ k Ei i)); eauto).
    assert (Hu : forall k' : nat, idx !! k' = Some i -> k' = k).
    { intros k' Hk'.
      apply (proj1 (py_indices_lookup _ _ _ k' Ei i)) in Hk' as (p' & Hp' & Ep').
      eapply Huniq; eassumption. }
    pose proof (py_index_lt _ _ _ Hi) as Hin.
    destruct Hrows as (R1 & R2 & R3 & R4).
    exists dm, em, sv, drow, erow, s.
    repeat (split; [assumption|]).
    split; [rewrite Hd; apply (assign_lookup_at idx _ dm k); auto; lia|].
    split; [rewrite He; apply (assign_lookup_at idx _ em k); auto; lia|].
    split; [rewrite Hs; apply (assign_lookup_at idx _ sv k); auto; lia|].
    intros HM. exists mm, mrow. split; [apply D4, HM|]. split; [exact Hmrow|].
    rewrite Hm. apply (assign_lookup_at idx _ mm k); auto; lia.
  - apply (IH m1 Hrows1 E Hk Hi Huniq Hafter).
Qed.

End MergeRows.

(** The empty map of twelve pixels and two bins, and the file of the test
    disk slotted into it. *)
Ltac with_test_merge tac :=
  let r := eval vm_compute in (emptyMaster 12 2) in
  match r with
  | Ok ?m0 =>
      let r' := eval vm_compute in (slotFiles 2 m0 [Toy.tile]) in
      match r' with
      | Ok ?m =>
          let E0 := fresh "E0" in let Es := fresh "Es" in
          assert (E0 : emptyMaster 12 2 = Ok m0) by (vm_compute; reflexivity);
          assert (Es : slotFiles 2 m0 ([] ++ Toy.tile :: []) = Ok m)
            by (vm_compute; reflexivity);
          tac m0 m E0 Es
      end
  end.

(** X18, on the test file, which names pixels 0 and 1: pixel 5 stays as
    it was laid out. *)
Lemma uncovered_rows_stay_masked_witness :
  exists m : master,
    distsMaster m !! 5%nat = Some [0; 0]
    /\ ebvsMaster m !! 5%nat = Some [0; 0]
    /\ sfacsMaster m !! 5%nat = Some 0
    /\ maskMaster m !! 5%nat = Some [1; 1].
Proof.
  with_test_merge ltac:(fun m0 m E0 Es =>
    exists m;
    apply (uncovered_rows_stay_masked 12 2 2 m0 m [Toy.tile] 5 E0 Es);
    [simpl; lia|]).
  intros h q Hh Hq.
  apply elem_of_cons in Hh as [->|Hh]; [|exact (False_ind _ (not_elem_of_nil _ Hh))].
  repeat (apply elem_of_cons in Hq as [->|Hq]; [discriminate|]).
  exact (False_ind _ (not_elem_of_nil _ Hq)).
Defined.

(** X19, on the test file: its second rows land at pixel 1. *)
Lemma slotted_rows_are_the_files_witness :
  exists (m' : master) (dm em : list (list Q)) (sv : list Q)
         (drow erow : list Q) (s : Q),
    fits.data Toy.tile 1 = Ok (fits.A2 dm) /\ dm !! 1%nat = Some drow
    /\ fits.data Toy.tile 2 = Ok (fits.A2 em) /\ em !! 1%nat = Some erow
    /\ fits.data Toy.tile 3 = Ok (fits.A1 sv) /\ sv !! 1%nat = Some s
    /\ distsMaster m' !! 1%nat = Some drow
    /\ ebvsMaster m' !! 1%nat = Some erow
    /\ sfacsMaster m' !! 1%nat = Some s
    /\ (hasMask Toy.tile = true ->
        exists (mm : list (list Q)) (mrow : list Q),
          fits.data Toy.tile 4 = Ok (fits.A2 mm) /\ mm !! 1%nat = Some mrow
          /\ maskMaster m' !! 1%nat = Some mrow).
Proof.
  with_test_merge ltac:(fun m0 m E0 Es =>
    exists m;
    apply (slotted_rows_are_the_files 2 12 m0 m [] [] Toy.tile 1 1%Z 1
             (proj1 (emptyMaster_rows 12 2 m0 E0)) Es)).
  - reflexivity.
  - reflexivity.
  - intros k' p' Hk' Hp'.
    destruct k' as [|[|k']]; simpl in Hk'; [|reflexivity|discriminate Hk'].
    injection Hk' as <-. discriminate Hp'.
  - intros h q Hh. exact (False_ind _ (not_elem_of_nil _ Hh)).
Defined.

(** ** The paths of [mergeMaps] *)

Section MergePaths.
Context `{External} `{Astropy}.

(** X20. When the output path is the only path that matched, it is taken
    off the list of inputs, and reading the header of the first input
    raises [IndexError]. *)
Theorem mergeMaps_only_input_is_output (path : string) (fs : disk) :
  (4 <= String.length path)%nat ->
  mergeMaps [path] path fs = Raise IndexError.
Proof.
  intros Hlen. unfold mergeMaps.
  change (length [path] <? 1)%nat with false. cbv iota.
  destruct (String.length path <? 4)%nat eqn:E; [apply Nat.ltb_lt in E; lia|].
  rewrite bool_decide_eq_true_2 by left.
  simpl. rewrite String.eqb_refl. reflexivity.
Qed.

(** Lines 929-938: the inputs that are read and the path that is
    written.  An output path shorter than 4 characters gives way to
    [test_mergedmaps.fits]; an output path that is among the inputs is
    taken off them, and [tmp_] is put before its file name. *)
Definition mergePaths (lPaths : list string) (pathJoined : string)
  : list string * string :=
  let pathJoined :=
    if (String.length pathJoined <? 4)%nat then "test_mergedmaps.fits"
    else pathJoined in
  if bool_decide (pathJoined ∈ lPaths)
  then (remove_first pathJoined lPaths, ("tmp_" +:+ basename pathJoined)%string)
  else (lPaths, pathJoined).

Lemma mergePaths_nonempty (lPaths : list string) (pathJoined path0 : string) :
  (mergePaths lPaths pathJoined).1 !! 0%nat = Some path0 ->
  (length lPaths <? 1)%nat = false.
Proof.
  destruct lPaths as [|p rest]; [|reflexivity].
  unfold mergePaths. rewrite bool_decide_eq_false_2 by apply not_elem_of_nil.
  discriminate.
Qed.

(** X21. When the header of the first input that is read (the first of
    the paths that are left once the output path, if it is among them,
    has been taken off) lacks one of the keywords NESTED, NSIDE and
    NBINS, [mergeMaps] returns without raising and without writing: the
    disk is as before. *)
Theorem mergeMaps_missing_keyword (lPaths : list string) (pathJoined : string)
    (fs : disk) (path0 : string) (hdul : fits.HDUList) :
  (mergePaths lPaths pathJoined).1 !! 0%nat = Some path0 ->
  fs !! path0 = Some hdul ->
  fits.header hdul !! "NESTED" = None
  \/ fits.header hdul !! "NSIDE" = None
  \/ fits.header hdul !! "NBINS" = None ->
  mergeMaps lPaths pathJoined fs = Ok fs.
Proof.
  intros Hfirst Hfs Hmiss. unfold mergeMaps.
  rewrite (mergePaths_nonempty _ _ _ Hfirst).
  unfold mergePaths in Hfirst.
  destruct (bool_decide _); cbn [fst] in Hfirst;
    unfold np.getitem; rewrite Hfirst; cbn [bind]; rewrite Hfs; cbn [bind];
    (destruct Hmiss as [-> | [Hm | Hm]];
     [ reflexivity
     | rewrite Hm; destruct (fits.header hdul !! "NESTED"); reflexivity
     | rewrite Hm; destruct (fits.header hdul !! "NESTED") as [c|];
       [|reflexivity];
       destruct (fits.header hdul !! "NSIDE") as [[z|b|q]|]; reflexivity ]).
Qed.

End MergePaths.

(** X20, for the default output path. *)
Lemma mergeMaps_only_input_is_output_witness :
  mergeMaps ["merged_ebv3d_nside64.fits"] "merged_ebv3d_nside64.fits" ∅
  = Raise IndexError.
Proof.
  apply (mergeMaps_only_input_is_output "merged_ebv3d_nside64.fits" ∅).
  simpl. lia.
Defined.

(** X21, for a file whose header is empty, found under the output path
    as well as under its own: the first input that is read is the one
    that is left. *)
Lemma mergeMaps_missing_keyword_witness :
  let bare := {| fits.header := ∅; fits.data0 := [0%Z];
                 fits.images := [] |} in
  mergeMaps ["merged.fits"; "bare.fits"] "merged.fits" (<["bare.fits" := bare]> ∅)
  = Ok (<["bare.fits" := bare]> ∅).
Proof.
  intros bare.
  apply (mergeMaps_missing_keyword ["merged.fits"; "bare.fits"] "merged.fits" _
           "bare.fits" bare).
  - vm_compute. reflexivity.
  - apply lookup_insert_eq.
  - left. reflexivity.
Defined.

Section MergeOutput.
Context `{External} `{Astropy}.

(** X22. Given a first input (of the inputs that are read) whose header
    carries NESTED, NSIDE and NBINS, when the inputs can be slotted into
    the empty map of [npix] pixels (at least one), [mergeMaps] writes
    under the path that is written a file with the primary header that
    astropy makes from the pixel ids and the header of the first input,
    the pixel ids 0 to [npix - 1] and the four merged arrays, and touches
    no other file.  The inputs that are read and the path that is
    written are those of [mergePaths]. *)
Theorem mergeMaps_writes_master (lPaths : list string) (pathJoined : string)
    (fs : disk) (inputs : list string) (out path0 : string)
    (hdul0 : fits.HDUList) (c : fits.card)
    (nside nbins : Z) (m0 m : master) (hduls : list fits.HDUList) :
  mergePaths lPaths pathJoined = (inputs, out) ->
  inputs !! 0%nat = Some path0 ->
  fs !! path0 = Some hdul0 ->
  fits.header hdul0 !! "NESTED" = Some c ->
  fits.header hdul0 !! "NSIDE" = Some (fits.CInt nside) ->
  fits.header hdul0 !! "NBINS" = Some (fits.CInt nbins) ->
  (1 <= hp_nside2npix nside)%Z ->
  emptyMaster (hp_nside2npix nside) nbins = Ok m0 ->
  openAll fs inputs = Ok hduls ->
  slotFiles (Z.to_nat nbins) m0 hduls = Ok m ->
  let ids := map Z.of_nat (seq 0 (Z.to_nat (hp_nside2npix nside))) in
  exists fs' : disk,
    mergeMaps lPaths pathJoined fs = Ok fs'
    /\ fs' !! out
       = Some {| fits.header := fits_PrimaryHDU_header ids (fits.header hdul0);
                 fits.data0 := ids;
                 fits.images := [fits.A2 (distsMaster m); fits.A2 (ebvsMaster m);
                                 fits.A1 (sfacsMaster m);
                                 fits.A2 (maskMaster m)] |}
    /\ (forall path : string, path <> out -> fs' !! path = fs !! path).
Proof.
  intros Hpaths Hfirst Hfs Hne Hns Hnb Hnpix E0 Eo Es ids. unfold mergeMaps.
  assert (Hl0 : (length lPaths <? 1)%nat = false).
  { apply (mergePaths_nonempty lPaths pathJoined path0).
    rewrite Hpaths. exact Hfirst. }
  rewrite Hl0. unfold mergePaths in Hpaths.
  match goal with
  | |- context [if bool_decide ?P then ?a else ?b] =>
      change (if bool_decide P then a else b) with (inputs, out) ||
      replace (if bool_decide P then a else b) with (inputs, out)
        by (symmetry; exact Hpaths)
  end.
  unfold np.getitem. rewrite Hfirst. cbn [bind]. rewrite Hfs. cbn [bind].
  rewrite Hne, Hns, Hnb, E0. cbn [bind]. rewrite Eo. cbn [bind].
  rewrite Es. cbn [bind].
  unfold writeExtmap. fold ids.
  assert (Hl : (length ids <? 1)%nat = false).
  { apply Nat.ltb_ge. unfold ids. rewrite length_map, length_seq. lia. }
  rewrite Hl. cbn [bind setKeys].
  eexists. split; [reflexivity|]. split.
  - apply lookup_insert_eq.
  - intros path Hp. apply lookup_insert_ne. congruence.
Qed.

End MergeOutput.

(** X22, on the test disk: twelve pixels, the file of two pixels slotted
    in. *)
Lemma mergeMaps_writes_master_witness :
  exists (fs' : disk) (m : master),
    mergeMaps [Toy.tilePath] "merged_ebv3d_nside1.fits" Toy.tileDisk = Ok fs'
    /\ fs' !! "merged_ebv3d_nside1.fits"
       = Some {| fits.header := fits.header Toy.tile;
                 fits.data0 := map Z.of_nat (seq 0 12);
                 fits.images := [fits.A2 (distsMaster m); fits.A2 (ebvsMaster m);
                                 fits.A1 (sfacsMaster m);
                                 fits.A2 (maskMaster m)] |}
    /\ (forall path : string,
           path <> "merged_ebv3d_nside1.fits" ->
           fs' !! path = Toy.tileDisk !! path).
Proof.
  with_test_merge ltac:(fun m0 m E0 Es =>
    destruct (mergeMaps_writes_master [Toy.tilePath] "merged_ebv3d_nside1.fits"
                Toy.tileDisk [Toy.tilePath] "merged_ebv3d_nside1.fits"
                Toy.tilePath Toy.tile (fits.CBool false) 1 2 m0 m [Toy.tile])
      as (fs' & Em & Ho & Hother);
    [ vm_compute; reflexivity
    | reflexivity
    | exact tileDisk_lookup
    | vm_compute; reflexivity | vm_compute; reflexivity | vm_compute; reflexivity
    | vm_compute; discriminate
    | exact E0
    | vm_compute; reflexivity
    | exact Es
    | exists fs', m; split; [exact Em|]; split; [exact Ho | exact Hother]]).
Defined.

(** ** Queries on the loaded map *)

Lemma argmin_each_lookup (arr : list (list Q)) (idx : list nat) :
  ebv3d.argmin_each arr = Ok idx ->
  length idx = length arr
  /\ (forall (k : nat) (row : list Q),
         arr !! k = Some row ->
         exists (j : nat) (v : Q),
           idx !! k = Some j /\ row !! j = Some v
           /\ (forall y : Q, y ∈ row -> v <= y)).
Proof.
  revert idx. induction arr as [|r arr IH]; intros idx E; simpl in E.
  - injection E as <-. split; [reflexivity|]. intros k row Hk. discriminate Hk.
  - apply bind_Ok_inv in E as (i & Ei & E).
    apply bind_Ok_inv in E as (rest & Er & E). injection E as <-.
    destruct (IH rest Er) as [Hlen Hall]. split; [simpl; f_equal; exact Hlen|].
    intros [|k] row Hk; simpl in Hk.
    + injection Hk as <-. apply argmin_spec in Ei as (v & Hv & Hmin).
      exists i, v. auto.
    + apply Hall. exact Hk.
Qed.

Lemma argmin_axis1_each (arr : list (list Q)) (idx : list nat) :
  ebv3d.argmin_axis1 arr = Ok idx -> ebv3d.argmin_each arr = Ok idx.
Proof. destruct arr; [discriminate | auto]. Qed.

Lemma take_along_axis_lookup (arr : list (list Q)) (idx : list nat) (vs : list Q) :
  ebv3d.take_along_axis arr idx = Ok vs ->
  length arr = length idx /\ length vs = length idx
  /\ (forall (k j : nat),
         idx !! k = Some j ->
         exists (row : list Q) (v : Q),
           arr !! k = Some row /\ row !! j = Some v /\ vs !! k = Some v).
Proof.
  revert idx vs. induction arr as [|r arr IH]; intros [|i idx] vs E; simpl in E;
    try discriminate.
  - injection E as <-. split; [reflexivity|]. split; [reflexivity|].
    intros k j Hk. discriminate Hk.
  - apply bind_Ok_inv in E as (v & Ev & E). apply getitem_Ok in Ev.
    apply bind_Ok_inv in E as (rest & Er & E). injection E as <-.
    destruct (IH idx rest Er) as (L1 & L2 & Hall).
    split; [simpl; f_equal; exact L1|]. split; [simpl; f_equal; exact L2|].
    intros [|k] j Hk; simpl in Hk.
    + injection Hk as <-. exists r, v. auto.
    + apply Hall. exact Hk.
Qed.

(** X23. For every pixel of the map, [getMapNearestDist] hands back a
    distance of that pixel's row that is nearest the distance asked for,
    and the extinction that stands in the same bin of the pixel's
    extinction row. *)
Theorem getMapNearestDist_nearest (self : ebv3d.t) (distPc : Q) (es ds : list Q) :
  ebv3d.getMapNearestDist self distPc = Ok (es, ds) ->
  length ds = length (ebv3d.dists self)
  /\ length es = length (ebv3d.dists self)
  /\ (forall (k : nat) (drow : list Q),
         ebv3d.dists self !! k = Some drow ->
         exists (j : nat) (dk ek : Q) (erow : list Q),
           drow !! j = Some dk /\ ds !! k = Some dk
           /\ (forall d : Q, d ∈ drow -> Qabs (dk - distPc) <= Qabs (d - distPc))
           /\ ebv3d.ebvs self !! k = Some erow
           /\ erow !! j = Some ek /\ es !! k = Some ek).
Proof.
  unfold ebv3d.getMapNearestDist. intros E.
  apply bind_Ok_inv in E as (imin & Ei & E).
  apply bind_Ok_inv in E as (ds' & Ed & E).
  apply bind_Ok_inv in E as (es' & Ee & E). injection E as <- <-.
  apply argmin_axis1_each, argmin_each_lookup in Ei as [Li Hi].
  rewrite length_map in Li.
  apply take_along_axis_lookup in Ed as (Ld1 & Ld2 & Hd).
  apply take_along_axis_lookup in Ee as (Le1 & Le2 & He).
  split; [lia|]. split; [lia|].
  intros k drow Hk.
  destruct (Hi k (map (fun d => Qabs (d - distPc)) drow))
    as (j & v & Hj & Hv & Hmin).
  { change (map ?f ?l) with (f <$> l). rewrite list_lookup_fmap, Hk. reflexivity. }
  destruct (Hd k j Hj) as (drow' & dk & Hk' & Hdk & Hds).
  rewrite Hk in Hk'. injection Hk' as <-.
  destruct (He k j Hj) as (erow & ek & Hek & Hej & Hes).
  exists j, dk, ek, erow. repeat (split; [assumption|]). split; [|auto].
  intros d Hd'.
  change (map ?f ?l) with (f <$> l) in Hv. rewrite list_lookup_fmap, Hdk in Hv.
  injection Hv as <-. apply Hmin.
  apply list_elem_of_lookup in Hd' as [j' Hj']. apply list_elem_of_lookup.
  exists j'. change (map ?f ?l) with (f <$> l).
  rewrite list_lookup_fmap, Hj'. reflexivity.
Qed.

(** X24. [getDistanceAtMag] hands back [None], and raises nothing, when
    the vector of magnitudes has not one entry per pixel; otherwise, when
    it returns, it hands back the (m-M) map of [getDeltaMag] for the
    filter and, for every pixel, the distance that stands in a bin whose
    (m-M) is nearest the magnitude asked for that pixel. *)
Theorem getDistanceAtMag_nearest (self : ebv3d.t) (deltamag : Q + list Q)
    (sfilt : string) :
  let dmagVec :=
    match deltamag with
    | inl x => replicate (length (ebv3d.ebvs self)) x
    | inr v => v
    end in
  (length dmagVec <> length (ebv3d.ebvs self) ->
   ebv3d.getDistanceAtMag self deltamag sfilt = Ok None)
  /\ (forall (ds : list Q) (mMinusM : list (list Q)),
         ebv3d.getDistanceAtMag self deltamag sfilt = Ok (Some (ds, mMinusM)) ->
         ebv3d.getDeltaMag self sfilt = Ok mMinusM
         /\ forall (k : nat) (mrow : list Q) (dm : Q),
              mMinusM !! k = Some mrow -> dmagVec !! k = Some dm ->
              exists (j : nat) (x dk : Q) (drow : list Q),
                mrow !! j = Some x
                /\ (forall y : Q, y ∈ mrow -> Qabs (x - dm) <= Qabs (y - dm))
                /\ ebv3d.dists self !! k = Some drow
                /\ drow !! j = Some dk /\ ds !! k = Some dk).
Proof.
  intros dmagVec. unfold ebv3d.getDistanceAtMag. fold dmagVec. split.
  - intros Hne. apply Nat.eqb_neq in Hne. rewrite Hne. reflexivity.
  - intros ds mMinusM E.
    destruct (length dmagVec =? length (ebv3d.ebvs self))%nat; cbn [negb] in E;
      [|discriminate].
    apply bind_Ok_inv in E as (mm & Em & E).
    apply bind_Ok_inv in E as (iMin & Ei & E).
    apply bind_Ok_inv in E as (ds' & Ed & E). injection E as <- <-.
    split; [exact Em|].
    apply argmin_axis1_each, argmin_each_lookup in Ei as [Li Hi].
    apply take_along_axis_lookup in Ed as (Ld1 & Ld2 & Hd).
    intros k mrow dm Hk Hdm.
    destruct (Hi k (map (fun x => Qabs (x - dm)) mrow)) as (j & v & Hj & Hv & Hmin).
    { apply lookup_zip_with_Some. exists mrow, dm. auto. }
    destruct (Hd k j Hj) as (drow & dk & Hdrow & Hdk & Hds).
    change (map ?f ?l) with (f <$> l) in Hv. rewrite list_lookup_fmap in Hv.
    destruct (mrow !! j) as [x|] eqn:Ex; [|discriminate].
    assert (Hvx : v = Qabs (x - dm)) by (cbn [fmap option_fmap option_map] in Hv; congruence).
    subst v.
    exists j, x, dk, drow. split; [exact Ex|]. split; [|auto].
    intros y Hy. apply Hmin.
    apply list_elem_of_lookup in Hy as [j' Hj']. apply list_elem_of_lookup.
    exists j'. change (map ?f ?l) with (f <$> l).
    rewrite list_lookup_fmap, Hj'. reflexivity.
Qed.

(** A loaded map of two pixels and three bins. *)
Definition twoPixelMap : ebv3d.t :=
  {| ebv3d.pathMap := "merged_ebv3d_nside64.fits";
     ebv3d.hpids := [0%Z; 1%Z];
     ebv3d.dists := [[10; 100; 1000]; [10; 100; 1000]];
     ebv3d.ebvs := [[1; 2; 3]; [4; 5; 6]];
     ebv3d.sfacs := [1; 1];
     ebv3d.mask := [];
     ebv3d.nside := 64;
     ebv3d.nested := false;
     ebv3d.dmods := [[0; 5; 10]; [0; 5; 10]];
     ebv3d.R_x := ebv3d.R_x_table;
     ebv3d.Verbose := true |}.

(** X23, on the map of two pixels asked for 120 pc: the bin of 100 pc in
    both. *)
Lemma getMapNearestDist_nearest_witness :
  length [100; 100] = length (ebv3d.dists twoPixelMap)
  /\ length [2; 5] = length (ebv3d.dists twoPixelMap)
  /\ (forall (k : nat) (drow : list Q),
         ebv3d.dists twoPixelMap !! k = Some drow ->
         exists (j : nat) (dk ek : Q) (erow : list Q),
           drow !! j = Some dk /\ [100; 100] !! k = Some dk
           /\ (forall d : Q, d ∈ drow -> Qabs (dk - 120) <= Qabs (d - 120))
           /\ ebv3d.ebvs twoPixelMap !! k = Some erow
           /\ erow !! j = Some ek /\ [2; 5] !! k = Some ek).
Proof.
  apply (getMapNearestDist_nearest twoPixelMap 120 [2; 5] [100; 100]).
  vm_compute. reflexivity.
Defined.

(** ** The periodic write of the batch loop *)

Section Flush.
Context `{External} `{Astropy} (cube : stilism_local.Cube).

(** X25. For a positive [reportInterval], a turn of the loop that does
    not raise writes the file of the batch exactly when its index has
    reached the interval and is a multiple of it: the file then holds all pixel ids of the batch, the
    arrays as they stand after the turn and an empty mask, under the
    metadata of the batch; in every other turn the disk is as before. *)
Theorem loopBody_flush (nside nbins : Z) (nested : bool) (nl nb : Z)
    (tellTime : bool) (reportInterval : Z) (fitsPath : string) (fracPix : Q)
    (dMeta : list (string * fits.card)) (hpids : list Z) (iHP : nat)
    (st st' : chunk) (fs fs' : disk) :
  (0 < reportInterval)%Z ->
  loopBody cube nside nbins nested nl nb tellTime reportInterval fitsPath
           fracPix dMeta hpids iHP st fs = (fs', Ok st') ->
  let due := (reportInterval <= Z.of_nat iHP)%Z
             /\ (Z.of_nat iHP mod reportInterval = 0)%Z in
  (due ->
   exists hdr : gmap string fits.card,
     setKeys (fits_PrimaryHDU_header hpids ∅) dMeta = Ok hdr
     /\ fs' = <[fitsPath :=
                 {| fits.header := hdr;
                    fits.data0 := hpids;
                    fits.images := [fits.A2 (c_dists st'); fits.A2 (c_ebvs st');
                                    fits.A1 (c_sfacs st'); fits.A1 []] |}]> fs)
  /\ (~ due -> fs' = fs).
Proof.
  intros Hpos E due. unfold loopBody in E.
  match type of E with
  | (match ?u with _ => _ end) = _ => destruct u as [[st1 flag]|e] eqn:Eu
  end; [|discriminate].
  apply bind_Ok_inv in Eu as (hpid & Eh & Eu). apply getitem_Ok in Eh.
  assert (Hne : (length hpids <? 1)%nat = false).
  { apply Nat.ltb_ge. apply lookup_lt_Some in Eh. lia. }
  apply bind_Ok_inv in Eu as (r & _ & Eu).
  apply bind_Ok_inv in Eu as ([[ebvsThis distsThis] rvFactor] & _ & Eu).
  apply bind_Ok_inv in Eu as (dists & _ & Eu).
  apply bind_Ok_inv in Eu as (ebvs & _ & Eu).
  apply bind_Ok_inv in Eu as (x & _ & Eu).
  assert (Hflag : flag = true <-> due).
  { unfold due. destruct (reportInterval <=? Z.of_nat iHP)%Z eqn:E1.
    - apply Z.leb_le in E1.
      destruct (reportInterval =? 0)%Z eqn:E2; [discriminate|].
      apply Z.eqb_neq in E2. injection Eu as _ <-.
      rewrite Z.ltb_lt.
      pose proof (Z.mod_pos_bound (Z.of_nat iHP) reportInterval Hpos) as Hp.
      split; [intros Hlt; split; [exact E1 | lia] | intros [_ ->]; lia].
    - apply Z.leb_gt in E1. injection Eu as _ <-.
      split; [discriminate | intros [Hle _]; lia]. }
  destruct flag.
  - unfold writeExtmap in E. rewrite Hne in E.
    destruct (setKeys (fits_PrimaryHDU_header hpids ∅) dMeta) as [hdr|e];
      cbn [bind] in E; [|discriminate].
    injection E as <- <-. split; [intros _; exists hdr; split; reflexivity|].
    intros Hnd. exfalso. apply Hnd, Hflag. reflexivity.
  - injection E as <- <-. split; [|reflexivity].
    intros Hd. apply Hflag in Hd. discriminate Hd.
Qed.

End Flush.

(** X25, on the test double: with an interval of 2, the turn of index 2
    writes the file. *)
Lemma loopBody_flush_witness :
  exists (st' : chunk) (fs' : disk),
    loopBody Toy.cube 1 20 false 1 1 false 2 "out.fits" 1 Toy.tileMeta
      [0%Z; 1%Z; 2%Z] 2
      {| c_dists := replicate 3 (replicate 20 0);
         c_ebvs := replicate 3 (replicate 20 0);
         c_sfacs := [1; 1; 1] |} ∅ = (fs', Ok st')
    /\ fs' = <["out.fits" :=
                {| fits.header :=
                     fold_left (fun h kv => <[upper kv.1 := kv.2]> h)
                               Toy.tileMeta ∅;
                   fits.data0 := [0%Z; 1%Z; 2%Z];
                   fits.images := [fits.A2 (c_dists st'); fits.A2 (c_ebvs st');
                                   fits.A1 (c_sfacs st'); fits.A1 []] |}]> ∅.
Proof.
  pose (st := {| c_dists := replicate 3 (replicate 20 0);
                 c_ebvs := replicate 3 (replicate 20 0);
                 c_sfacs := [1; 1; 1] |}).
  let v := eval vm_compute in
    (loopBody Toy.cube 1 20 false 1 1 false 2 "out.fits" 1 Toy.tileMeta
       [0%Z; 1%Z; 2%Z] 2 st ∅) in
  match v with
  | (?fs', Ok ?st') =>
      exists st', fs';
      assert (E : loopBody Toy.cube 1 20 false 1 1 false 2 "out.fits" 1
                    Toy.tileMeta [0%Z; 1%Z; 2%Z] 2 st ∅ = (fs', Ok st'))
        by (vm_compute; reflexivity);
      split; [exact E|];
      destruct (proj1 (loopBody_flush Toy.cube 1 20 false 1 1 false 2 "out.fits" 1
                         Toy.tileMeta [0%Z; 1%Z; 2%Z] 2 st st' ∅ fs'
                         ltac:(lia) E))
        as (hdr & Ehdr & Efs); [split; [lia | reflexivity]|];
      injection Ehdr as <-; exact Efs
  end.
Defined.
